(** * Persistor: backup ordering, DDL generation, extraction and schema diff

    A shallow embedding of the TypeScript sources of Persistor:
    - [src/types/index.ts], [src/types/comparison.ts]   (metadata model)
    - [src/engines/postgres/PostgresDDLGenerator.ts], [OracleDDLGenerator]
    - [src/engines/postgres/PostgresInspector.ts]        (getConstraints, getSequences)
    - [PostgresExtractor]                                (streamTableData, formatValue)
    - [src/core/comparator.ts], [src/core/orchestrator.ts], [src/writer/writer.ts]
    - [src/utils/exporter.ts] and the command line          (sheet rows, [--tables])

    Conventions.  A JavaScript string is a [string] (a sequence of bytes, the
    UTF-8 text that ends up in the output file); [null]/[undefined] fields are
    [option]s; a JavaScript [Map] used only for lookups is a [gmap], a [Set] a
    [gset], and a [Map] whose iteration order is observed is an association
    list in insertion order.  [async] calls are sequential here: every query
    is a read of an immutable catalog snapshot. *)

From Equations Require Import Equations.
From stdpp Require Import gmap strings list pretty sorting.
From Stdlib Require Import Ascii ZArith Lia.

Set Warnings "-register-all".

Local Open Scope string_scope.
Local Open Scope list_scope.
Local Open Scope nat_scope.
Local Open Scope stdpp_scope.

(** ** The fragment of the JavaScript runtime the sources rely on *)

Module Js.

Definition is_upper (c : ascii) : bool :=
  (65 <=? nat_of_ascii c) && (nat_of_ascii c <=? 90).

Definition is_lower (c : ascii) : bool :=
  (97 <=? nat_of_ascii c) && (nat_of_ascii c <=? 122).

Definition lower_char (c : ascii) : ascii :=
  if is_upper c then ascii_of_nat (nat_of_ascii c + 32) else c.

Definition upper_char (c : ascii) : ascii :=
  if is_lower c then ascii_of_nat (nat_of_ascii c - 32) else c.

(** [s.toLowerCase()] and [s.toUpperCase()], on the ASCII letters. *)
Fixpoint toLowerCase (s : string) : string :=
  match s with
  | EmptyString => EmptyString
  | String c r => String (lower_char c) (toLowerCase r)
  end.

Fixpoint toUpperCase (s : string) : string :=
  match s with
  | EmptyString => EmptyString
  | String c r => String (upper_char c) (toUpperCase r)
  end.

(** [s.includes(sub)] *)
Fixpoint includes (s sub : string) : bool :=
  String.prefix sub s ||
  match s with
  | EmptyString => false
  | String _ r => includes r sub
  end.

(** [s.replace(/'/g, "''")] *)
Fixpoint doubleQuotes (s : string) : string :=
  match s with
  | EmptyString => EmptyString
  | String c r =>
      if Ascii.eqb c "'" then String "'" (String "'" (doubleQuotes r))
      else String c (doubleQuotes r)
  end.

(** [l.join(sep)] on an array of strings. *)
Definition join (sep : string) (l : list string) : string := String.concat sep l.

(** Truthiness of a value of type [string | null | undefined]. *)
Definition truthy_str (o : option string) : bool :=
  match o with
  | Some s => negb (String.eqb s "")
  | None => false
  end.

(** Truthiness of a value of type [number | null]. *)
Definition truthy_num (o : option Z) : bool :=
  match o with
  | Some n => negb (Z.eqb n 0)
  | None => false
  end.

(** [a || b] on [string | null] operands. *)
Definition or_str (a : option string) (b : option string) : option string :=
  if truthy_str a then a else b.

(** Interpolation [`${x}`] of a possibly absent string. *)
Definition show_str (o : option string) : string := default "undefined" o.

(** Interpolation [`${n}`] of an integer-valued number below 10^21 in
    magnitude. *)
Definition show_num (n : Z) : string := pretty n.

(** Number of occurrences of a character. *)
Fixpoint count_char (c : ascii) (s : string) : nat :=
  match s with
  | EmptyString => 0
  | String d r => (if Ascii.eqb d c then 1 else 0) + count_char c r
  end.

(** The inverse reading of a text in which quotes were doubled. *)
Fixpoint undoubleQuotes (s : string) : string :=
  match s with
  | String c1 (String c2 r as r1) =>
      if Ascii.eqb c1 "'" && Ascii.eqb c2 "'" then String "'" (undoubleQuotes r)
      else String c1 (undoubleQuotes r1)
  | _ => s
  end.

End Js.

Definition LF : string := String (ascii_of_nat 10) EmptyString.

(** ** Metadata model ([src/types/index.ts]) *)

Inductive ConstraintType := PRIMARY_KEY | FOREIGN_KEY | UNIQUE | CHECK.

#[global] Instance ConstraintType_eq_dec : EqDecision ConstraintType.
Proof. solve_decision. Defined.

Definition ConstraintType_text (k : ConstraintType) : string :=
  match k with
  | PRIMARY_KEY => "PRIMARY KEY"
  | FOREIGN_KEY => "FOREIGN KEY"
  | UNIQUE => "UNIQUE"
  | CHECK => "CHECK"
  end.

Module TableColumn.
Record t := mk {
  name : string;
  dataType : string;
  isNullable : bool;
  columnDefault : option string;
  characterMaximumLength : option Z;
  numericPrecision : option Z;
  numericScale : option Z;
  udtName : string
}.
End TableColumn.
Abbreviation TableColumn := TableColumn.t.

Module TableConstraint.
Record t := mk {
  name : string;
  type : ConstraintType;
  columns : list string;
  foreignTable : option string;
  foreignColumns : option (list string);
  definition : option string
}.
End TableConstraint.
Abbreviation TableConstraint := TableConstraint.t.

Module TableIndex.
Record t := mk { name : string; definition : string }.
End TableIndex.
Abbreviation TableIndex := TableIndex.t.

Module TableSequence.
Record t := mk {
  name : string;
  dataType : string;
  startValue : string;
  minValue : string;
  maxValue : string;
  incrementBy : string;
  cycle : bool;
  cacheSize : string;
  lastValue : string
}.
End TableSequence.
Abbreviation TableSequence := TableSequence.t.

Module TableMetadata.
Record t := mk {
  name : string;
  schema : string;
  columns : list TableColumn;
  constraints : list TableConstraint;
  indexes : list TableIndex;
  sequences : list TableSequence
}.
End TableMetadata.
Abbreviation TableMetadata := TableMetadata.t.

Module DatabaseObject.
Record t := mk {
  name : string;
  schema : string;
  definition : string;
  tableName : option string
}.
End DatabaseObject.
Abbreviation DatabaseObject := DatabaseObject.t.

Inductive DbType := postgres | oracle.

(** ** Comparison model ([src/types/comparison.ts]) *)

Inductive DiffType :=
  | MISSING_TABLE | MISSING_COLUMN | TYPE_MISMATCH | NULLABILITY_MISMATCH
  | DEFAULT_MISMATCH | MISSING_CONSTRAINT | MISSING_INDEX | MISSING_FUNCTION
  | MISSING_TRIGGER | FUNCTION_MISMATCH | TRIGGER_MISMATCH.

#[global] Instance DiffType_eq_dec : EqDecision DiffType.
Proof. solve_decision. Defined.

Module SchemaDiff.
(** [table] is declared [string]; it is filled from [sTrig.tableName!], which
    is absent on an object that carries no table, hence the [option]. *)
Record t := mk {
  type : DiffType;
  table : option string;
  column : option string;
  expected : option string;
  actual : option string;
  details : option string;
  fix_ : option string
}.
End SchemaDiff.
Abbreviation SchemaDiff := SchemaDiff.t.

Module ComparisonResult.
Record t := mk { sourceDb : string; targetDb : string; diffs : list SchemaDiff }.
End ComparisonResult.
Abbreviation ComparisonResult := ComparisonResult.t.

(** ** Engine interfaces ([src/engines/interfaces.ts]) *)

Record IDDLGenerator := {
  generateDatabaseCreate : string → string;
  generateSchemaCreate : string → string;
  generateTableCreate : TableMetadata → string;
  generateConstraints : TableMetadata → string;
  generateIndexes : TableMetadata → string;
  generateSequences : TableMetadata → string;
  generateAddColumn : string → string → TableColumn → string;
  generateAlterColumnType : string → string → TableColumn → string;
  generateAlterColumnNullability : string → string → TableColumn → string;
  generateAlterColumnDefault : string → string → TableColumn → string;
  generateDropTrigger : string → string → string → string;
  generateConstraintFix : string → string → TableConstraint → string
}.

(** An inspector answers from a catalog snapshot; a failing query aborts the
    whole run and is outside this model. *)
Record ISchemaInspector := {
  listTables : string → option (list string) → list string;
  getTableMetadata : string → string → TableMetadata;
  listFunctions : string → list DatabaseObject;
  listTriggers : string → list DatabaseObject
}.

(** [streamTableData(meta, chunkSize?)]: the batches the generator yields, in
    order, when it is consumed to its end. *)
Record IDataExtractor := {
  streamTableData : TableMetadata → option nat → list (list string)
}.

Definition DQ : string := String (ascii_of_nat 34) EmptyString.

(** [`"${c}"`] *)
Definition quoted (c : string) : string := DQ +:+ c +:+ DQ.

(** ** [PostgresDDLGenerator] *)

Module PostgresDDLGenerator.

Definition generateDatabaseCreate (databaseName : string) : string :=
  "-- Database Creation" +:+ LF +:+ "CREATE DATABASE " +:+ quoted databaseName +:+ ";" +:+ LF +:+ LF.

Definition generateSchemaCreate (schema : string) : string :=
  if String.eqb schema "public" then ""
  else "CREATE SCHEMA IF NOT EXISTS " +:+ quoted schema +:+ ";" +:+ LF +:+ LF.

(** The suffix [(len)] or [(precision, scale)] appended to a type name. *)
Definition typeSuffix (col : TableColumn) : string :=
  if Js.truthy_num (TableColumn.characterMaximumLength col) then
    "(" +:+ Js.show_num (default 0%Z (TableColumn.characterMaximumLength col)) +:+ ")"
  else
    match TableColumn.numericPrecision col, TableColumn.numericScale col with
    | Some p, Some s => "(" +:+ Js.show_num p +:+ ", " +:+ Js.show_num s +:+ ")"
    | _, _ => ""
    end.

Definition formatColumn (col : TableColumn) : string :=
  let parts := [quoted (TableColumn.name col);
                Js.toUpperCase (TableColumn.dataType col) +:+ typeSuffix col] in
  let parts := if negb (TableColumn.isNullable col) then parts ++ ["NOT NULL"] else parts in
  let parts :=
    if Js.truthy_str (TableColumn.columnDefault col)
    then parts ++ ["DEFAULT " +:+ Js.show_str (TableColumn.columnDefault col)]
    else parts in
  Js.join " " parts.

Definition qualified (schema name : string) : string :=
  quoted schema +:+ "." +:+ quoted name.

Definition columnList (cols : list string) : string :=
  Js.join ", " (map quoted cols).

Definition primaryKeyStatement (meta : TableMetadata) (pk : TableConstraint) : string :=
  "ALTER TABLE " +:+ qualified (TableMetadata.schema meta) (TableMetadata.name meta)
    +:+ " ADD CONSTRAINT " +:+ quoted (TableConstraint.name pk)
    +:+ " PRIMARY KEY (" +:+ columnList (TableConstraint.columns pk) +:+ ");" +:+ LF.

Definition generateTableCreate (meta : TableMetadata) : string :=
  let columns := Js.join ("," +:+ LF +:+ "  ") (map formatColumn (TableMetadata.columns meta)) in
  let sql := "CREATE TABLE " +:+ qualified (TableMetadata.schema meta) (TableMetadata.name meta)
               +:+ " (" +:+ LF +:+ "  " +:+ columns +:+ LF +:+ ");" +:+ LF +:+ LF in
  let pks := filter (λ c, TableConstraint.type c = PRIMARY_KEY) (TableMetadata.constraints meta) in
  fold_left (λ sql pk, sql +:+ primaryKeyStatement meta pk) pks sql.

(** [${fk.foreignColumns?.map(c => `"${c}"`).join(', ')}] *)
Definition foreignColumnList (fk : TableConstraint) : string :=
  match TableConstraint.foreignColumns fk with
  | Some cols => columnList cols
  | None => "undefined"
  end.

Definition foreignKeyStatement (meta : TableMetadata) (fk : TableConstraint) : string :=
  "ALTER TABLE " +:+ qualified (TableMetadata.schema meta) (TableMetadata.name meta)
    +:+ " ADD CONSTRAINT " +:+ quoted (TableConstraint.name fk)
    +:+ " FOREIGN KEY (" +:+ columnList (TableConstraint.columns fk) +:+ ") REFERENCES "
    +:+ qualified (TableMetadata.schema meta) (Js.show_str (TableConstraint.foreignTable fk))
    +:+ " (" +:+ foreignColumnList fk +:+ ");" +:+ LF.

Definition uniqueStatement (meta : TableMetadata) (u : TableConstraint) : string :=
  "ALTER TABLE " +:+ qualified (TableMetadata.schema meta) (TableMetadata.name meta)
    +:+ " ADD CONSTRAINT " +:+ quoted (TableConstraint.name u)
    +:+ " UNIQUE (" +:+ columnList (TableConstraint.columns u) +:+ ");" +:+ LF.

Definition generateConstraints (meta : TableMetadata) : string :=
  let sql := "" in
  let fks := filter (λ c, TableConstraint.type c = FOREIGN_KEY) (TableMetadata.constraints meta) in
  let sql := fold_left (λ sql fk, sql +:+ foreignKeyStatement meta fk) fks sql in
  let uniques := filter (λ c, TableConstraint.type c = UNIQUE) (TableMetadata.constraints meta) in
  let sql := fold_left (λ sql u, sql +:+ uniqueStatement meta u) uniques sql in
  if String.eqb sql "" then "" else sql +:+ LF.

Definition generateIndexes (meta : TableMetadata) : string :=
  let sql := fold_left (λ sql idx, sql +:+ TableIndex.definition idx +:+ ";" +:+ LF)
               (TableMetadata.indexes meta) "" in
  if String.eqb sql "" then "" else sql +:+ LF.

Definition createSequenceStatement (meta : TableMetadata) (seq : TableSequence) : string :=
  "CREATE SEQUENCE IF NOT EXISTS "
    +:+ qualified (TableMetadata.schema meta) (TableSequence.name seq) +:+ LF
    +:+ "  START WITH " +:+ TableSequence.startValue seq +:+ LF
    +:+ "  INCREMENT BY " +:+ TableSequence.incrementBy seq +:+ LF
    +:+ "  NO MINVALUE" +:+ LF
    +:+ "  NO MAXVALUE" +:+ LF
    +:+ "  CACHE " +:+ TableSequence.cacheSize seq +:+ ";" +:+ LF +:+ LF.

(** [`SELECT setval('"${schema}"."${name}"', ${value}, true);\n\n`] *)
Definition setvalStatement (schema name value : string) : string :=
  "SELECT setval('" +:+ qualified schema name +:+ "', " +:+ value +:+ ", true);" +:+ LF +:+ LF.

Definition generateSequences (meta : TableMetadata) : string :=
  fold_left
    (λ sql seq,
       let sql := sql +:+ createSequenceStatement meta seq in
       if Js.truthy_str (Some (TableSequence.lastValue seq))
       then sql +:+ setvalStatement (TableMetadata.schema meta) (TableSequence.name seq)
                      (TableSequence.lastValue seq)
       else sql)
    (TableMetadata.sequences meta) "".

Definition typeStr (column : TableColumn) : string :=
  Js.toUpperCase (TableColumn.dataType column) +:+ typeSuffix column.

Definition generateAddColumn (table schema : string) (column : TableColumn) : string :=
  let sql := "ALTER TABLE " +:+ qualified schema table +:+ " ADD COLUMN "
               +:+ quoted (TableColumn.name column) +:+ " " +:+ typeStr column in
  let sql := if negb (TableColumn.isNullable column) then sql +:+ " NOT NULL" else sql in
  let sql := if Js.truthy_str (TableColumn.columnDefault column)
             then sql +:+ " DEFAULT " +:+ Js.show_str (TableColumn.columnDefault column)
             else sql in
  sql +:+ ";".

Definition generateAlterColumnType (table schema : string) (column : TableColumn) : string :=
  "ALTER TABLE " +:+ qualified schema table +:+ " ALTER COLUMN "
    +:+ quoted (TableColumn.name column) +:+ " TYPE " +:+ typeStr column +:+ ";".

Definition generateAlterColumnNullability (table schema : string) (column : TableColumn) : string :=
  "ALTER TABLE " +:+ qualified schema table +:+ " ALTER COLUMN "
    +:+ quoted (TableColumn.name column) +:+ " "
    +:+ (if TableColumn.isNullable column then "DROP NOT NULL" else "SET NOT NULL") +:+ ";".

Definition generateAlterColumnDefault (table schema : string) (column : TableColumn) : string :=
  if Js.truthy_str (TableColumn.columnDefault column)
  then "ALTER TABLE " +:+ qualified schema table +:+ " ALTER COLUMN "
         +:+ quoted (TableColumn.name column) +:+ " SET DEFAULT "
         +:+ Js.show_str (TableColumn.columnDefault column) +:+ ";"
  else "ALTER TABLE " +:+ qualified schema table +:+ " ALTER COLUMN "
         +:+ quoted (TableColumn.name column) +:+ " DROP DEFAULT;".

Definition generateDropTrigger (table schema triggerName : string) : string :=
  "DROP TRIGGER IF EXISTS " +:+ quoted triggerName +:+ " ON " +:+ qualified schema table +:+ ";".

Definition generateConstraintFix (table schema : string) (constraint : TableConstraint) : string :=
  match TableConstraint.type constraint with
  | PRIMARY_KEY =>
      "ALTER TABLE " +:+ qualified schema table +:+ " ADD CONSTRAINT "
        +:+ quoted (TableConstraint.name constraint)
        +:+ " PRIMARY KEY (" +:+ columnList (TableConstraint.columns constraint) +:+ ");"
  | FOREIGN_KEY =>
      "ALTER TABLE " +:+ qualified schema table +:+ " ADD CONSTRAINT "
        +:+ quoted (TableConstraint.name constraint)
        +:+ " FOREIGN KEY (" +:+ columnList (TableConstraint.columns constraint) +:+ ") REFERENCES "
        +:+ qualified schema (Js.show_str (TableConstraint.foreignTable constraint))
        +:+ " (" +:+ foreignColumnList constraint +:+ ");"
  | UNIQUE =>
      "ALTER TABLE " +:+ qualified schema table +:+ " ADD CONSTRAINT "
        +:+ quoted (TableConstraint.name constraint)
        +:+ " UNIQUE (" +:+ columnList (TableConstraint.columns constraint) +:+ ");"
  | CHECK => ""
  end.

Definition generator : IDDLGenerator :=
  Build_IDDLGenerator
    generateDatabaseCreate generateSchemaCreate generateTableCreate
    generateConstraints generateIndexes generateSequences
    generateAddColumn generateAlterColumnType generateAlterColumnNullability
    generateAlterColumnDefault generateDropTrigger generateConstraintFix.

End PostgresDDLGenerator.

(** ** [OracleDDLGenerator] *)

Module OracleDDLGenerator.

Definition generateDatabaseCreate (databaseName : string) : string :=
  "-- Oracle Database Creation (Handled externally or via Tablespaces)" +:+ LF
    +:+ "-- CREATE TABLESPACE " +:+ databaseName +:+ "_DATA ... ;" +:+ LF +:+ LF.

Definition generateSchemaCreate (schema : string) : string :=
  "-- Oracle User/Schema Creation" +:+ LF
    +:+ "-- CREATE USER " +:+ schema +:+ " IDENTIFIED BY password;" +:+ LF
    +:+ "-- GRANT CONNECT, RESOURCE TO " +:+ schema +:+ ";" +:+ LF +:+ LF.

(** Type mapping Postgres -> Oracle. *)
Definition mapType (dataType : string) : string :=
  if Js.includes dataType "VARCHAR" || Js.includes dataType "TEXT" then "VARCHAR2"
  else if Js.includes dataType "INT" || Js.includes dataType "NUMERIC"
          || Js.includes dataType "DECIMAL" then "NUMBER"
  else if Js.includes dataType "TIMESTAMP" then "TIMESTAMP"
  else if Js.includes dataType "BOOLEAN" then "NUMBER(1)"
  else dataType.

Definition formatColumn (col : TableColumn) : string :=
  let dataType := mapType (Js.toUpperCase (TableColumn.dataType col)) in
  let sized :=
    if Js.truthy_num (TableColumn.characterMaximumLength col) && String.eqb dataType "VARCHAR2" then
      dataType +:+ "(" +:+ Js.show_num (default 0%Z (TableColumn.characterMaximumLength col)) +:+ ")"
    else
      match TableColumn.numericPrecision col, TableColumn.numericScale col with
      | Some p, Some s =>
          if String.eqb dataType "NUMBER"
          then dataType +:+ "(" +:+ Js.show_num p +:+ ", " +:+ Js.show_num s +:+ ")"
          else dataType
      | _, _ => dataType
      end in
  let parts := [TableColumn.name col; sized] in
  let parts := if negb (TableColumn.isNullable col) then parts ++ ["NOT NULL"] else parts in
  let parts :=
    if Js.truthy_str (TableColumn.columnDefault col)
    then parts ++ ["DEFAULT " +:+ Js.show_str (TableColumn.columnDefault col)]
    else parts in
  Js.join " " parts.

Definition primaryKeyStatement (table : string) (pk : TableConstraint) : string :=
  "ALTER TABLE " +:+ table +:+ " ADD CONSTRAINT " +:+ TableConstraint.name pk
    +:+ " PRIMARY KEY (" +:+ Js.join ", " (TableConstraint.columns pk) +:+ ");".

Definition foreignColumnList (fk : TableConstraint) : string :=
  match TableConstraint.foreignColumns fk with
  | Some cols => Js.join ", " cols
  | None => "undefined"
  end.

Definition foreignKeyStatement (table : string) (fk : TableConstraint) : string :=
  "ALTER TABLE " +:+ table +:+ " ADD CONSTRAINT " +:+ TableConstraint.name fk
    +:+ " FOREIGN KEY (" +:+ Js.join ", " (TableConstraint.columns fk) +:+ ") REFERENCES "
    +:+ Js.show_str (TableConstraint.foreignTable fk)
    +:+ " (" +:+ foreignColumnList fk +:+ ");".

Definition uniqueStatement (table : string) (u : TableConstraint) : string :=
  "ALTER TABLE " +:+ table +:+ " ADD CONSTRAINT " +:+ TableConstraint.name u
    +:+ " UNIQUE (" +:+ Js.join ", " (TableConstraint.columns u) +:+ ");".

Definition generateTableCreate (meta : TableMetadata) : string :=
  let columns := Js.join ("," +:+ LF +:+ "  ") (map formatColumn (TableMetadata.columns meta)) in
  let sql := "CREATE TABLE " +:+ TableMetadata.name meta
               +:+ " (" +:+ LF +:+ "  " +:+ columns +:+ LF +:+ ");" +:+ LF +:+ LF in
  let pks := filter (λ c, TableConstraint.type c = PRIMARY_KEY) (TableMetadata.constraints meta) in
  fold_left (λ sql pk, sql +:+ primaryKeyStatement (TableMetadata.name meta) pk +:+ LF) pks sql.

Definition generateConstraints (meta : TableMetadata) : string :=
  let sql := "" in
  let fks := filter (λ c, TableConstraint.type c = FOREIGN_KEY) (TableMetadata.constraints meta) in
  let sql := fold_left (λ sql fk, sql +:+ foreignKeyStatement (TableMetadata.name meta) fk +:+ LF) fks sql in
  let uniques := filter (λ c, TableConstraint.type c = UNIQUE) (TableMetadata.constraints meta) in
  let sql := fold_left (λ sql u, sql +:+ uniqueStatement (TableMetadata.name meta) u +:+ LF) uniques sql in
  if String.eqb sql "" then "" else sql +:+ LF.

Definition generateIndexes (meta : TableMetadata) : string :=
  let sql := fold_left (λ sql idx, sql +:+ "-- " +:+ TableIndex.definition idx +:+ ";" +:+ LF)
               (TableMetadata.indexes meta) "" in
  if String.eqb sql "" then "" else sql +:+ LF.

Definition generateSequences (meta : TableMetadata) : string :=
  "-- Oracle Sequences are handled as independent objects." +:+ LF.

Definition generateAddColumn (table schema : string) (column : TableColumn) : string :=
  "ALTER TABLE " +:+ table +:+ " ADD (" +:+ formatColumn column +:+ ");".

Definition generateAlterColumnType (table schema : string) (column : TableColumn) : string :=
  "ALTER TABLE " +:+ table +:+ " MODIFY (" +:+ formatColumn column +:+ ");".

Definition generateAlterColumnNullability (table schema : string) (column : TableColumn) : string :=
  "ALTER TABLE " +:+ table +:+ " MODIFY (" +:+ TableColumn.name column +:+ " "
    +:+ (if TableColumn.isNullable column then "NULL" else "NOT NULL") +:+ ");".

Definition generateAlterColumnDefault (table schema : string) (column : TableColumn) : string :=
  "ALTER TABLE " +:+ table +:+ " MODIFY (" +:+ TableColumn.name column +:+ " DEFAULT "
    +:+ Js.show_str (Js.or_str (TableColumn.columnDefault column) (Some "NULL")) +:+ ");".

Definition generateDropTrigger (table schema triggerName : string) : string :=
  "DROP TRIGGER " +:+ triggerName +:+ ";".

Definition generateConstraintFix (table schema : string) (constraint : TableConstraint) : string :=
  match TableConstraint.type constraint with
  | PRIMARY_KEY => primaryKeyStatement table constraint
  | FOREIGN_KEY => foreignKeyStatement table constraint
  | UNIQUE => uniqueStatement table constraint
  | CHECK => ""
  end.

Definition generator : IDDLGenerator :=
  Build_IDDLGenerator
    generateDatabaseCreate generateSchemaCreate generateTableCreate
    generateConstraints generateIndexes generateSequences
    generateAddColumn generateAlterColumnType generateAlterColumnNullability
    generateAlterColumnDefault generateDropTrigger generateConstraintFix.

End OracleDDLGenerator.

(** ** [EngineFactory] *)

Module EngineFactory.

Definition createGenerator (type : DbType) : IDDLGenerator :=
  match type with
  | postgres => PostgresDDLGenerator.generator
  | oracle => OracleDDLGenerator.generator
  end.

End EngineFactory.

(** ** [PostgresInspector] *)

Module PostgresInspector.

(** One row of the flattened (constraint, column) catalog join. *)
Record ConstraintRow := {
  name : string;
  type : ConstraintType;
  column_name : string;
  foreign_table : option string;
  foreign_column : option string
}.

(** One row of [pg_sequences]. *)
Record SequenceDetails := {
  sequencename : string;
  data_type : string;
  start_value : string;
  min_value : string;
  max_value : string;
  increment_by : string;
  cycle : bool;
  cache_size : string;
  last_value : option string
}.

(** The catalog snapshot behind a [PostgresConnection]: what each of the
    inspector's queries returns. *)
Record Catalog := {
  tables : string → list string;
  columns : string → string → list TableColumn;
  constraint_rows : string → string → list ConstraintRow;
  indexes : string → string → list TableIndex;
  owned_sequences : string → string → list (string * string);
  pg_sequences : string → string → list SequenceDetails;
  functions : string → list DatabaseObject;
  triggers : string → list DatabaseObject
}.

Definition listTables (db : Catalog) (schema : string) (targetTables : option (list string))
  : list string :=
  match targetTables with
  | Some (t :: ts) => filter (λ n, n ∈ t :: ts) (tables db schema)
  | _ => tables db schema
  end.

(** The insertion-ordered [Map<string, TableConstraint>]. *)
Definition ConstraintsMap := list (string * TableConstraint).

Definition has (m : ConstraintsMap) (k : string) : bool :=
  bool_decide (k ∈ m.*1).

(** [f] applied in place to the entry stored under [k]. *)
Fixpoint update (f : TableConstraint → TableConstraint) (k : string) (m : ConstraintsMap)
  : ConstraintsMap :=
  match m with
  | [] => []
  | (k', c) :: r => if String.eqb k' k then (k', f c) :: r else (k', c) :: update f k r
  end.

Definition fresh (row : ConstraintRow) : TableConstraint :=
  TableConstraint.mk (name row) (type row) []
    (Js.or_str (foreign_table row) None) (Some []) None.

(** [if (!c.columns.includes(x)) c.columns.push(x)] *)
Definition pushNew (x : string) (l : list string) : list string :=
  if bool_decide (x ∈ l) then l else l ++ [x].

Definition addColumns (row : ConstraintRow) (c : TableConstraint) : TableConstraint :=
  let cols := pushNew (column_name row) (TableConstraint.columns c) in
  let fcols :=
    match foreign_column row, TableConstraint.foreignColumns c with
    | Some fc, Some l => if Js.truthy_str (Some fc) then Some (pushNew fc l) else Some l
    | _, o => o
    end in
  TableConstraint.mk (TableConstraint.name c) (TableConstraint.type c) cols
    (TableConstraint.foreignTable c) fcols (TableConstraint.definition c).

Definition step (m : ConstraintsMap) (row : ConstraintRow) : ConstraintsMap :=
  let m := if has m (name row) then m else m ++ [(name row, fresh row)] in
  update (addColumns row) (name row) m.

Definition aggregate (rows : list ConstraintRow) : list TableConstraint :=
  (fold_left step rows []).*2.

Definition getConstraints (db : Catalog) (schema tableName : string) : list TableConstraint :=
  aggregate (constraint_rows db schema tableName).

Definition toSequence (sd : SequenceDetails) : TableSequence :=
  TableSequence.mk (sequencename sd) (data_type sd) (start_value sd) (min_value sd)
    (max_value sd) (increment_by sd) (cycle sd) (cache_size sd)
    (Js.show_str (Js.or_str (last_value sd) (Some (start_value sd)))).

Definition getSequences (db : Catalog) (schema tableName : string) : list TableSequence :=
  fold_left
    (λ result row,
       match pg_sequences db row.2 row.1 with
       | sd :: _ => result ++ [toSequence sd]
       | [] => result
       end)
    (owned_sequences db schema tableName) [].

Definition getTableMetadata (db : Catalog) (schema tableName : string) : TableMetadata :=
  TableMetadata.mk tableName schema
    (columns db schema tableName)
    (getConstraints db schema tableName)
    (indexes db schema tableName)
    (getSequences db schema tableName).

Definition inspector (db : Catalog) : ISchemaInspector :=
  Build_ISchemaInspector (listTables db) (getTableMetadata db) (functions db) (triggers db).

End PostgresInspector.

(** ** Row values handed over by the driver *)

(** The values a result row can hold.  Numbers are the integer-valued ones
    below 10^21 in magnitude (their [toString()] is the plain decimal
    numeral; larger numbers print in exponent notation and fractions are not
    represented here); a buffer holds ASCII bytes (which its [toString()]
    decodes to themselves; other bytes would go through UTF-8 decoding); any
    other object (a [Date], an interval, a plain object) is carried with the
    two renderings the extractor asks of it, [toString()] and
    [JSON.stringify]. *)
Inductive JsValue :=
  | JsNull
  | JsUndefined
  | JsBool (b : bool)
  | JsNumber (n : Z)
  | JsString (s : string)
  | JsBuffer (bytes : list ascii)
  | JsArray (elements : list JsValue)
  | JsObject (text : string) (json : string).

Module JsValue.

Definition isNullish (v : JsValue) : bool :=
  match v with JsNull | JsUndefined => true | _ => false end.

(** Truthiness, as tested by [val ? 'TRUE' : 'FALSE']. *)
Definition truthy (v : JsValue) : bool :=
  match v with
  | JsNull | JsUndefined => false
  | JsBool b => b
  | JsNumber n => negb (Z.eqb n 0)
  | JsString s => negb (String.eqb s "")
  | JsBuffer _ | JsArray _ | JsObject _ _ => true
  end.

Definition hexDigit (n : nat) : ascii :=
  if n <? 10 then ascii_of_nat (48 + n) else ascii_of_nat (87 + n).

(** [buf.toString('hex')] *)
Fixpoint hex (bytes : list ascii) : string :=
  match bytes with
  | [] => ""
  | b :: r =>
      String (hexDigit (nat_of_ascii b / 16)) (String (hexDigit (nat_of_ascii b mod 16)) (hex r))
  end.

(** [val.toString()].  An array joins its elements with a comma, [null] and
    [undefined] elements giving the empty text; a buffer decodes its bytes. *)
Fixpoint toString (v : JsValue) : string :=
  match v with
  | JsNull => "null"
  | JsUndefined => "undefined"
  | JsBool b => if b then "true" else "false"
  | JsNumber n => Js.show_num n
  | JsString s => s
  | JsBuffer bytes => String.string_of_list_ascii bytes
  | JsArray l =>
      Js.join "," (List.map (λ e, if isNullish e then "" else toString e) l)
  | JsObject text _ => text
  end.

Definition BACKSLASH : string := String (ascii_of_nat 92) EmptyString.

(** The escape of one character inside a JSON string literal. *)
Definition jsonChar (c : ascii) : string :=
  let n := nat_of_ascii c in
  if n =? 34 then BACKSLASH +:+ DQ
  else if n =? 92 then BACKSLASH +:+ BACKSLASH
  else if n =? 8 then BACKSLASH +:+ "b"
  else if n =? 12 then BACKSLASH +:+ "f"
  else if n =? 10 then BACKSLASH +:+ "n"
  else if n =? 13 then BACKSLASH +:+ "r"
  else if n =? 9 then BACKSLASH +:+ "t"
  else if n <? 32 then BACKSLASH +:+ "u00" +:+ hex [c]
  else String c EmptyString.

Fixpoint jsonEscape (s : string) : string :=
  match s with
  | EmptyString => EmptyString
  | String c r => jsonChar c +:+ jsonEscape r
  end.

(** [JSON.stringify(val)] *)
Fixpoint stringify (v : JsValue) : string :=
  match v with
  | JsNull | JsUndefined => "null"
  | JsBool b => if b then "true" else "false"
  | JsNumber n => Js.show_num n
  | JsString s => DQ +:+ jsonEscape s +:+ DQ
  | JsBuffer bytes =>
      "{" +:+ DQ +:+ "type" +:+ DQ +:+ ":" +:+ DQ +:+ "Buffer" +:+ DQ +:+ ","
        +:+ DQ +:+ "data" +:+ DQ +:+ ":["
        +:+ Js.join "," (List.map (λ b, Js.show_num (Z.of_nat (nat_of_ascii b))) bytes) +:+ "]}"
  | JsArray l => "[" +:+ Js.join "," (List.map stringify l) +:+ "]"
  | JsObject _ json => json
  end.

End JsValue.

(** A result row: [row[c.name]] is [undefined] for an absent key.  Column
    names are taken not to be those of the members every object inherits
    (such as [constructor]), which a property read would find instead. *)
Definition Row := gmap string JsValue.

Definition Row_get (row : Row) (key : string) : JsValue := default JsUndefined (row !! key).

(** ** [PostgresExtractor] *)

Module PostgresExtractor.

(** [t.includes('int') || t.includes('decimal') || ...] *)
Definition numericLike (t : string) : bool :=
  Js.includes t "int" || Js.includes t "decimal" || Js.includes t "numeric"
  || Js.includes t "real" || Js.includes t "double".

(** [`'${val.toString().replace(/'/g, "''")}'`] *)
Definition quotedText (val : JsValue) : string :=
  "'" +:+ Js.doubleQuotes (JsValue.toString val) +:+ "'".

Fixpoint formatValue (val : JsValue) (type : string) : string :=
  if JsValue.isNullish val then "NULL"
  else
    let t := Js.toLowerCase type in
    if String.eqb t "boolean" then (if JsValue.truthy val then "TRUE" else "FALSE")
    else if numericLike t then JsValue.toString val
    else if Js.includes t "json" then
      "'" +:+ Js.doubleQuotes (JsValue.stringify val) +:+ "'::" +:+ t
    else if String.eqb t "bytea" then
      match val with
      | JsBuffer bytes => "'\x" +:+ JsValue.hex bytes +:+ "'"
      | _ => quotedText val
      end
    else
      match val with
      | JsArray l => "ARRAY[" +:+ Js.join "," (List.map (λ v, formatValue v "text") l) +:+ "]"
      | _ => quotedText val
      end.

Definition formatInsert (meta : TableMetadata) (row : Row) : string :=
  let columns := Js.join ", " (map (λ c, quoted (TableColumn.name c)) (TableMetadata.columns meta)) in
  let values :=
    Js.join ", "
      (map (λ c, formatValue (Row_get row (TableColumn.name c)) (TableColumn.dataType c))
         (TableMetadata.columns meta)) in
  "INSERT INTO " +:+ TableMetadata.schema meta +:+ "." +:+ TableMetadata.name meta
    +:+ " (" +:+ columns +:+ ") VALUES (" +:+ values +:+ ");".

(** The server-side cursor: the rows not handed out yet. *)
Definition Cursor := list Row.

(** [cursor.read(n)]: up to [n] further rows, and the advanced cursor. *)
Definition read (n : nat) (cursor : Cursor) : list Row * Cursor :=
  (take n cursor, drop n cursor).

(** What one consumption of the generator does, in order. *)
Inductive Event :=
  | Fetched (rows : nat)
  | Yielded (batch : list string)
  | Closed.

Definition inspect {A} (a : A) : {b | a = b} := exist _ a eq_refl.

(** The [do { ... } while (rows.length > 0)] loop. *)
Equations? loop (meta : TableMetadata) (chunkSize : nat) (cursor : Cursor) : list Event
  by wf (length cursor) lt :=
  loop meta chunkSize cursor with inspect (read chunkSize cursor) := {
    | exist _ ([], _) _ := [Fetched 0]
    | exist _ (r :: rows, cursor') _ :=
        Fetched (length (r :: rows))
          :: Yielded (map (formatInsert meta) (r :: rows))
          :: loop meta chunkSize cursor' }.
Proof.
  unfold read in *. simplify_eq.
  rewrite length_drop.
  destruct chunkSize; [done|]. destruct cursor; [done|]. simpl. lia.
Qed.

(** The table's rows, as [SELECT * FROM "schema"."name"] returns them. *)
Definition PostgresConnection := string → string → list Row.

(** The run of [streamTableData] consumed to its end: the loop, then the
    [finally] block releasing the cursor. *)
Definition streamEvents (db : PostgresConnection) (meta : TableMetadata) (chunkSize : option nat)
  : list Event :=
  let chunkSize := default 1000 chunkSize in
  let cursor := db (TableMetadata.schema meta) (TableMetadata.name meta) in
  loop meta chunkSize cursor ++ [Closed].

Definition yielded (events : list Event) : list (list string) :=
  omap (λ e, match e with Yielded b => Some b | _ => None end) events.

Definition streamTableData (db : PostgresConnection) (meta : TableMetadata) (chunkSize : option nat)
  : list (list string) :=
  yielded (streamEvents db meta chunkSize).

Definition extractor (db : PostgresConnection) : IDataExtractor :=
  Build_IDataExtractor (streamTableData db).

End PostgresExtractor.

(** ** [SQLWriter] *)

(** The step of a backup run that issued a write.  The label is bookkeeping
    of the model only: the file receives the contents. *)
Inductive Phase :=
  | Header | DatabaseDDL | SequenceDDL | TableDDL | DataRows | IndexDDL | ConstraintDDL | Footer.

Definition Phase_rank (p : Phase) : nat :=
  match p with
  | Header => 0 | DatabaseDDL => 1 | SequenceDDL => 2 | TableDDL => 3
  | DataRows => 4 | IndexDDL => 5 | ConstraintDDL => 6 | Footer => 7
  end.

Record Write := { phase : Phase; content : string }.

Module SQLWriter.

(** The chunks the stream has accepted so far, oldest first. *)
Definition t := list Write.

Definition write (w : t) (p : Phase) (content : string) : t :=
  w ++ [Build_Write p content].

(** [open()]; [now] is the formatted current time. *)
Definition open (now : string) : t :=
  let w := write [] Header ("-- PERSISTOR PostgreSQL Backup" +:+ LF) in
  let w := write w Header ("-- Date: " +:+ now +:+ LF) in
  let w := write w Header ("-- --------------------------------------------------" +:+ LF +:+ LF) in
  write w Header ("SET session_replication_role = replica;" +:+ LF +:+ LF).

Definition close (w : t) : t :=
  let w := write w Footer (LF +:+ "SET session_replication_role = DEFAULT;" +:+ LF) in
  write w Footer ("-- Backup Completed." +:+ LF).

(** The text of the file after the writes [w]. *)
Definition fileContent (w : t) : string :=
  fold_right (λ x acc, content x +:+ acc) "" w.

(** Offset in the file at which the [i]-th write starts. *)
Definition offset (w : t) (i : nat) : nat :=
  String.length (fileContent (take i w)).

End SQLWriter.

(** ** [Orchestrator] *)

Record DatabaseConfig := {
  host : string;
  port : Z;
  database : string;
  user : string;
  password : option string;
  schema : option string;
  tables : option (list string);
  outputDir : string;
  dbType : option DbType
}.

Module Orchestrator.

Section Run.
Variable ddlGen : IDDLGenerator.
Variable inspector : ISchemaInspector.
Variable extractor : IDataExtractor.
Variable config : DatabaseConfig.
Variable now : string.

Definition truthy (s : string) : bool := negb (String.eqb s "").

Definition run_with : SQLWriter.t :=
  let w := SQLWriter.open now in
  let schema := Js.show_str (Js.or_str (schema config) (Some "public")) in
  (* 0. Database and Schema *)
  let w := SQLWriter.write w DatabaseDDL (generateDatabaseCreate ddlGen (database config)) in
  let w := SQLWriter.write w DatabaseDDL (generateSchemaCreate ddlGen schema) in
  let tableNames := listTables inspector schema (tables config) in
  (* 1. Inspect all tables *)
  let tablesMetadata :=
    fold_left (λ acc name, acc ++ [getTableMetadata inspector schema name]) tableNames [] in
  (* 2. Generate Sequences *)
  let w :=
    fold_left
      (λ w meta,
         let seqSql := generateSequences ddlGen meta in
         if truthy seqSql then SQLWriter.write w SequenceDDL seqSql else w)
      tablesMetadata w in
  (* 3. Generate Table Structure (CREATE TABLE) *)
  let w :=
    fold_left (λ w meta, SQLWriter.write w TableDDL (generateTableCreate ddlGen meta))
      tablesMetadata w in
  (* 4. Extract and Write Data (INSERTs) *)
  let w :=
    fold_left
      (λ w meta,
         let w :=
           fold_left (λ w chunk, SQLWriter.write w DataRows (Js.join LF chunk +:+ LF))
             (streamTableData extractor meta None) w in
         SQLWriter.write w DataRows LF)
      tablesMetadata w in
  (* 5. Generate Indexes *)
  let w :=
    fold_left
      (λ w meta,
         let indexSql := generateIndexes ddlGen meta in
         if truthy indexSql then SQLWriter.write w IndexDDL indexSql else w)
      tablesMetadata w in
  (* 6. Generate Foreign Keys and Constraints *)
  let w :=
    fold_left
      (λ w meta,
         let constraintSql := generateConstraints ddlGen meta in
         if truthy constraintSql then SQLWriter.write w ConstraintDDL constraintSql else w)
      tablesMetadata w in
  SQLWriter.close w.
End Run.

(** [new Orchestrator(config).run()]: the generator comes from the factory,
    the inspector and the extractor are the ones the factory builds over the
    live connection. *)
Definition run (inspector : ISchemaInspector) (extractor : IDataExtractor)
    (config : DatabaseConfig) (now : string) : SQLWriter.t :=
  let type := default postgres (dbType config) in
  run_with (EngineFactory.createGenerator type) inspector extractor config now.

End Orchestrator.

(** ** [SchemaComparator] *)

Module SchemaComparator.

(** [new Map(entries)]: a later entry replaces an earlier one with its key. *)
Definition newMap {V} (entries : list (string * V)) : gmap string V :=
  fold_left (λ m kv, <[kv.1 := kv.2]> m) entries ∅.

(** [new Set(names)] *)
Definition newSet (names : list string) : gset string := list_to_set names.

Section Compare.
Variable generator : IDDLGenerator.
Variable sourceInspector targetInspector : ISchemaInspector.

(** The body of the loop over [source.columns]. *)
Definition compareColumn (source : TableMetadata) (targetCols : gmap string TableColumn)
    (diffs : list SchemaDiff) (sCol : TableColumn) : list SchemaDiff :=
  match targetCols !! TableColumn.name sCol with
  | None =>
      diffs ++ [SchemaDiff.mk MISSING_COLUMN (Some (TableMetadata.name source))
        (Some (TableColumn.name sCol)) None None
        (Some ("Column " +:+ quoted (TableColumn.name sCol) +:+ " is missing in target table."))
        (Some (generateAddColumn generator (TableMetadata.name source)
                 (TableMetadata.schema source) sCol))]
  | Some tCol =>
      (* Compare Data Type (using udtName for better accuracy) *)
      let diffs :=
        if bool_decide (TableColumn.udtName sCol ≠ TableColumn.udtName tCol) then
          diffs ++ [SchemaDiff.mk TYPE_MISMATCH (Some (TableMetadata.name source))
            (Some (TableColumn.name sCol))
            (Some (TableColumn.dataType sCol)) (Some (TableColumn.dataType tCol))
            (Some ("Column " +:+ quoted (TableColumn.name sCol) +:+ " type mismatch. Source: "
               +:+ TableColumn.dataType sCol +:+ " (" +:+ TableColumn.udtName sCol
               +:+ "), Target: " +:+ TableColumn.dataType tCol
               +:+ " (" +:+ TableColumn.udtName tCol +:+ ")"))
            (Some (generateAlterColumnType generator (TableMetadata.name source)
                     (TableMetadata.schema source) sCol))]
        else diffs in
      (* Compare Nullability *)
      let diffs :=
        if bool_decide (TableColumn.isNullable sCol ≠ TableColumn.isNullable tCol) then
          diffs ++ [SchemaDiff.mk NULLABILITY_MISMATCH (Some (TableMetadata.name source))
            (Some (TableColumn.name sCol))
            (Some (if TableColumn.isNullable sCol then "NULL" else "NOT NULL"))
            (Some (if TableColumn.isNullable tCol then "NULL" else "NOT NULL"))
            None
            (Some (generateAlterColumnNullability generator (TableMetadata.name source)
                     (TableMetadata.schema source) sCol))]
        else diffs in
      (* Compare Defaults (simple string compare) *)
      if bool_decide (TableColumn.columnDefault sCol ≠ TableColumn.columnDefault tCol) then
        diffs ++ [SchemaDiff.mk DEFAULT_MISMATCH (Some (TableMetadata.name source))
          (Some (TableColumn.name sCol))
          (Js.or_str (TableColumn.columnDefault sCol) (Some "NULL"))
          (Js.or_str (TableColumn.columnDefault tCol) (Some "NULL"))
          None
          (Some (generateAlterColumnDefault generator (TableMetadata.name source)
                   (TableMetadata.schema source) sCol))]
      else diffs
  end.

Definition targetColumns (target : TableMetadata) : gmap string TableColumn :=
  newMap (map (λ c, (TableColumn.name c, c)) (TableMetadata.columns target)).

Definition compareColumns (source target : TableMetadata) (diffs : list SchemaDiff)
  : list SchemaDiff :=
  let targetCols := targetColumns target in
  fold_left (compareColumn source targetCols) (TableMetadata.columns source) diffs.

(** The body of the loop over [source.constraints]. *)
Definition compareConstraint (source : TableMetadata) (targetConstraints : gset string)
    (diffs : list SchemaDiff) (sConstraint : TableConstraint) : list SchemaDiff :=
  if bool_decide (TableConstraint.name sConstraint ∉ targetConstraints) then
    diffs ++ [SchemaDiff.mk MISSING_CONSTRAINT (Some (TableMetadata.name source))
      (Some (TableConstraint.name sConstraint)) None None
      (Some ("Constraint " +:+ quoted (TableConstraint.name sConstraint) +:+ " ("
         +:+ ConstraintType_text (TableConstraint.type sConstraint)
         +:+ ") is missing in target."))
      (Some (generateConstraintFix generator (TableMetadata.name source)
               (TableMetadata.schema source) sConstraint))]
  else diffs.

Definition targetConstraintNames (target : TableMetadata) : gset string :=
  newSet (map TableConstraint.name (TableMetadata.constraints target)).

Definition compareConstraints (source target : TableMetadata) (diffs : list SchemaDiff)
  : list SchemaDiff :=
  let targetConstraints := targetConstraintNames target in
  fold_left (compareConstraint source targetConstraints) (TableMetadata.constraints source) diffs.

(** The body of the loop over [source.indexes]. *)
Definition compareIndex (source : TableMetadata) (targetIndexes : gset string)
    (diffs : list SchemaDiff) (sIndex : TableIndex) : list SchemaDiff :=
  if bool_decide (TableIndex.name sIndex ∉ targetIndexes) then
    diffs ++ [SchemaDiff.mk MISSING_INDEX (Some (TableMetadata.name source))
      (Some (TableIndex.name sIndex)) None None
      (Some ("Index " +:+ quoted (TableIndex.name sIndex) +:+ " is missing in target."))
      (Some (TableIndex.definition sIndex +:+ ";"))]
  else diffs.

Definition compareIndexes (source target : TableMetadata) (diffs : list SchemaDiff)
  : list SchemaDiff :=
  let targetIndexes := newSet (map TableIndex.name (TableMetadata.indexes target)) in
  fold_left (compareIndex source targetIndexes) (TableMetadata.indexes source) diffs.

(** The body of the loop over the source functions. *)
Definition compareFunction (targetFuncMap : gmap string DatabaseObject)
    (diffs : list SchemaDiff) (sFunc : DatabaseObject) : list SchemaDiff :=
  match targetFuncMap !! DatabaseObject.name sFunc with
  | None =>
      diffs ++ [SchemaDiff.mk MISSING_FUNCTION (Some "-")
        (Some (DatabaseObject.name sFunc)) None None
        (Some ("Function " +:+ quoted (DatabaseObject.name sFunc) +:+ " is missing in target."))
        (Some (DatabaseObject.definition sFunc +:+ ";"))]
  | Some tFunc =>
      if bool_decide (DatabaseObject.definition sFunc ≠ DatabaseObject.definition tFunc) then
        diffs ++ [SchemaDiff.mk FUNCTION_MISMATCH (Some "-")
          (Some (DatabaseObject.name sFunc)) None None
          (Some ("Function " +:+ quoted (DatabaseObject.name sFunc) +:+ " definition mismatch."))
          (Some (DatabaseObject.definition sFunc +:+ ";"))]
      else diffs
  end.

Definition compareFunctions (sourceSchema targetSchema : string) (diffs : list SchemaDiff)
  : list SchemaDiff :=
  let sourceFunctions := listFunctions sourceInspector sourceSchema in
  let targetFunctions := listFunctions targetInspector targetSchema in
  let targetFuncMap := newMap (map (λ f, (DatabaseObject.name f, f)) targetFunctions) in
  fold_left (compareFunction targetFuncMap) sourceFunctions diffs.

(** [`${t.tableName}.${t.name}`] *)
Definition triggerKey (t : DatabaseObject) : string :=
  Js.show_str (DatabaseObject.tableName t) +:+ "." +:+ DatabaseObject.name t.

(** The body of the loop over the source triggers. *)
Definition compareTrigger (targetTrigMap : gmap string DatabaseObject)
    (diffs : list SchemaDiff) (sTrig : DatabaseObject) : list SchemaDiff :=
  match targetTrigMap !! triggerKey sTrig with
  | None =>
      diffs ++ [SchemaDiff.mk MISSING_TRIGGER (DatabaseObject.tableName sTrig)
        (Some (DatabaseObject.name sTrig)) None None
        (Some ("Trigger " +:+ quoted (DatabaseObject.name sTrig) +:+ " on table "
           +:+ quoted (Js.show_str (DatabaseObject.tableName sTrig))
           +:+ " is missing in target."))
        (Some (DatabaseObject.definition sTrig +:+ ";"))]
  | Some tTrig =>
      if bool_decide (DatabaseObject.definition sTrig ≠ DatabaseObject.definition tTrig) then
        let dropTrigger :=
          generateDropTrigger generator (Js.show_str (DatabaseObject.tableName sTrig))
            (DatabaseObject.schema sTrig) (DatabaseObject.name sTrig) in
        diffs ++ [SchemaDiff.mk TRIGGER_MISMATCH (DatabaseObject.tableName sTrig)
          (Some (DatabaseObject.name sTrig)) None None
          (Some ("Trigger " +:+ quoted (DatabaseObject.name sTrig) +:+ " on table "
             +:+ quoted (Js.show_str (DatabaseObject.tableName sTrig))
             +:+ " definition mismatch."))
          (Some (dropTrigger +:+ LF +:+ DatabaseObject.definition sTrig +:+ ";"))]
      else diffs
  end.

Definition compareTriggers (sourceSchema targetSchema : string) (diffs : list SchemaDiff)
  : list SchemaDiff :=
  let sourceTriggers := listTriggers sourceInspector sourceSchema in
  let targetTriggers := listTriggers targetInspector targetSchema in
  let targetTrigMap := newMap (map (λ t, (triggerKey t, t)) targetTriggers) in
  fold_left (compareTrigger targetTrigMap) sourceTriggers diffs.

(** The body of the loop over the source tables. *)
Definition compareTable (sourceSchema targetSchema : string) (targetTables : list string)
    (diffs : list SchemaDiff) (tableName : string) : list SchemaDiff :=
  if bool_decide (tableName ∉ targetTables) then
    let sourceMeta := getTableMetadata sourceInspector sourceSchema tableName in
    diffs ++ [SchemaDiff.mk MISSING_TABLE (Some tableName) None None None
      (Some ("Table " +:+ quoted tableName +:+ " exists in source but is missing in target."))
      (Some (generateTableCreate generator sourceMeta))]
  else
    (* 2. If table exists, compare structure *)
    let sourceMeta := getTableMetadata sourceInspector sourceSchema tableName in
    let targetMeta := getTableMetadata targetInspector targetSchema tableName in
    let diffs := compareColumns sourceMeta targetMeta diffs in
    let diffs := compareConstraints sourceMeta targetMeta diffs in
    compareIndexes sourceMeta targetMeta diffs.

Definition compare (sourceSchema targetSchema : string) : ComparisonResult :=
  let diffs := [] in
  let sourceTables := listTables sourceInspector sourceSchema None in
  let targetTables := listTables targetInspector targetSchema None in
  (* 1. Check for missing tables in target *)
  let diffs := fold_left (compareTable sourceSchema targetSchema targetTables) sourceTables diffs in
  (* 3. Compare Functions *)
  let diffs := compareFunctions sourceSchema targetSchema diffs in
  (* 4. Compare Triggers *)
  let diffs := compareTriggers sourceSchema targetSchema diffs in
  ComparisonResult.mk sourceSchema targetSchema diffs.
End Compare.

End SchemaComparator.

(** * Further sources: the exporter, the command line, the earlier comparator *)

(** ** More of the JavaScript runtime *)

Module JsText.

(** [s.replace(a, b)] with one-character strings: the first occurrence only. *)
Fixpoint replaceFirst (a b : ascii) (s : string) : string :=
  match s with
  | EmptyString => EmptyString
  | String c r => if Ascii.eqb c a then String b r else String c (replaceFirst a b r)
  end.

(** [s.split(sep)] with a one-character separator. *)
Fixpoint split (sep : ascii) (s : string) : list string :=
  match s with
  | EmptyString => [EmptyString]
  | String c r =>
      if Ascii.eqb c sep then EmptyString :: split sep r
      else match split sep r with
           | piece :: pieces => String c piece :: pieces
           | [] => [String c EmptyString]
           end
  end.

End JsText.

(** ** [SchemaExporter] and the table printed by the command line *)

Definition DiffType_text (k : DiffType) : string :=
  match k with
  | MISSING_TABLE => "MISSING_TABLE"
  | MISSING_COLUMN => "MISSING_COLUMN"
  | TYPE_MISMATCH => "TYPE_MISMATCH"
  | NULLABILITY_MISMATCH => "NULLABILITY_MISMATCH"
  | DEFAULT_MISMATCH => "DEFAULT_MISMATCH"
  | MISSING_CONSTRAINT => "MISSING_CONSTRAINT"
  | MISSING_INDEX => "MISSING_INDEX"
  | MISSING_FUNCTION => "MISSING_FUNCTION"
  | MISSING_TRIGGER => "MISSING_TRIGGER"
  | FUNCTION_MISMATCH => "FUNCTION_MISMATCH"
  | TRIGGER_MISMATCH => "TRIGGER_MISMATCH"
  end.

Module SchemaExporter.

(** The object handed to [sheet.addRow]. *)
Module SheetRow.
Record t := mk {
  table : option string;
  type : string;
  column : string;
  expected : string;
  actual : string
}.
End SheetRow.

Definition toRow (diff : SchemaDiff) : SheetRow.t :=
  SheetRow.mk
    (SchemaDiff.table diff)
    (JsText.replaceFirst "_" " " (DiffType_text (SchemaDiff.type diff)))
    (Js.show_str (Js.or_str (SchemaDiff.column diff) (Some "-")))
    (Js.show_str (Js.or_str (SchemaDiff.expected diff) (Some "-")))
    (Js.show_str (Js.or_str (SchemaDiff.actual diff) (Some "-"))).

(** The data rows [exportToExcel] adds under the header, in order. *)
Definition exportToExcel (result : ComparisonResult) : list SheetRow.t :=
  fold_left (λ sheet diff, sheet ++ [toRow diff]) (ComparisonResult.diffs result) [].

(** The data rows [exportToCSV] adds under the header, in order. *)
Definition exportToCSV (result : ComparisonResult) : list SheetRow.t :=
  fold_left (λ sheet diff, sheet ++ [toRow diff]) (ComparisonResult.diffs result) [].

End SchemaExporter.

Module Cli.

(** [z.string().optional().transform(t => t ? t.split(',') : undefined)] *)
Definition parseTables (t : option string) : option (list string) :=
  if Js.truthy_str t then Some (JsText.split "," (default "" t)) else None.

End Cli.

(** ** The comparator and the generator before the engines were split off:
    [src/generator/generator.ts], and [src/core/comparator.ts] at the revision
    that compares functions and triggers and writes every fix inline *)

Module DDLGenerator.

Definition formatColumn (col : TableColumn) : string :=
  let parts := [quoted (TableColumn.name col); Js.toUpperCase (TableColumn.dataType col)] in
  let parts :=
    if Js.truthy_num (TableColumn.characterMaximumLength col) then
      [quoted (TableColumn.name col);
       Js.toUpperCase (TableColumn.dataType col)
         +:+ "(" +:+ Js.show_num (default 0%Z (TableColumn.characterMaximumLength col)) +:+ ")"]
    else
      match TableColumn.numericPrecision col, TableColumn.numericScale col with
      | Some p, Some s =>
          [quoted (TableColumn.name col);
           Js.toUpperCase (TableColumn.dataType col)
             +:+ "(" +:+ Js.show_num p +:+ ", " +:+ Js.show_num s +:+ ")"]
      | _, _ => parts
      end in
  let parts := if negb (TableColumn.isNullable col) then parts ++ ["NOT NULL"] else parts in
  let parts :=
    if Js.truthy_str (TableColumn.columnDefault col)
    then parts ++ ["DEFAULT " +:+ Js.show_str (TableColumn.columnDefault col)]
    else parts in
  Js.join " " parts.

Definition generateTableCreate (meta : TableMetadata) : string :=
  let columns := Js.join ("," +:+ LF +:+ "  ") (map formatColumn (TableMetadata.columns meta)) in
  let sql := "CREATE TABLE " +:+ quoted (TableMetadata.schema meta) +:+ "."
               +:+ quoted (TableMetadata.name meta)
               +:+ " (" +:+ LF +:+ "  " +:+ columns +:+ LF +:+ ");" +:+ LF +:+ LF in
  let pks := filter (λ c, TableConstraint.type c = PRIMARY_KEY) (TableMetadata.constraints meta) in
  fold_left
    (λ sql pk,
       sql +:+ "ALTER TABLE " +:+ quoted (TableMetadata.schema meta) +:+ "."
         +:+ quoted (TableMetadata.name meta) +:+ " ADD CONSTRAINT "
         +:+ quoted (TableConstraint.name pk) +:+ " PRIMARY KEY ("
         +:+ Js.join ", " (map quoted (TableConstraint.columns pk)) +:+ ");" +:+ LF)
    pks sql.

End DDLGenerator.

Module LegacyComparator.

Section Compare.
Variable sourceInspector targetInspector : ISchemaInspector.

(** [`ALTER TABLE "${source.schema}"."${source.name}"`] *)
Definition alterTable (source : TableMetadata) : string :=
  "ALTER TABLE " +:+ quoted (TableMetadata.schema source) +:+ "."
    +:+ quoted (TableMetadata.name source).

(** The type followed by [(len)] or [(precision, scale)], appended to [text]. *)
Definition withTypeSuffix (text : string) (sCol : TableColumn) : string :=
  if Js.truthy_num (TableColumn.characterMaximumLength sCol) then
    text +:+ "(" +:+ Js.show_num (default 0%Z (TableColumn.characterMaximumLength sCol)) +:+ ")"
  else
    match TableColumn.numericPrecision sCol, TableColumn.numericScale sCol with
    | Some p, Some s => text +:+ "(" +:+ Js.show_num p +:+ ", " +:+ Js.show_num s +:+ ")"
    | _, _ => text
    end.

Definition compareColumn (source : TableMetadata) (targetCols : gmap string TableColumn)
    (diffs : list SchemaDiff) (sCol : TableColumn) : list SchemaDiff :=
  match targetCols !! TableColumn.name sCol with
  | None =>
      let fix_ := alterTable source +:+ " ADD COLUMN " +:+ quoted (TableColumn.name sCol)
                    +:+ " " +:+ Js.toUpperCase (TableColumn.dataType sCol) in
      let fix_ := withTypeSuffix fix_ sCol in
      let fix_ := if negb (TableColumn.isNullable sCol) then fix_ +:+ " NOT NULL" else fix_ in
      let fix_ := if Js.truthy_str (TableColumn.columnDefault sCol)
                  then fix_ +:+ " DEFAULT " +:+ Js.show_str (TableColumn.columnDefault sCol)
                  else fix_ in
      let fix_ := fix_ +:+ ";" in
      diffs ++ [SchemaDiff.mk MISSING_COLUMN (Some (TableMetadata.name source))
        (Some (TableColumn.name sCol)) None None
        (Some ("Column " +:+ quoted (TableColumn.name sCol) +:+ " is missing in target table."))
        (Some fix_)]
  | Some tCol =>
      let diffs :=
        if bool_decide (TableColumn.udtName sCol ≠ TableColumn.udtName tCol) then
          let typeStr := withTypeSuffix (Js.toUpperCase (TableColumn.dataType sCol)) sCol in
          diffs ++ [SchemaDiff.mk TYPE_MISMATCH (Some (TableMetadata.name source))
            (Some (TableColumn.name sCol))
            (Some (TableColumn.dataType sCol)) (Some (TableColumn.dataType tCol))
            (Some ("Column " +:+ quoted (TableColumn.name sCol) +:+ " type mismatch. Source: "
               +:+ TableColumn.dataType sCol +:+ " (" +:+ TableColumn.udtName sCol
               +:+ "), Target: " +:+ TableColumn.dataType tCol
               +:+ " (" +:+ TableColumn.udtName tCol +:+ ")"))
            (Some (alterTable source +:+ " ALTER COLUMN " +:+ quoted (TableColumn.name sCol)
                     +:+ " TYPE " +:+ typeStr +:+ ";"))]
        else diffs in
      let diffs :=
        if bool_decide (TableColumn.isNullable sCol ≠ TableColumn.isNullable tCol) then
          diffs ++ [SchemaDiff.mk NULLABILITY_MISMATCH (Some (TableMetadata.name source))
            (Some (TableColumn.name sCol))
            (Some (if TableColumn.isNullable sCol then "NULL" else "NOT NULL"))
            (Some (if TableColumn.isNullable tCol then "NULL" else "NOT NULL"))
            None
            (Some (alterTable source +:+ " ALTER COLUMN " +:+ quoted (TableColumn.name sCol)
                     +:+ " "
                     +:+ (if TableColumn.isNullable sCol then "DROP NOT NULL" else "SET NOT NULL")
                     +:+ ";"))]
        else diffs in
      if bool_decide (TableColumn.columnDefault sCol ≠ TableColumn.columnDefault tCol) then
        diffs ++ [SchemaDiff.mk DEFAULT_MISMATCH (Some (TableMetadata.name source))
          (Some (TableColumn.name sCol))
          (Js.or_str (TableColumn.columnDefault sCol) (Some "NULL"))
          (Js.or_str (TableColumn.columnDefault tCol) (Some "NULL"))
          None
          (Some (if Js.truthy_str (TableColumn.columnDefault sCol)
                 then alterTable source +:+ " ALTER COLUMN " +:+ quoted (TableColumn.name sCol)
                        +:+ " SET DEFAULT "
                        +:+ Js.show_str (TableColumn.columnDefault sCol) +:+ ";"
                 else alterTable source +:+ " ALTER COLUMN " +:+ quoted (TableColumn.name sCol)
                        +:+ " DROP DEFAULT;"))]
      else diffs
  end.

Definition compareColumns (source target : TableMetadata) (diffs : list SchemaDiff)
  : list SchemaDiff :=
  let targetCols :=
    SchemaComparator.newMap
      (map (λ c, (TableColumn.name c, c)) (TableMetadata.columns target)) in
  fold_left (compareColumn source targetCols) (TableMetadata.columns source) diffs.

(** [${sConstraint.columns.map(c => `"${c}"`).join(', ')}] *)
Definition quotedColumns (cols : list string) : string := Js.join ", " (map quoted cols).

Definition compareConstraint (source : TableMetadata) (targetConstraints : gset string)
    (diffs : list SchemaDiff) (sConstraint : TableConstraint) : list SchemaDiff :=
  if bool_decide (TableConstraint.name sConstraint ∉ targetConstraints) then
    let fix_ :=
      match TableConstraint.type sConstraint with
      | PRIMARY_KEY =>
          alterTable source +:+ " ADD CONSTRAINT " +:+ quoted (TableConstraint.name sConstraint)
            +:+ " PRIMARY KEY (" +:+ quotedColumns (TableConstraint.columns sConstraint) +:+ ");"
      | FOREIGN_KEY =>
          alterTable source +:+ " ADD CONSTRAINT " +:+ quoted (TableConstraint.name sConstraint)
            +:+ " FOREIGN KEY (" +:+ quotedColumns (TableConstraint.columns sConstraint)
            +:+ ") REFERENCES " +:+ quoted (TableMetadata.schema source) +:+ "."
            +:+ quoted (Js.show_str (TableConstraint.foreignTable sConstraint))
            +:+ " ("
            +:+ match TableConstraint.foreignColumns sConstraint with
                | Some cols => quotedColumns cols
                | None => "undefined"
                end
            +:+ ");"
      | UNIQUE =>
          alterTable source +:+ " ADD CONSTRAINT " +:+ quoted (TableConstraint.name sConstraint)
            +:+ " UNIQUE (" +:+ quotedColumns (TableConstraint.columns sConstraint) +:+ ");"
      | CHECK => ""
      end in
    diffs ++ [SchemaDiff.mk MISSING_CONSTRAINT (Some (TableMetadata.name source))
      (Some (TableConstraint.name sConstraint)) None None
      (Some ("Constraint " +:+ quoted (TableConstraint.name sConstraint) +:+ " ("
         +:+ ConstraintType_text (TableConstraint.type sConstraint)
         +:+ ") is missing in target."))
      (Some fix_)]
  else diffs.

Definition compareConstraints (source target : TableMetadata) (diffs : list SchemaDiff)
  : list SchemaDiff :=
  let targetConstraints :=
    SchemaComparator.newSet (map TableConstraint.name (TableMetadata.constraints target)) in
  fold_left (compareConstraint source targetConstraints) (TableMetadata.constraints source) diffs.

Definition compareIndex (source : TableMetadata) (targetIndexes : gset string)
    (diffs : list SchemaDiff) (sIndex : TableIndex) : list SchemaDiff :=
  if bool_decide (TableIndex.name sIndex ∉ targetIndexes) then
    diffs ++ [SchemaDiff.mk MISSING_INDEX (Some (TableMetadata.name source))
      (Some (TableIndex.name sIndex)) None None
      (Some ("Index " +:+ quoted (TableIndex.name sIndex) +:+ " is missing in target."))
      (Some (TableIndex.definition sIndex +:+ ";"))]
  else diffs.

Definition compareIndexes (source target : TableMetadata) (diffs : list SchemaDiff)
  : list SchemaDiff :=
  let targetIndexes :=
    SchemaComparator.newSet (map TableIndex.name (TableMetadata.indexes target)) in
  fold_left (compareIndex source targetIndexes) (TableMetadata.indexes source) diffs.

Definition compareFunction (targetFuncMap : gmap string DatabaseObject)
    (diffs : list SchemaDiff) (sFunc : DatabaseObject) : list SchemaDiff :=
  match targetFuncMap !! DatabaseObject.name sFunc with
  | None =>
      diffs ++ [SchemaDiff.mk MISSING_FUNCTION (Some "-")
        (Some (DatabaseObject.name sFunc)) None None
        (Some ("Function " +:+ quoted (DatabaseObject.name sFunc) +:+ " is missing in target."))
        (Some (DatabaseObject.definition sFunc +:+ ";"))]
  | Some tFunc =>
      if bool_decide (DatabaseObject.definition sFunc ≠ DatabaseObject.definition tFunc) then
        diffs ++ [SchemaDiff.mk FUNCTION_MISMATCH (Some "-")
          (Some (DatabaseObject.name sFunc)) None None
          (Some ("Function " +:+ quoted (DatabaseObject.name sFunc) +:+ " definition mismatch."))
          (Some (DatabaseObject.definition sFunc +:+ ";"))]
      else diffs
  end.

Definition compareFunctions (sourceSchema targetSchema : string) (diffs : list SchemaDiff)
  : list SchemaDiff :=
  let sourceFunctions := listFunctions sourceInspector sourceSchema in
  let targetFunctions := listFunctions targetInspector targetSchema in
  let targetFuncMap :=
    SchemaComparator.newMap (map (λ f, (DatabaseObject.name f, f)) targetFunctions) in
  fold_left (compareFunction targetFuncMap) sourceFunctions diffs.

(** [`${t.tableName}.${t.name}`] *)
Definition triggerKey (t : DatabaseObject) : string :=
  Js.show_str (DatabaseObject.tableName t) +:+ "." +:+ DatabaseObject.name t.

Definition compareTrigger (targetTrigMap : gmap string DatabaseObject)
    (diffs : list SchemaDiff) (sTrig : DatabaseObject) : list SchemaDiff :=
  match targetTrigMap !! triggerKey sTrig with
  | None =>
      diffs ++ [SchemaDiff.mk MISSING_TRIGGER (DatabaseObject.tableName sTrig)
        (Some (DatabaseObject.name sTrig)) None None
        (Some ("Trigger " +:+ quoted (DatabaseObject.name sTrig) +:+ " on table "
           +:+ quoted (Js.show_str (DatabaseObject.tableName sTrig))
           +:+ " is missing in target."))
        (Some (DatabaseObject.definition sTrig +:+ ";"))]
  | Some tTrig =>
      if bool_decide (DatabaseObject.definition sTrig ≠ DatabaseObject.definition tTrig) then
        diffs ++ [SchemaDiff.mk TRIGGER_MISMATCH (DatabaseObject.tableName sTrig)
          (Some (DatabaseObject.name sTrig)) None None
          (Some ("Trigger " +:+ quoted (DatabaseObject.name sTrig) +:+ " on table "
             +:+ quoted (Js.show_str (DatabaseObject.tableName sTrig))
             +:+ " definition mismatch."))
          (Some ("DROP TRIGGER IF EXISTS " +:+ quoted (DatabaseObject.name sTrig) +:+ " ON "
                   +:+ quoted (DatabaseObject.schema sTrig) +:+ "."
                   +:+ quoted (Js.show_str (DatabaseObject.tableName sTrig)) +:+ ";" +:+ LF
                   +:+ DatabaseObject.definition sTrig +:+ ";"))]
      else diffs
  end.

Definition compareTriggers (sourceSchema targetSchema : string) (diffs : list SchemaDiff)
  : list SchemaDiff :=
  let sourceTriggers := listTriggers sourceInspector sourceSchema in
  let targetTriggers := listTriggers targetInspector targetSchema in
  let targetTrigMap := SchemaComparator.newMap (map (λ t, (triggerKey t, t)) targetTriggers) in
  fold_left (compareTrigger targetTrigMap) sourceTriggers diffs.

Definition compareTable (sourceSchema targetSchema : string) (targetTables : list string)
    (diffs : list SchemaDiff) (tableName : string) : list SchemaDiff :=
  if bool_decide (tableName ∉ targetTables) then
    let sourceMeta := getTableMetadata sourceInspector sourceSchema tableName in
    diffs ++ [SchemaDiff.mk MISSING_TABLE (Some tableName) None None None
      (Some ("Table " +:+ quoted tableName +:+ " exists in source but is missing in target."))
      (Some (DDLGenerator.generateTableCreate sourceMeta))]
  else
    let sourceMeta := getTableMetadata sourceInspector sourceSchema tableName in
    let targetMeta := getTableMetadata targetInspector targetSchema tableName in
    let diffs := compareColumns sourceMeta targetMeta diffs in
    let diffs := compareConstraints sourceMeta targetMeta diffs in
    compareIndexes sourceMeta targetMeta diffs.

Definition compare (sourceSchema targetSchema : string) : ComparisonResult :=
  let diffs := [] in
  let sourceTables := listTables sourceInspector sourceSchema None in
  let targetTables := listTables targetInspector targetSchema None in
  let diffs := fold_left (compareTable sourceSchema targetSchema targetTables) sourceTables diffs in
  let diffs := compareFunctions sourceSchema targetSchema diffs in
  let diffs := compareTriggers sourceSchema targetSchema diffs in
  ComparisonResult.mk sourceSchema targetSchema diffs.
End Compare.

End LegacyComparator.

(** * Specification-side definitions and sample data *)

(** The text of the pieces [f x], one after the other. *)
Definition concatMap {A} (f : A → string) (l : list A) : string :=
  fold_right (λ x acc, f x +:+ acc) "" l.

(** The text one sequence contributes to [generateSequences]. *)
Definition sequenceBlock (meta : TableMetadata) (seq : TableSequence) : string :=
  PostgresDDLGenerator.createSequenceStatement meta seq
    +:+ (if Js.truthy_str (Some (TableSequence.lastValue seq))
         then PostgresDDLGenerator.setvalStatement (TableMetadata.schema meta)
                (TableSequence.name seq) (TableSequence.lastValue seq)
         else "").

(** The text the specification asks of [generateSequences], written out
    character by character without any of the generator's pieces: for each
    sequence its CREATE SEQUENCE statement, then the one statement
    [SELECT setval('"schema"."name"', value, true);] that restores its
    value, each followed by an empty line. *)
Definition expectedQuote : string := String (ascii_of_nat 34) EmptyString.

Definition expectedNewline : string := String (ascii_of_nat 10) EmptyString.

Definition expectedCreateSequence (schema : string) (seq : TableSequence) : string :=
  "CREATE SEQUENCE IF NOT EXISTS "
    +:+ expectedQuote +:+ schema +:+ expectedQuote +:+ "."
    +:+ expectedQuote +:+ TableSequence.name seq +:+ expectedQuote +:+ expectedNewline
    +:+ "  START WITH " +:+ TableSequence.startValue seq +:+ expectedNewline
    +:+ "  INCREMENT BY " +:+ TableSequence.incrementBy seq +:+ expectedNewline
    +:+ "  NO MINVALUE" +:+ expectedNewline
    +:+ "  NO MAXVALUE" +:+ expectedNewline
    +:+ "  CACHE " +:+ TableSequence.cacheSize seq +:+ ";" +:+ expectedNewline
    +:+ expectedNewline.

Definition expectedSetval (schema name value : string) : string :=
  "SELECT setval('"
    +:+ expectedQuote +:+ schema +:+ expectedQuote +:+ "."
    +:+ expectedQuote +:+ name +:+ expectedQuote
    +:+ "', " +:+ value +:+ ", true);" +:+ expectedNewline +:+ expectedNewline.

(** The whole expected output when every sequence is restored with [value]. *)
Definition expectedSequences (value : TableSequence → string) (schema : string)
    (seqs : list TableSequence) : string :=
  concatMap (λ seq, expectedCreateSequence schema seq
                    +:+ expectedSetval schema (TableSequence.name seq) (value seq))
    seqs.

(** What the inspector stores as [lastValue]: [sd.last_value || sd.start_value]. *)
Definition lastObserved (sd : PostgresInspector.SequenceDetails) : string :=
  match PostgresInspector.last_value sd with
  | Some v => if decide (v = "") then PostgresInspector.start_value sd else v
  | None => PostgresInspector.start_value sd
  end.

(** Every row of [pg_sequences] carries a start value, as the catalog's
    NOT NULL column does. *)
Definition startValuesPresent (db : PostgresInspector.Catalog) : Prop :=
  ∀ schema name sd,
    sd ∈ PostgresInspector.pg_sequences db schema name →
    PostgresInspector.start_value sd ≠ "".

Definition orders_id_seq : TableSequence :=
  TableSequence.mk "orders_id_seq" "bigint" "1" "1" "9223372036854775807" "1" false "1" "57".

Definition orders_meta : TableMetadata :=
  TableMetadata.mk "orders" "public" [] [] [] [orders_id_seq].

(** [meta] with its constraint list replaced. *)
Definition withConstraints (meta : TableMetadata) (cs : list TableConstraint) : TableMetadata :=
  TableMetadata.mk (TableMetadata.name meta) (TableMetadata.schema meta)
    (TableMetadata.columns meta) cs (TableMetadata.indexes meta) (TableMetadata.sequences meta).

(** [meta] with the constraints of some kinds only. *)
Definition onlyKinds (kinds : list ConstraintType) (meta : TableMetadata) : TableMetadata :=
  withConstraints meta
    (filter (λ c, TableConstraint.type c ∈ kinds) (TableMetadata.constraints meta)).

(** [meta] with its CHECK constraints removed. *)
Definition withoutCheck (meta : TableMetadata) : TableMetadata :=
  withConstraints meta
    (filter (λ c, TableConstraint.type c ≠ CHECK) (TableMetadata.constraints meta)).

(** An inspector that reports the same catalog minus every CHECK constraint. *)
Definition inspectorWithoutCheck (inspector : ISchemaInspector) : ISchemaInspector :=
  Build_ISchemaInspector
    (listTables inspector)
    (λ schema name, withoutCheck (getTableMetadata inspector schema name))
    (listFunctions inspector)
    (listTriggers inspector).

(** The extractor reads a table's name, schema and columns, not its constraints. *)
Definition ignoresConstraints (extractor : IDataExtractor) : Prop :=
  ∀ meta cs chunkSize,
    streamTableData extractor (withConstraints meta cs) chunkSize
    = streamTableData extractor meta chunkSize.

(** Two inspections are alike for a backup when each table's metadata gives
    the same five texts. *)
Definition alikeForBackup (ddlGen : IDDLGenerator) (extractor : IDataExtractor)
    (m1 m2 : TableMetadata) : Prop :=
  generateSequences ddlGen m1 = generateSequences ddlGen m2
  ∧ generateTableCreate ddlGen m1 = generateTableCreate ddlGen m2
  ∧ streamTableData extractor m1 None = streamTableData extractor m2 None
  ∧ generateIndexes ddlGen m1 = generateIndexes ddlGen m2
  ∧ generateConstraints ddlGen m1 = generateConstraints ddlGen m2.

Definition orders_pkey : TableConstraint :=
  TableConstraint.mk "orders_pkey" PRIMARY_KEY ["id"] None (Some ["id"]) None.

Definition orders_total_check : TableConstraint :=
  TableConstraint.mk "orders_total_check" CHECK ["total"] None (Some []) None.

Definition orders_customer_fkey : TableConstraint :=
  TableConstraint.mk "orders_customer_fkey" FOREIGN_KEY ["customer_id"]
    (Some "customers") (Some ["id"]) None.

Definition orders_id : TableColumn :=
  TableColumn.mk "id" "integer" false (Some "nextval('orders_id_seq'::regclass)")
    None (Some 32%Z) (Some 0%Z) "int4".

Definition orders_total : TableColumn :=
  TableColumn.mk "total" "numeric" false (Some "0") None (Some 10%Z) (Some 2%Z) "numeric".

Definition orders_total_idx : TableIndex :=
  TableIndex.mk "orders_total_idx"
    "CREATE INDEX orders_total_idx ON public.orders USING btree (total)".

(** The table [orders(id serial primary key, total numeric(10,2) not null default 0)]
    with a check, a foreign key, an index and its sequence. *)
Definition orders_full : TableMetadata :=
  TableMetadata.mk "orders" "public" [orders_id; orders_total]
    [orders_pkey; orders_total_check; orders_customer_fkey]
    [orders_total_idx] [orders_id_seq].

Definition orders_row (id : Z) (total : string) : Row :=
  <["id" := JsNumber id]> (<["total" := JsString total]> ∅).

(** A catalog snapshot holding the single table [orders]. *)
Definition orders_inspector : ISchemaInspector :=
  Build_ISchemaInspector (λ _ _, ["orders"]) (λ _ _, orders_full) (λ _, []) (λ _, []).

Definition orders_rows : PostgresExtractor.PostgresConnection :=
  λ _ _, [orders_row 1 "10.50"; orders_row 2 "7.25"].

Definition orders_config : DatabaseConfig :=
  Build_DatabaseConfig "localhost" 5432 "shop" "reader" None None None "dumps" None.

(** The tables a run inspects, in inspection order. *)
Definition inspected (inspector : ISchemaInspector) (config : DatabaseConfig) : list TableMetadata :=
  let schema := Js.show_str (Js.or_str (schema config) (Some "public")) in
  map (getTableMetadata inspector schema) (listTables inspector schema (tables config)).

(** The writes a run issues in one of its steps, in order. *)
Definition phaseWrites (ddlGen : IDDLGenerator) (extractor : IDataExtractor)
    (config : DatabaseConfig) (now : string) (metas : list TableMetadata) (p : Phase)
  : list Write :=
  match p with
  | Header => SQLWriter.open now
  | DatabaseDDL =>
      [Build_Write p (generateDatabaseCreate ddlGen (database config));
       Build_Write p (generateSchemaCreate ddlGen
                        (Js.show_str (Js.or_str (schema config) (Some "public"))))]
  | SequenceDDL =>
      flat_map (λ meta, if Orchestrator.truthy (generateSequences ddlGen meta)
                        then [Build_Write p (generateSequences ddlGen meta)] else []) metas
  | TableDDL => map (λ meta, Build_Write p (generateTableCreate ddlGen meta)) metas
  | DataRows =>
      flat_map (λ meta, map (λ chunk, Build_Write p (Js.join LF chunk +:+ LF))
                          (streamTableData extractor meta None)
                        ++ [Build_Write p LF]) metas
  | IndexDDL =>
      flat_map (λ meta, if Orchestrator.truthy (generateIndexes ddlGen meta)
                        then [Build_Write p (generateIndexes ddlGen meta)] else []) metas
  | ConstraintDDL =>
      flat_map (λ meta, if Orchestrator.truthy (generateConstraints ddlGen meta)
                        then [Build_Write p (generateConstraints ddlGen meta)] else []) metas
  | Footer => SQLWriter.close []
  end.

Definition allPhases : list Phase :=
  [Header; DatabaseDDL; SequenceDDL; TableDDL; DataRows; IndexDDL; ConstraintDDL; Footer].

(** Writes ordered by the step that issued them. *)
Definition byPhase (a b : Write) : Prop :=
  Phase_rank (phase a) ≤ Phase_rank (phase b).

(** The sizes of the pages of [n] rows read [pageSize] at a time: full pages,
    then the remainder if there is one. *)
Definition batchSizes (n pageSize : nat) : list nat :=
  replicate (n / pageSize) pageSize
    ++ (if n mod pageSize =? 0 then [] else [n mod pageSize]).

(** The trace of a run that yields [batches]: each batch after the fetch that
    brought it, then the fetch that returns nothing. *)
Definition fetchesOf (batches : list (list string)) : list PostgresExtractor.Event :=
  flat_map (λ b, [PostgresExtractor.Fetched (length b); PostgresExtractor.Yielded b]) batches
    ++ [PostgresExtractor.Fetched 0].

(** A table of 10,050 rows. *)
Definition big_table : PostgresExtractor.PostgresConnection :=
  λ _ _, replicate (10 * 1000 + 50) (orders_row 1 "10.50").

(** The distinct elements of [l] that are not in [seen], each at the place of
    its first occurrence. *)
Fixpoint firstSeenFrom (seen l : list string) : list string :=
  match l with
  | [] => []
  | x :: r =>
      if decide (x ∈ seen) then firstSeenFrom seen r
      else x :: firstSeenFrom (x :: seen) r
  end.

(** [l] deduplicated in first-seen order. *)
Definition firstSeen (l : list string) : list string := firstSeenFrom [] l.

(** The rows of the catalog join that belong to the constraint [k]. *)
Definition rowsOf (k : string) (rows : list PostgresInspector.ConstraintRow)
  : list PostgresInspector.ConstraintRow :=
  filter (λ r, PostgresInspector.name r = k) rows.

(** The referenced column of a row, when the join produced one. *)
Definition referencedColumn (r : PostgresInspector.ConstraintRow) : option string :=
  match PostgresInspector.foreign_column r with
  | Some fc => if decide (fc = "") then None else Some fc
  | None => None
  end.

(** What the aggregation must have stored under the constraint name [k]
    after the rows [rows]: the constraint's columns and referenced columns
    deduplicated in first-seen order, its kind and referenced table taken from
    its first row. *)
Definition aggregated (rows : list PostgresInspector.ConstraintRow) (k : string)
    (c : TableConstraint) : Prop :=
  TableConstraint.name c = k
  ∧ TableConstraint.columns c
    = firstSeen (map PostgresInspector.column_name (rowsOf k rows))
  ∧ TableConstraint.foreignColumns c
    = Some (firstSeen (omap referencedColumn (rowsOf k rows)))
  ∧ TableConstraint.definition c = None
  ∧ ∃ r0 rest,
      rowsOf k rows = r0 :: rest
      ∧ TableConstraint.type c = PostgresInspector.type r0
      ∧ TableConstraint.foreignTable c = Js.or_str (PostgresInspector.foreign_table r0) None.

Definition fk_row (col fcol : string) : PostgresInspector.ConstraintRow :=
  PostgresInspector.Build_ConstraintRow "orders_items_fkey" FOREIGN_KEY col
    (Some "items") (Some fcol).

Definition pk_row : PostgresInspector.ConstraintRow :=
  PostgresInspector.Build_ConstraintRow "orders_pkey" PRIMARY_KEY "id" (Some "orders") (Some "id").

(** The join of a two-column foreign key (four rows) interleaved with the
    primary key's row. *)
Definition sample_rows : list PostgresInspector.ConstraintRow :=
  [fk_row "item_id" "id"; pk_row; fk_row "item_id" "rev"; fk_row "item_rev" "id";
   fk_row "item_rev" "rev"].

(** The target column a source column is paired with: the one of its name
    (the last one listed, should the target list the name more than once). *)
Definition sameNamed (target : TableMetadata) (sCol : TableColumn) : option TableColumn :=
  last (filter (λ tCol, TableColumn.name tCol = TableColumn.name sCol)
          (TableMetadata.columns target)).

(** The TYPE_MISMATCH record of a pair of columns, every field written out. *)
Definition typeMismatch (generator : IDDLGenerator) (source : TableMetadata)
    (sCol tCol : TableColumn) : SchemaDiff :=
  SchemaDiff.mk TYPE_MISMATCH (Some (TableMetadata.name source))
    (Some (TableColumn.name sCol))
    (Some (TableColumn.dataType sCol)) (Some (TableColumn.dataType tCol))
    (Some ("Column " +:+ expectedQuote +:+ TableColumn.name sCol +:+ expectedQuote
       +:+ " type mismatch. Source: " +:+ TableColumn.dataType sCol
       +:+ " (" +:+ TableColumn.udtName sCol +:+ "), Target: " +:+ TableColumn.dataType tCol
       +:+ " (" +:+ TableColumn.udtName tCol +:+ ")"))
    (Some (generateAlterColumnType generator (TableMetadata.name source)
             (TableMetadata.schema source) sCol)).

(** The diff is a TYPE_MISMATCH about the column named [name]. *)
Definition mismatchOf (name : string) (d : SchemaDiff) : Prop :=
  SchemaDiff.type d = TYPE_MISMATCH ∧ SchemaDiff.column d = Some name.

Definition varchar_col : TableColumn :=
  TableColumn.mk "title" "character varying" true None (Some 80%Z) None None "varchar".

Definition text_col : TableColumn :=
  TableColumn.mk "title" "text" true None None None None "text".

(** Same catalog type as [varchar_col], other display type, length and precision. *)
Definition varchar_col_wide : TableColumn :=
  TableColumn.mk "title" "varchar" true None (Some 255%Z) (Some 3%Z) None "varchar".

Definition books (col : TableColumn) : TableMetadata :=
  TableMetadata.mk "books" "public" [col] [] [] [].

(** The diff names an object of the source side: a listed source table, a
    column, constraint or index of a listed source table's metadata, a source
    function, or a source trigger. *)
Definition fromSource (sourceInspector : ISchemaInspector) (sourceSchema : string)
    (d : SchemaDiff) : Prop :=
  match SchemaDiff.type d with
  | MISSING_TABLE =>
      ∃ t, t ∈ listTables sourceInspector sourceSchema None ∧ SchemaDiff.table d = Some t
  | MISSING_COLUMN | TYPE_MISMATCH | NULLABILITY_MISMATCH | DEFAULT_MISMATCH =>
      ∃ t c,
        t ∈ listTables sourceInspector sourceSchema None
        ∧ c ∈ TableMetadata.columns (getTableMetadata sourceInspector sourceSchema t)
        ∧ SchemaDiff.table d
          = Some (TableMetadata.name (getTableMetadata sourceInspector sourceSchema t))
        ∧ SchemaDiff.column d = Some (TableColumn.name c)
  | MISSING_CONSTRAINT =>
      ∃ t c,
        t ∈ listTables sourceInspector sourceSchema None
        ∧ c ∈ TableMetadata.constraints (getTableMetadata sourceInspector sourceSchema t)
        ∧ SchemaDiff.table d
          = Some (TableMetadata.name (getTableMetadata sourceInspector sourceSchema t))
        ∧ SchemaDiff.column d = Some (TableConstraint.name c)
  | MISSING_INDEX =>
      ∃ t i,
        t ∈ listTables sourceInspector sourceSchema None
        ∧ i ∈ TableMetadata.indexes (getTableMetadata sourceInspector sourceSchema t)
        ∧ SchemaDiff.table d
          = Some (TableMetadata.name (getTableMetadata sourceInspector sourceSchema t))
        ∧ SchemaDiff.column d = Some (TableIndex.name i)
  | MISSING_FUNCTION | FUNCTION_MISMATCH =>
      ∃ f,
        f ∈ listFunctions sourceInspector sourceSchema
        ∧ SchemaDiff.column d = Some (DatabaseObject.name f)
  | MISSING_TRIGGER | TRIGGER_MISMATCH =>
      ∃ t,
        t ∈ listTriggers sourceInspector sourceSchema
        ∧ SchemaDiff.table d = DatabaseObject.tableName t
        ∧ SchemaDiff.column d = Some (DatabaseObject.name t)
  end.

(** [statement] is an [ALTER TABLE ... ADD CONSTRAINT ... <kind> (...)] text. *)
Definition addConstraintFix (k : ConstraintType) (statement : string) : Prop :=
  ∃ target ident tail,
    statement = "ALTER TABLE " +:+ target +:+ " ADD CONSTRAINT " +:+ ident +:+ " "
            +:+ ConstraintType_text k +:+ " (" +:+ tail.

(** The source constraint has no same-named constraint in the target table. *)
Definition absentIn (target : TableMetadata) (c : TableConstraint) : Prop :=
  TableConstraint.name c ∉ SchemaComparator.targetConstraintNames target.

(** An Oracle table with a primary key and a check constraint, and the same
    table on a target that lacks the check. *)
Definition invoices_pk : TableConstraint :=
  TableConstraint.mk "INVOICES_PK" PRIMARY_KEY ["ID"] None (Some []) None.

Definition invoices_amount_ck : TableConstraint :=
  TableConstraint.mk "INVOICES_AMOUNT_CK" CHECK ["AMOUNT"] None (Some []) None.

Definition invoices_source : TableMetadata :=
  TableMetadata.mk "INVOICES" "USER" [] [invoices_pk; invoices_amount_ck] [] [].

Definition invoices_target : TableMetadata :=
  TableMetadata.mk "INVOICES" "USER" [] [invoices_pk] [] [].

Definition invoices_bare : TableMetadata :=
  TableMetadata.mk "INVOICES" "USER" [] [] [] [].

(** Two overloads of one function name, as [pg_get_functiondef] prints them. *)
Definition area_of_square : DatabaseObject :=
  DatabaseObject.mk "area" "public"
    "CREATE OR REPLACE FUNCTION public.area(side integer) RETURNS integer LANGUAGE sql AS $$ SELECT side * side $$"
    None.

Definition area_of_rectangle : DatabaseObject :=
  DatabaseObject.mk "area" "public"
    "CREATE OR REPLACE FUNCTION public.area(w integer, h integer) RETURNS integer LANGUAGE sql AS $$ SELECT w * h $$"
    None.

(** A schema without tables or triggers that holds the two overloads. *)
Definition overloaded_schema : ISchemaInspector :=
  Build_ISchemaInspector (λ _ _, []) (λ schema name, TableMetadata.mk name schema [] [] [] [])
    (λ _, [area_of_square; area_of_rectangle]) (λ _, []).

(** A schema without tables or triggers that holds the first overload only. *)
Definition square_schema : ISchemaInspector :=
  Build_ISchemaInspector (λ _ _, []) (λ schema name, TableMetadata.mk name schema [] [] [] [])
    (λ _, [area_of_square]) (λ _, []).

(** The names by which the comparator looks objects up are distinct: no table
    lists a column name twice, no two functions share a name, no two triggers
    share the key made of their table and name. *)
Definition distinctNames (inspector : ISchemaInspector) (schema : string) : Prop :=
  (∀ t, t ∈ listTables inspector schema None →
        NoDup (map TableColumn.name (TableMetadata.columns (getTableMetadata inspector schema t))))
  ∧ NoDup (map DatabaseObject.name (listFunctions inspector schema))
  ∧ NoDup (map SchemaComparator.triggerKey (listTriggers inspector schema)).

(** A table with a column of type [interval]. *)
Definition shifts : TableMetadata :=
  TableMetadata.mk "shifts" "public"
    [TableColumn.mk "id" "integer" false None None (Some 32%Z) (Some 0%Z) "int4";
     TableColumn.mk "duration" "interval" true None None None None "interval"]
    [] [] [].

(** The driver hands an interval over as an object whose [toString()] is the
    default one. *)
Definition interval_object : JsValue :=
  JsObject "[object Object]" ("{" +:+ quoted "days" +:+ ":1}").

Definition shift_row : Row :=
  <["id" := JsNumber 7]> (<["duration" := interval_object]> ∅).

(** Two targets answer alike about every object of the source: they list the
    same source tables, and hold the same thing (or nothing) under the name of
    every source column, constraint, index, function and trigger.  They may
    differ in any object the source does not have. *)
Definition agreeOnSource (sourceInspector : ISchemaInspector) (sourceSchema : string)
    (target target' : ISchemaInspector) (targetSchema : string) : Prop :=
  (∀ t, t ∈ listTables sourceInspector sourceSchema None →
        (t ∈ listTables target' targetSchema None ↔ t ∈ listTables target targetSchema None)
        ∧ (t ∈ listTables target targetSchema None →
           (∀ c, c ∈ TableMetadata.columns (getTableMetadata sourceInspector sourceSchema t) →
                 SchemaComparator.targetColumns (getTableMetadata target' targetSchema t)
                   !! TableColumn.name c
                 = SchemaComparator.targetColumns (getTableMetadata target targetSchema t)
                     !! TableColumn.name c)
           ∧ (∀ c, c ∈ TableMetadata.constraints (getTableMetadata sourceInspector sourceSchema t) →
                   (TableConstraint.name c
                      ∈ map TableConstraint.name
                          (TableMetadata.constraints (getTableMetadata target' targetSchema t))
                    ↔ TableConstraint.name c
                        ∈ map TableConstraint.name
                            (TableMetadata.constraints (getTableMetadata target targetSchema t))))
           ∧ (∀ i, i ∈ TableMetadata.indexes (getTableMetadata sourceInspector sourceSchema t) →
                   (TableIndex.name i
                      ∈ map TableIndex.name
                          (TableMetadata.indexes (getTableMetadata target' targetSchema t))
                    ↔ TableIndex.name i
                        ∈ map TableIndex.name
                            (TableMetadata.indexes (getTableMetadata target targetSchema t))))))
  ∧ (∀ f, f ∈ listFunctions sourceInspector sourceSchema →
          SchemaComparator.newMap
            (map (λ f, (DatabaseObject.name f, f)) (listFunctions target' targetSchema))
            !! DatabaseObject.name f
          = SchemaComparator.newMap
              (map (λ f, (DatabaseObject.name f, f)) (listFunctions target targetSchema))
              !! DatabaseObject.name f)
  ∧ (∀ t, t ∈ listTriggers sourceInspector sourceSchema →
          SchemaComparator.newMap
            (map (λ t, (SchemaComparator.triggerKey t, t)) (listTriggers target' targetSchema))
            !! SchemaComparator.triggerKey t
          = SchemaComparator.newMap
              (map (λ t, (SchemaComparator.triggerKey t, t)) (listTriggers target targetSchema))
              !! SchemaComparator.triggerKey t).

(** A source with the table [books], a target with the same table, and a
    target that holds in addition a table, a function and a trigger of its
    own. *)
Definition library_source : ISchemaInspector :=
  Build_ISchemaInspector (λ _ _, ["books"]) (λ _ _, books varchar_col) (λ _, []) (λ _, []).

Definition library_target : ISchemaInspector :=
  Build_ISchemaInspector (λ _ _, ["books"]) (λ _ _, books text_col) (λ _, []) (λ _, []).

Definition library_target_plus : ISchemaInspector :=
  Build_ISchemaInspector (λ _ _, ["books"; "audit_log"]) (λ _ _, books text_col)
    (λ _, [area_of_square])
    (λ _, [DatabaseObject.mk "audit_books" "public" "CREATE TRIGGER audit_books ..." (Some "books")]).

(** * Definitions used to state the further properties *)

(** [s] between double quotes, written out. *)
Definition expectedInQuotes (s : string) : string :=
  expectedQuote +:+ s +:+ expectedQuote.

(** The pieces of [l] with [sep] between them. *)
Fixpoint expectedJoin (sep : string) (l : list string) : string :=
  match l with
  | [] => ""
  | s :: r =>
      match r with
      | [] => s
      | _ :: _ => s +:+ sep +:+ expectedJoin sep r
      end
  end.

(** The schema a run works on: the configured one, [public] when none or the
    empty name is configured. *)
Definition effectiveSchema (config : DatabaseConfig) : string :=
  match schema config with
  | Some s => if decide (s = "") then "public" else s
  | None => "public"
  end.

(** A schema that lists no table. *)
Definition empty_inspector : ISchemaInspector :=
  Build_ISchemaInspector (λ _ _, []) (λ schema name, TableMetadata.mk name schema [] [] [] [])
    (λ _, []) (λ _, []).

(** The part of a comparison a kind of diff belongs to: the tables (0), the
    functions (1), the triggers (2). *)
Definition DiffType_section (k : DiffType) : nat :=
  match k with
  | MISSING_FUNCTION | FUNCTION_MISMATCH => 1
  | MISSING_TRIGGER | TRIGGER_MISMATCH => 2
  | _ => 0
  end.

(** The diff reported for a source table the target does not list. *)
Definition missingTable (generator : IDDLGenerator) (sourceInspector : ISchemaInspector)
    (sourceSchema tableName : string) : SchemaDiff :=
  SchemaDiff.mk MISSING_TABLE (Some tableName) None None None
    (Some ("Table " +:+ expectedInQuotes tableName
             +:+ " exists in source but is missing in target."))
    (Some (generateTableCreate generator
             (getTableMetadata sourceInspector sourceSchema tableName))).

(** A source with the tables [orders] and [books]. *)
Definition shop_source : ISchemaInspector :=
  Build_ISchemaInspector (λ _ _, ["orders"; "books"])
    (λ _ name, if String.eqb name "orders" then orders_full else books varchar_col)
    (λ _, []) (λ _, []).

(** The diff carries a fix statement, and the statement is empty only on a
    MISSING_CONSTRAINT diff that names a CHECK constraint of the source. *)
Definition carriesFix (sourceInspector : ISchemaInspector) (sourceSchema : string)
    (d : SchemaDiff) : Prop :=
  ∃ statement,
    SchemaDiff.fix_ d = Some statement
    ∧ (statement = "" →
       SchemaDiff.type d = MISSING_CONSTRAINT
       ∧ ∃ t c,
           t ∈ listTables sourceInspector sourceSchema None
           ∧ c ∈ TableMetadata.constraints (getTableMetadata sourceInspector sourceSchema t)
           ∧ TableConstraint.type c = CHECK
           ∧ SchemaDiff.column d = Some (TableConstraint.name c)).

(** The target column of a source column's name agrees with it on the three
    fields that are compared. *)
Definition columnAgrees (target : TableMetadata) (sCol : TableColumn) : Prop :=
  ∃ tCol,
    sameNamed target sCol = Some tCol
    ∧ TableColumn.udtName sCol = TableColumn.udtName tCol
    ∧ TableColumn.isNullable sCol = TableColumn.isNullable tCol
    ∧ TableColumn.columnDefault sCol = TableColumn.columnDefault tCol.

(** How a table name prints, also when the object carries none. *)
Definition printedTable (o : DatabaseObject) : string :=
  match DatabaseObject.tableName o with
  | Some t => t
  | None => "undefined"
  end.

(** The key under which a trigger is looked up: its table and its name. *)
Definition expectedTriggerKey (t : DatabaseObject) : string :=
  printedTable t +:+ "." +:+ DatabaseObject.name t.

(** The diffs reported for a source function and for a source trigger. *)
Definition missingFunction (f : DatabaseObject) : SchemaDiff :=
  SchemaDiff.mk MISSING_FUNCTION (Some "-") (Some (DatabaseObject.name f)) None None
    (Some ("Function " +:+ expectedInQuotes (DatabaseObject.name f)
             +:+ " is missing in target."))
    (Some (DatabaseObject.definition f +:+ ";")).

Definition functionMismatch (f : DatabaseObject) : SchemaDiff :=
  SchemaDiff.mk FUNCTION_MISMATCH (Some "-") (Some (DatabaseObject.name f)) None None
    (Some ("Function " +:+ expectedInQuotes (DatabaseObject.name f)
             +:+ " definition mismatch."))
    (Some (DatabaseObject.definition f +:+ ";")).

Definition missingTrigger (t : DatabaseObject) : SchemaDiff :=
  SchemaDiff.mk MISSING_TRIGGER (DatabaseObject.tableName t) (Some (DatabaseObject.name t))
    None None
    (Some ("Trigger " +:+ expectedInQuotes (DatabaseObject.name t) +:+ " on table "
       +:+ expectedInQuotes (printedTable t) +:+ " is missing in target."))
    (Some (DatabaseObject.definition t +:+ ";")).

Definition triggerMismatch (generator : IDDLGenerator) (t : DatabaseObject) : SchemaDiff :=
  SchemaDiff.mk TRIGGER_MISMATCH (DatabaseObject.tableName t) (Some (DatabaseObject.name t))
    None None
    (Some ("Trigger " +:+ expectedInQuotes (DatabaseObject.name t) +:+ " on table "
       +:+ expectedInQuotes (printedTable t) +:+ " definition mismatch."))
    (Some (generateDropTrigger generator (printedTable t)
             (DatabaseObject.schema t) (DatabaseObject.name t)
           +:+ expectedNewline +:+ DatabaseObject.definition t +:+ ";")).

(** The target object a source object is held against: the last one listed
    under the same key. *)
Definition counterpart (key : DatabaseObject → string) (targets : list DatabaseObject)
    (x : DatabaseObject) : option DatabaseObject :=
  last (filter (λ y, key y = key x) targets).

(** What is reported about one source object, given how its kind reports a
    missing and a differing one. *)
Definition objectDiffs (key : DatabaseObject → string) (targets : list DatabaseObject)
    (missing mismatch : DatabaseObject → SchemaDiff) (x : DatabaseObject) : list SchemaDiff :=
  match counterpart key targets x with
  | None => [missing x]
  | Some y =>
      if decide (DatabaseObject.definition x = DatabaseObject.definition y) then []
      else [mismatch x]
  end.

(** No two columns of a table share a name, no two functions a name, no two
    triggers a table and name. *)
Definition distinctKeys (inspector : ISchemaInspector) (schema : string) : Prop :=
  (∀ t, t ∈ listTables inspector schema None →
        NoDup (map TableColumn.name (TableMetadata.columns (getTableMetadata inspector schema t))))
  ∧ NoDup (map DatabaseObject.name (listFunctions inspector schema))
  ∧ NoDup (map expectedTriggerKey (listTriggers inspector schema)).

(** The character occurs in the text. *)
Definition occursIn (c : ascii) (s : string) : Prop := c ∈ String.list_ascii_of_string s.

(** The label shown for a kind of diff. *)
Definition expectedTypeLabel (k : DiffType) : string :=
  match k with
  | MISSING_TABLE => "MISSING TABLE"
  | MISSING_COLUMN => "MISSING COLUMN"
  | TYPE_MISMATCH => "TYPE MISMATCH"
  | NULLABILITY_MISMATCH => "NULLABILITY MISMATCH"
  | DEFAULT_MISMATCH => "DEFAULT MISMATCH"
  | MISSING_CONSTRAINT => "MISSING CONSTRAINT"
  | MISSING_INDEX => "MISSING INDEX"
  | MISSING_FUNCTION => "MISSING FUNCTION"
  | MISSING_TRIGGER => "MISSING TRIGGER"
  | FUNCTION_MISMATCH => "FUNCTION MISMATCH"
  | TRIGGER_MISMATCH => "TRIGGER MISMATCH"
  end.

(** A cell shows the text, or a dash for an absent or empty one. *)
Definition orDash (o : option string) : string :=
  match o with
  | Some s => if decide (s = "") then "-" else s
  | None => "-"
  end.

(** The row shown for a diff. *)
Definition expectedRow (d : SchemaDiff) : SchemaExporter.SheetRow.t :=
  SchemaExporter.SheetRow.mk (SchemaDiff.table d) (expectedTypeLabel (SchemaDiff.type d))
    (orDash (SchemaDiff.column d)) (orDash (SchemaDiff.expected d))
    (orDash (SchemaDiff.actual d)).

(** A text with every single quote written twice. *)
Fixpoint expectedEscape (s : string) : string :=
  match s with
  | EmptyString => EmptyString
  | String c r =>
      if decide (c = "'"%char) then String c (String c (expectedEscape r))
      else String c (expectedEscape r)
  end.

(** Type names, as the catalog prints them, of columns whose values are
    texts, dates, times and identifiers. *)
Definition textTypes : list string :=
  ["text"; "character varying"; "character"; "uuid"; "date";
   "timestamp without time zone"; "timestamp with time zone";
   "time without time zone"; "inet"; "USER-DEFINED"; "xml"; "bytea"].

(** * Proofs *)

(** * Facts about strings and accumulating loops *)

Lemma app_nil_r_str (s : string) : s +:+ "" = s.
Proof. induction s as [|c s IH]; [done|]. unfold String.append; fold String.append. by rewrite IH. Qed.

Lemma app_assoc_str (a b c : string) : (a +:+ b) +:+ c = a +:+ b +:+ c.
Proof.
  induction a as [|x a IH]; [done|].
  unfold String.append; fold String.append. by rewrite IH.
Qed.

Lemma length_app_str (a b : string) :
  String.length (a +:+ b) = String.length a + String.length b.
Proof.
  induction a as [|x a IH]; [done|].
  unfold String.append; fold String.append. simpl. by rewrite IH.
Qed.

(** A loop [for (x of l) sql += f(x)] appends the pieces in order. *)
Lemma fold_left_append {A} (f : A → string) (l : list A) (init : string) :
  fold_left (λ sql x, sql +:+ f x) l init = init +:+ concatMap f l.
Proof.
  revert init. induction l as [|x l IH]; intros init; simpl.
  - by rewrite app_nil_r_str.
  - by rewrite IH, app_assoc_str.
Qed.

Lemma concatMap_app {A} (f : A → string) (l1 l2 : list A) :
  concatMap f (l1 ++ l2) = concatMap f l1 +:+ concatMap f l2.
Proof.
  induction l1 as [|x l1 IH]; simpl; [done|]. by rewrite IH, app_assoc_str.
Qed.

(** A loop whose body pushes onto the accumulated list. *)
Lemma fold_left_push {A B} (step : list B → A → list B) (l : list A) (init : list B) :
  (∀ acc x, step acc x = acc ++ step [] x) →
  fold_left step l init = init ++ flat_map (step []) l.
Proof.
  intros Hstep. revert init. induction l as [|x l IH]; intros init; simpl.
  - by rewrite app_nil_r.
  - rewrite IH, Hstep. by rewrite <- app_assoc.
Qed.

(** * [PostgresDDLGenerator]: sequences *)

Lemma generateSequences_blocks (meta : TableMetadata) :
  PostgresDDLGenerator.generateSequences meta
  = concatMap (sequenceBlock meta) (TableMetadata.sequences meta).
Proof.
  unfold PostgresDDLGenerator.generateSequences.
  change (concatMap (sequenceBlock meta) (TableMetadata.sequences meta))
    with ("" +:+ concatMap (sequenceBlock meta) (TableMetadata.sequences meta)).
  generalize "". induction (TableMetadata.sequences meta) as [|s l IH]; intros init.
  - cbn. by rewrite app_nil_r_str.
  - cbn [fold_left]. rewrite IH.
    change (concatMap (sequenceBlock meta) (s :: l))
      with (sequenceBlock meta s +:+ concatMap (sequenceBlock meta) l).
    unfold sequenceBlock.
    destruct (Js.truthy_str (Some (TableSequence.lastValue s)));
      by rewrite ?app_assoc_str, ?app_nil_r_str.
Qed.

Lemma truthy_str_Some (s : string) : Js.truthy_str (Some s) = true ↔ s ≠ "".
Proof.
  simpl. rewrite negb_true_iff. apply String.eqb_neq.
Qed.

Lemma toSequence_lastValue (sd : PostgresInspector.SequenceDetails) :
  TableSequence.lastValue (PostgresInspector.toSequence sd) = lastObserved sd.
Proof.
  unfold lastObserved, PostgresInspector.toSequence, Js.or_str. simpl.
  destruct (PostgresInspector.last_value sd) as [v|]; [|done]. simpl.
  destruct (decide (v = "")) as [->|Hv]; [done|].
  by rewrite (proj2 (String.eqb_neq _ _) Hv).
Qed.

Lemma lastObserved_populated (sd : PostgresInspector.SequenceDetails) :
  PostgresInspector.start_value sd ≠ "" → lastObserved sd ≠ "".
Proof.
  intros Hstart. unfold lastObserved.
  destruct (PostgresInspector.last_value sd) as [v|]; [|done].
  by destruct (decide (v = "")).
Qed.

(** Every sequence the inspector reports was built from a [pg_sequences] row. *)
Lemma getSequences_from_catalog (db : PostgresInspector.Catalog) (schema tableName : string) :
  Forall (λ seq, ∃ s n sd, sd ∈ PostgresInspector.pg_sequences db s n
                           ∧ seq = PostgresInspector.toSequence sd)
    (PostgresInspector.getSequences db schema tableName).
Proof.
  unfold PostgresInspector.getSequences.
  generalize (PostgresInspector.owned_sequences db schema tableName).
  intros rows. induction rows as [|row rows IH] using rev_ind; [constructor|].
  rewrite fold_left_app. simpl.
  destruct (PostgresInspector.pg_sequences db row.2 row.1) as [|sd rest] eqn:Hq; [done|].
  apply Forall_app. split; [done|]. apply Forall_singleton.
  exists row.2, row.1, sd. split; [|done]. rewrite Hq. apply list_elem_of_here.
Qed.

Lemma sequenceBlock_expected (meta : TableMetadata) (seq : TableSequence) :
  sequenceBlock meta seq
  = expectedCreateSequence (TableMetadata.schema meta) seq
      +:+ (if decide (TableSequence.lastValue seq = "") then ""
           else expectedSetval (TableMetadata.schema meta) (TableSequence.name seq)
                  (TableSequence.lastValue seq)).
Proof.
  unfold sequenceBlock, expectedCreateSequence, expectedSetval,
    PostgresDDLGenerator.createSequenceStatement, PostgresDDLGenerator.setvalStatement,
    PostgresDDLGenerator.qualified, quoted, expectedQuote, expectedNewline, DQ, LF.
  destruct (decide (TableSequence.lastValue seq = "")) as [Hnone|Hsome].
  - rewrite Hnone. simpl Js.truthy_str. cbv iota. by rewrite !app_assoc_str.
  - rewrite (proj2 (truthy_str_Some _) Hsome). by rewrite !app_assoc_str.
Qed.

Lemma append_cancel_l (a b c : string) : a +:+ b = a +:+ c → b = c.
Proof.
  induction a as [|x a IH]; [done|].
  unfold String.append; fold String.append. intros [= H]. by apply IH.
Qed.

Lemma append_cancel_r (a b c : string) : a +:+ c = b +:+ c → a = b.
Proof.
  revert b. induction a as [|x a IH]; intros [|y b] H.
  - done.
  - exfalso. apply (f_equal String.length) in H.
    rewrite !length_app_str in H. simpl in H. lia.
  - exfalso. apply (f_equal String.length) in H.
    rewrite !length_app_str in H. simpl in H. lia.
  - unfold String.append in H; fold String.append in H.
    injection H as -> H. f_equal. by apply IH.
Qed.

(** C2.  [generateSequences] emits, for every sequence of the table in order,
    the sequence's CREATE SEQUENCE statement followed, when its [lastValue] is
    populated, by exactly one statement
    [SELECT setval('"schema"."name"', <lastValue>, true);] and by nothing more:
    with every [lastValue] populated the whole output is the expected text
    whose value arguments are the last observed values.  It is not the text
    with the start value as argument: for a sequence whose start value
    differs from its last observed value the two texts differ.  The inspector
    fills [lastValue] with the catalog's [last_value], falling back to
    [start_value] exactly when the catalog reports none, so for the metadata
    the inspector builds every sequence is restored.  For the sequence
    started at 1 and last observed at 57 the statement sets 57. *)
Theorem generateSequences_setval_uses_lastValue :
  (∀ meta : TableMetadata,
     PostgresDDLGenerator.generateSequences meta
     = concatMap
         (λ seq, expectedCreateSequence (TableMetadata.schema meta) seq
                 +:+ (if decide (TableSequence.lastValue seq = "") then ""
                      else expectedSetval (TableMetadata.schema meta) (TableSequence.name seq)
                             (TableSequence.lastValue seq)))
         (TableMetadata.sequences meta))
  ∧ (∀ meta : TableMetadata,
       Forall (λ seq, TableSequence.lastValue seq ≠ "") (TableMetadata.sequences meta) →
       PostgresDDLGenerator.generateSequences meta
       = expectedSequences TableSequence.lastValue (TableMetadata.schema meta)
           (TableMetadata.sequences meta))
  ∧ (∀ (meta : TableMetadata) (seq : TableSequence),
       TableMetadata.sequences meta = [seq] →
       TableSequence.lastValue seq ≠ "" →
       TableSequence.startValue seq ≠ TableSequence.lastValue seq →
       PostgresDDLGenerator.generateSequences meta
       ≠ expectedSequences TableSequence.startValue (TableMetadata.schema meta) [seq])
  ∧ (∀ sd : PostgresInspector.SequenceDetails,
       TableSequence.lastValue (PostgresInspector.toSequence sd) = lastObserved sd
       ∧ TableSequence.startValue (PostgresInspector.toSequence sd)
         = PostgresInspector.start_value sd
       ∧ (PostgresInspector.start_value sd ≠ "" →
          TableSequence.lastValue (PostgresInspector.toSequence sd) ≠ ""))
  ∧ (∀ (db : PostgresInspector.Catalog) (schema tableName : string),
       startValuesPresent db →
       PostgresDDLGenerator.generateSequences
         (PostgresInspector.getTableMetadata db schema tableName)
       = expectedSequences TableSequence.lastValue schema
           (PostgresInspector.getSequences db schema tableName))
  ∧ PostgresDDLGenerator.generateSequences
      (TableMetadata.mk "orders" "public" [] [] []
         [TableSequence.mk "orders_id_seq" "bigint" "1" "1" "9223372036854775807" "1"
            false "1" "57"])
    = "CREATE SEQUENCE IF NOT EXISTS " +:+ expectedQuote +:+ "public" +:+ expectedQuote
        +:+ "." +:+ expectedQuote +:+ "orders_id_seq" +:+ expectedQuote +:+ expectedNewline
        +:+ "  START WITH 1" +:+ expectedNewline
        +:+ "  INCREMENT BY 1" +:+ expectedNewline
        +:+ "  NO MINVALUE" +:+ expectedNewline
        +:+ "  NO MAXVALUE" +:+ expectedNewline
        +:+ "  CACHE 1;" +:+ expectedNewline +:+ expectedNewline
        +:+ "SELECT setval('" +:+ expectedQuote +:+ "public" +:+ expectedQuote
        +:+ "." +:+ expectedQuote +:+ "orders_id_seq" +:+ expectedQuote
        +:+ "', 57, true);" +:+ expectedNewline +:+ expectedNewline.
Proof.
  assert (∀ meta : TableMetadata,
            PostgresDDLGenerator.generateSequences meta
            = concatMap
                (λ seq, expectedCreateSequence (TableMetadata.schema meta) seq
                        +:+ (if decide (TableSequence.lastValue seq = "") then ""
                             else expectedSetval (TableMetadata.schema meta)
                                    (TableSequence.name seq) (TableSequence.lastValue seq)))
                (TableMetadata.sequences meta)) as Hall.
  { intros meta. rewrite generateSequences_blocks.
    induction (TableMetadata.sequences meta) as [|seq l IH]; [done|].
    simpl. by rewrite IH, sequenceBlock_expected. }
  assert (∀ meta : TableMetadata,
            Forall (λ seq, TableSequence.lastValue seq ≠ "") (TableMetadata.sequences meta) →
            PostgresDDLGenerator.generateSequences meta
            = expectedSequences TableSequence.lastValue (TableMetadata.schema meta)
                (TableMetadata.sequences meta)) as Hpopulated.
  { intros meta Hlast. rewrite Hall. unfold expectedSequences.
    induction Hlast as [|seq l Hseq _ IH]; [done|].
    simpl. rewrite IH. by destruct (decide (TableSequence.lastValue seq = "")). }
  split; [exact Hall|]. split; [exact Hpopulated|]. split; [|split; [|split]].
  - intros meta seq Hseqs Hlast Hdiffer Heq.
    rewrite Hpopulated in Heq by (rewrite Hseqs; by repeat constructor).
    rewrite Hseqs in Heq. unfold expectedSequences, expectedSetval in Heq. simpl in Heq.
    rewrite !app_nil_r_str in Heq.
    repeat apply append_cancel_l in Heq.
    apply append_cancel_r in Heq. by apply Hdiffer.
  - intros sd. rewrite toSequence_lastValue. split; [done|]. split; [done|].
    apply lastObserved_populated.
  - intros db schema tableName Hdb.
    apply (Hpopulated (PostgresInspector.getTableMetadata db schema tableName)).
    simpl.
    eapply Forall_impl; [apply getSequences_from_catalog|].
    simpl. intros seq (s & n & sd & Hsd & ->).
    rewrite toSequence_lastValue. eapply lastObserved_populated, Hdb. exact Hsd.
  - reflexivity.
Qed.

(** A sequence started at 1 and last observed at 57 is restored with 57, and
    the text that would restore it with 1 is not what is written. *)
Lemma generateSequences_setval_uses_lastValue_witness :
  PostgresDDLGenerator.generateSequences orders_meta
  = expectedSequences TableSequence.lastValue "public" [orders_id_seq]
  ∧ PostgresDDLGenerator.generateSequences orders_meta
    ≠ expectedSequences TableSequence.startValue "public" [orders_id_seq].
Proof.
  split.
  - apply (proj1 (proj2 generateSequences_setval_uses_lastValue) orders_meta).
    repeat constructor. discriminate.
  - apply (proj1 (proj2 (proj2 generateSequences_setval_uses_lastValue))
             orders_meta orders_id_seq).
    + reflexivity.
    + discriminate.
    + discriminate.
Defined.

Example generateSequences_orders :
  PostgresDDLGenerator.generateSequences orders_meta
  = "CREATE SEQUENCE IF NOT EXISTS " +:+ quoted "public" +:+ "." +:+ quoted "orders_id_seq" +:+ LF
    +:+ "  START WITH 1" +:+ LF +:+ "  INCREMENT BY 1" +:+ LF +:+ "  NO MINVALUE" +:+ LF
    +:+ "  NO MAXVALUE" +:+ LF +:+ "  CACHE 1;" +:+ LF +:+ LF
    +:+ "SELECT setval('" +:+ quoted "public" +:+ "." +:+ quoted "orders_id_seq"
    +:+ "', 57, true);" +:+ LF +:+ LF.
Proof. reflexivity. Qed.

(** * The DDL generators read constraints through their kind filters *)

Lemma filter_kind_onlyKinds (k : ConstraintType) (kinds : list ConstraintType)
    (cs : list TableConstraint) :
  k ∈ kinds →
  filter (λ c, TableConstraint.type c = k) (filter (λ c, TableConstraint.type c ∈ kinds) cs)
  = filter (λ c, TableConstraint.type c = k) cs.
Proof. intros Hk. apply list_filter_filter_l. by intros c ->. Qed.

Lemma filter_kind_withoutCheck (k : ConstraintType) (cs : list TableConstraint) :
  k ≠ CHECK →
  filter (λ c, TableConstraint.type c = k) (filter (λ c, TableConstraint.type c ≠ CHECK) cs)
  = filter (λ c, TableConstraint.type c = k) cs.
Proof. intros Hk. apply list_filter_filter_l. by intros c ->. Qed.

Lemma generateTableCreate_filter (type : DbType) (meta : TableMetadata)
    (cs : list TableConstraint) :
  filter (λ c, TableConstraint.type c = PRIMARY_KEY) cs
  = filter (λ c, TableConstraint.type c = PRIMARY_KEY) (TableMetadata.constraints meta) →
  generateTableCreate (EngineFactory.createGenerator type) (withConstraints meta cs)
  = generateTableCreate (EngineFactory.createGenerator type) meta.
Proof.
  intros Hpk. destruct type; simpl;
    unfold PostgresDDLGenerator.generateTableCreate, OracleDDLGenerator.generateTableCreate;
    simpl; by rewrite Hpk.
Qed.

Lemma generateConstraints_filter (type : DbType) (meta : TableMetadata)
    (cs : list TableConstraint) :
  filter (λ c, TableConstraint.type c = FOREIGN_KEY) cs
  = filter (λ c, TableConstraint.type c = FOREIGN_KEY) (TableMetadata.constraints meta) →
  filter (λ c, TableConstraint.type c = UNIQUE) cs
  = filter (λ c, TableConstraint.type c = UNIQUE) (TableMetadata.constraints meta) →
  generateConstraints (EngineFactory.createGenerator type) (withConstraints meta cs)
  = generateConstraints (EngineFactory.createGenerator type) meta.
Proof.
  intros Hfk Hu. destruct type; simpl;
    unfold PostgresDDLGenerator.generateConstraints, OracleDDLGenerator.generateConstraints;
    simpl; by rewrite Hfk, Hu.
Qed.

Lemma generateIndexes_withConstraints (type : DbType) (meta : TableMetadata)
    (cs : list TableConstraint) :
  generateIndexes (EngineFactory.createGenerator type) (withConstraints meta cs)
  = generateIndexes (EngineFactory.createGenerator type) meta.
Proof. by destruct type. Qed.

Lemma generateSequences_withConstraints (type : DbType) (meta : TableMetadata)
    (cs : list TableConstraint) :
  generateSequences (EngineFactory.createGenerator type) (withConstraints meta cs)
  = generateSequences (EngineFactory.createGenerator type) meta.
Proof. by destruct type. Qed.

(** * Congruence of a backup run in what the generators and the extractor see *)

Lemma fold_left_Forall2 {A B} (f : B → A → B) (l1 l2 : list A) (init : B) :
  Forall2 (λ a1 a2, ∀ b, f b a1 = f b a2) l1 l2 →
  fold_left f l1 init = fold_left f l2 init.
Proof.
  intros H. revert init. induction H as [|a1 a2 l1 l2 Ha _ IH]; intros init; simpl; [done|].
  by rewrite Ha, IH.
Qed.

Lemma fold_left_snoc_map {A B} (f : A → B) (l : list A) (init : list B) :
  fold_left (λ acc x, acc ++ [f x]) l init = init ++ map f l.
Proof.
  revert init. induction l as [|x l IH]; intros init; simpl.
  - by rewrite app_nil_r.
  - by rewrite IH, <- app_assoc.
Qed.

Lemma run_with_alike (ddlGen : IDDLGenerator) (i1 i2 : ISchemaInspector)
    (extractor : IDataExtractor) (config : DatabaseConfig) (now : string) :
  (∀ schema filter, listTables i1 schema filter = listTables i2 schema filter) →
  (∀ schema name,
     alikeForBackup ddlGen extractor (getTableMetadata i1 schema name)
       (getTableMetadata i2 schema name)) →
  Orchestrator.run_with ddlGen i1 extractor config now
  = Orchestrator.run_with ddlGen i2 extractor config now.
Proof.
  intros Htables Halike. unfold Orchestrator.run_with.
  rewrite Htables, !fold_left_snoc_map. simpl.
  set (schema := Js.show_str _).
  set (names := listTables i2 schema (tables config)).
  assert (Forall2 (alikeForBackup ddlGen extractor)
            (map (getTableMetadata i1 schema) names)
            (map (getTableMetadata i2 schema) names)) as Hmetas.
  { induction names; simpl; constructor; auto. }
  f_equal.
  repeat (etrans; [apply fold_left_Forall2;
                    eapply Forall2_impl; [exact Hmetas|];
                    intros m1 m2 (Hs & Ht & Hd & Hi & Hc) w; simpl;
                    rewrite ?Hs, ?Ht, ?Hd, ?Hi, ?Hc; reflexivity
                  | f_equal ]).
Qed.

(** * The extraction loop *)

Lemma loop_unfold (meta : TableMetadata) (chunkSize : nat) (cursor : PostgresExtractor.Cursor) :
  PostgresExtractor.loop meta chunkSize cursor
  = match take chunkSize cursor with
    | [] => [PostgresExtractor.Fetched 0]
    | r :: rows =>
        PostgresExtractor.Fetched (length (r :: rows))
          :: PostgresExtractor.Yielded (map (PostgresExtractor.formatInsert meta) (r :: rows))
          :: PostgresExtractor.loop meta chunkSize (drop chunkSize cursor)
    end.
Proof.
  funelim (PostgresExtractor.loop meta chunkSize cursor);
    match goal with e : take _ _ = _ |- _ => by rewrite e end.
Qed.

(** Induction on the rows the cursor still holds. *)
Lemma cursor_ind (P : PostgresExtractor.Cursor → Prop) :
  (∀ cursor, (∀ rest, length rest < length cursor → P rest) → P cursor) →
  ∀ cursor, P cursor.
Proof.
  intros Hstep cursor.
  remember (length cursor) as n eqn:Hn. revert cursor Hn.
  induction n as [n IH] using lt_wf_ind. intros cursor ->.
  apply Hstep. intros rest Hlt. by eapply IH.
Qed.

Lemma loop_ext (m1 m2 : TableMetadata) (chunkSize : nat) (cursor : PostgresExtractor.Cursor) :
  (∀ row, PostgresExtractor.formatInsert m1 row = PostgresExtractor.formatInsert m2 row) →
  PostgresExtractor.loop m1 chunkSize cursor = PostgresExtractor.loop m2 chunkSize cursor.
Proof.
  intros Hfmt. induction cursor as [cursor IH] using cursor_ind.
  rewrite (loop_unfold m1), (loop_unfold m2).
  destruct (take chunkSize cursor) as [|r rows] eqn:Htake; [done|].
  f_equal. f_equal.
  - f_equal. apply map_ext. auto.
  - apply IH. rewrite length_drop.
    destruct chunkSize; [done|]. destruct cursor; [done|]. simpl. lia.
Qed.

Lemma PostgresExtractor_ignoresConstraints (db : PostgresExtractor.PostgresConnection) :
  ignoresConstraints (PostgresExtractor.extractor db).
Proof.
  intros meta cs chunkSize. simpl.
  unfold PostgresExtractor.streamTableData, PostgresExtractor.streamEvents. simpl.
  by rewrite (loop_ext (withConstraints meta cs) meta).
Qed.

(** C10.  The backup never emits a CHECK constraint.  For either engine,
    [generateTableCreate] reads only the PRIMARY KEY constraints of the
    metadata and [generateConstraints] only the FOREIGN KEY and UNIQUE ones;
    removing the CHECK constraints from a table's metadata changes none of the
    four DDL texts, and removing them from everything the inspector reports
    leaves the whole written backup unchanged. *)
Theorem backup_never_emits_check :
  (∀ (type : DbType) (meta : TableMetadata),
     generateTableCreate (EngineFactory.createGenerator type) (onlyKinds [PRIMARY_KEY] meta)
     = generateTableCreate (EngineFactory.createGenerator type) meta
     ∧ generateConstraints (EngineFactory.createGenerator type)
         (onlyKinds [FOREIGN_KEY; UNIQUE] meta)
       = generateConstraints (EngineFactory.createGenerator type) meta)
  ∧ (∀ (type : DbType) (meta : TableMetadata),
       generateSequences (EngineFactory.createGenerator type) (withoutCheck meta)
       = generateSequences (EngineFactory.createGenerator type) meta
       ∧ generateTableCreate (EngineFactory.createGenerator type) (withoutCheck meta)
         = generateTableCreate (EngineFactory.createGenerator type) meta
       ∧ generateIndexes (EngineFactory.createGenerator type) (withoutCheck meta)
         = generateIndexes (EngineFactory.createGenerator type) meta
       ∧ generateConstraints (EngineFactory.createGenerator type) (withoutCheck meta)
         = generateConstraints (EngineFactory.createGenerator type) meta)
  ∧ (∀ (inspector : ISchemaInspector) (extractor : IDataExtractor)
       (config : DatabaseConfig) (now : string),
       ignoresConstraints extractor →
       Orchestrator.run (inspectorWithoutCheck inspector) extractor config now
       = Orchestrator.run inspector extractor config now).
Proof.
  assert (∀ type extractor meta, ignoresConstraints extractor →
            alikeForBackup (EngineFactory.createGenerator type) extractor
              (withoutCheck meta) meta) as Halike.
  { intros type extractor meta Hext. unfold withoutCheck. repeat split.
    - apply generateSequences_withConstraints.
    - apply generateTableCreate_filter. by apply filter_kind_withoutCheck.
    - apply Hext.
    - apply generateIndexes_withConstraints.
    - apply generateConstraints_filter; by apply filter_kind_withoutCheck. }
  split; [|split].
  - intros type meta. unfold onlyKinds. split.
    + apply generateTableCreate_filter, filter_kind_onlyKinds. set_solver.
    + apply generateConstraints_filter; apply filter_kind_onlyKinds; set_solver.
  - intros type meta.
    destruct (Halike type (PostgresExtractor.extractor (λ _ _, [])) meta
                (PostgresExtractor_ignoresConstraints _)) as (? & ? & _ & ? & ?).
    done.
  - intros inspector extractor config now Hext. unfold Orchestrator.run.
    apply run_with_alike; [done|]. intros schema name. by apply Halike.
Qed.

(** Dropping the check on [orders.total] leaves the backup of [orders] as it is. *)
Lemma backup_never_emits_check_witness :
  Orchestrator.run (inspectorWithoutCheck orders_inspector)
    (PostgresExtractor.extractor orders_rows) orders_config "2026-01-01 00:00:00"
  = Orchestrator.run orders_inspector
      (PostgresExtractor.extractor orders_rows) orders_config "2026-01-01 00:00:00".
Proof.
  apply (proj2 (proj2 backup_never_emits_check)).
  intros meta cs chunkSize. apply PostgresExtractor_ignoresConstraints.
Defined.

(** * Layout of a backup run *)

Lemma flat_map_singleton {A B} (g : A → list B) (f : A → B) (l : list A) :
  (∀ x, g x = [f x]) → flat_map g l = map f l.
Proof. intros Hg. induction l as [|x l IH]; simpl; [done|]. by rewrite IH, Hg. Qed.

Ltac push_step :=
  intros acc x; unfold SQLWriter.write;
  try destruct (Orchestrator.truthy _); simpl;
  rewrite ?fold_left_snoc_map, ?app_nil_r, ?app_nil_l, ?app_assoc; done.

Lemma run_with_layout (ddlGen : IDDLGenerator) (inspector : ISchemaInspector)
    (extractor : IDataExtractor) (config : DatabaseConfig) (now : string) :
  Orchestrator.run_with ddlGen inspector extractor config now
  = concat (map (phaseWrites ddlGen extractor config now (inspected inspector config)) allPhases).
Proof.
  unfold Orchestrator.run_with, inspected. cbv zeta.
  rewrite fold_left_snoc_map. simpl app.
  set (metas := map _ _).
  unfold SQLWriter.t.
  do 5 (rewrite fold_left_push; [|push_step]).
  unfold SQLWriter.close, SQLWriter.write. simpl.
  rewrite <- !app_assoc. simpl.
  rewrite (flat_map_singleton (λ x, [Build_Write TableDDL (generateTableCreate ddlGen x)])
             (λ x, Build_Write TableDDL (generateTableCreate ddlGen x))) by done.
  rewrite (flat_map_ext
             (λ meta, fold_left
                        (λ w chunk, w ++ [Build_Write DataRows (Js.join LF chunk +:+ LF)])
                        (streamTableData extractor meta None) []
                      ++ [Build_Write DataRows LF])
             (λ meta, map (λ chunk, Build_Write DataRows (Js.join LF chunk +:+ LF))
                        (streamTableData extractor meta None)
                      ++ [Build_Write DataRows LF]));
    [|intros meta; by rewrite fold_left_snoc_map].
  reflexivity.
Qed.

Lemma phaseWrites_phase ddlGen extractor config now metas p :
  Forall (λ x, phase x = p) (phaseWrites ddlGen extractor config now metas p).
Proof.
  destruct p; simpl; repeat constructor;
    try (apply Forall_flat_map, Forall_forall; intros meta _);
    try (by destruct (Orchestrator.truthy _); repeat constructor).
  - apply Forall_fmap, Forall_forall. done.
  - apply Forall_app. split; [apply Forall_fmap, Forall_forall | repeat constructor]; done.
Qed.

(** * Order of the writes of a backup run *)

Lemma same_phase_sorted (p : Phase) (l : list Write) :
  Forall (λ x, phase x = p) l → StronglySorted byPhase l.
Proof.
  induction 1 as [|x l Hx Hl IH]; constructor; [done|].
  eapply Forall_impl; [exact Hl|]. intros y Hy. unfold byPhase. by rewrite Hx, Hy.
Qed.

Lemma elem_of_concat {A} (x : A) (ls : list (list A)) :
  x ∈ concat ls ↔ ∃ l, x ∈ l ∧ l ∈ ls.
Proof.
  induction ls as [|l ls IH]; simpl.
  - split; [by intros ?%elem_of_nil | by intros (l & _ & ?%elem_of_nil)].
  - rewrite elem_of_app, IH. split.
    + intros [Hx|(l' & Hx & Hl')]; [exists l | exists l']; split; auto using list_elem_of_here, list_elem_of_further.
    + intros (l' & Hx & [->|Hl']%elem_of_cons); eauto.
Qed.

Lemma segments_sorted (seg : Phase → list Write) (ps : list Phase) :
  (∀ p, Forall (λ x, phase x = p) (seg p)) →
  StronglySorted (λ p q, Phase_rank p ≤ Phase_rank q) ps →
  StronglySorted byPhase (concat (map seg ps)).
Proof.
  intros Hseg. induction 1 as [|p ps Hps IH Hle]; simpl; [constructor|].
  apply StronglySorted_app_2; [|by eapply same_phase_sorted|done].
  intros x1 x2 Hx1 Hx2.
  apply elem_of_concat in Hx2 as (l & Hx2 & Hl).
  apply list_elem_of_fmap in Hl as (q & -> & Hq).
  pose proof (Hseg p) as Hp. pose proof (Hseg q) as Hq'.
  rewrite Forall_forall in Hp. rewrite Forall_forall in Hq'. rewrite Forall_forall in Hle.
  unfold byPhase. rewrite (Hp _ Hx1), (Hq' _ Hx2). auto.
Qed.

Lemma allPhases_sorted : StronglySorted (λ p q, Phase_rank p ≤ Phase_rank q) allPhases.
Proof. unfold allPhases. repeat constructor; simpl; lia. Qed.

Lemma sorted_lookup_lt {A} (R : relation A) (l : list A) (i j : nat) (a b : A) :
  StronglySorted R l → l !! i = Some a → l !! j = Some b → i < j → R a b.
Proof.
  intros Hsorted. revert i j.
  induction Hsorted as [|x l Hl IH Hx]; intros i j Hi Hj Hlt; [done|].
  destruct j as [|j]; [lia|]. simpl in Hj. destruct i as [|i]; simpl in Hi.
  - simplify_eq. rewrite Forall_forall in Hx. apply Hx. by eapply list_elem_of_lookup_2.
  - eapply IH; eauto. lia.
Qed.

Lemma fileContent_app (w1 w2 : SQLWriter.t) :
  SQLWriter.fileContent (w1 ++ w2) = SQLWriter.fileContent w1 +:+ SQLWriter.fileContent w2.
Proof. apply (concatMap_app content). Qed.

(** A write ends before any later write starts. *)
Lemma offset_later (w : SQLWriter.t) (i j : nat) (wi : Write) :
  w !! i = Some wi → i < j →
  SQLWriter.offset w i + String.length (content wi) ≤ SQLWriter.offset w j.
Proof.
  intros Hi Hlt. unfold SQLWriter.offset.
  replace j with (S i + (j - S i)) by lia.
  rewrite <- take_take_drop, (take_S_r _ _ _ Hi), !fileContent_app, !length_app_str.
  simpl. rewrite app_nil_r_str. lia.
Qed.

Lemma run_sorted (inspector : ISchemaInspector) (extractor : IDataExtractor)
    (config : DatabaseConfig) (now : string) :
  StronglySorted byPhase (Orchestrator.run inspector extractor config now).
Proof.
  unfold Orchestrator.run. rewrite run_with_layout.
  apply segments_sorted; [|apply allPhases_sorted].
  intros p. apply phaseWrites_phase.
Qed.

Lemma generateTableCreate_nonempty (type : DbType) (meta : TableMetadata) :
  generateTableCreate (EngineFactory.createGenerator type) meta ≠ "".
Proof.
  destruct type; simpl;
    unfold PostgresDDLGenerator.generateTableCreate, OracleDDLGenerator.generateTableCreate;
    rewrite fold_left_append; discriminate.
Qed.

Lemma truthy_nonempty (s : string) : Orchestrator.truthy s = true → s ≠ "".
Proof. unfold Orchestrator.truthy. rewrite negb_true_iff. apply String.eqb_neq. Qed.

Lemma app_LF_nonempty (s : string) : s +:+ LF ≠ "".
Proof. by destruct s. Qed.

(** Every write of the sequence, table, data and index steps carries text. *)
Lemma phaseWrites_nonempty (type : DbType) extractor config now metas (p : Phase) :
  p ∈ [SequenceDDL; TableDDL; DataRows; IndexDDL] →
  Forall (λ x, content x ≠ "")
    (phaseWrites (EngineFactory.createGenerator type) extractor config now metas p).
Proof.
  intros Hp. set (gen := EngineFactory.createGenerator type).
  rewrite !elem_of_cons, elem_of_nil in Hp.
  destruct Hp as [-> | [-> | [-> | [-> | []]]]]; simpl.
  - apply Forall_flat_map, Forall_forall. intros meta _.
    destruct (Orchestrator.truthy _) eqn:Ht; repeat constructor. by apply truthy_nonempty.
  - apply Forall_fmap, Forall_forall. intros meta _. apply generateTableCreate_nonempty.
  - apply Forall_flat_map, Forall_forall. intros meta _.
    apply Forall_app. split; [|by repeat constructor].
    apply Forall_fmap, Forall_forall. intros chunk _. apply app_LF_nonempty.
  - apply Forall_flat_map, Forall_forall. intros meta _.
    destruct (Orchestrator.truthy _) eqn:Ht; repeat constructor. by apply truthy_nonempty.
Qed.

Lemma run_write_nonempty (inspector : ISchemaInspector) (extractor : IDataExtractor)
    (config : DatabaseConfig) (now : string) (x : Write) :
  x ∈ Orchestrator.run inspector extractor config now →
  phase x ∈ [SequenceDDL; TableDDL; DataRows; IndexDDL] →
  content x ≠ "".
Proof.
  unfold Orchestrator.run. rewrite run_with_layout. intros Hx Hphase.
  apply elem_of_concat in Hx as (l & Hx & Hl).
  apply list_elem_of_fmap in Hl as (q & -> & _).
  pose proof (phaseWrites_phase (EngineFactory.createGenerator (default postgres (dbType config)))
                extractor config now (inspected inspector config) q) as Hq.
  rewrite Forall_forall in Hq. rewrite (Hq _ Hx) in Hphase.
  pose proof (phaseWrites_nonempty (default postgres (dbType config)) extractor config now
                (inspected inspector config) q Hphase) as Hne.
  rewrite Forall_forall in Hne. by apply Hne.
Qed.

(** C1.  In the output of every backup run the steps follow one another:
    whenever one write was issued by an earlier step than another (sequences
    before table creation before data before indexes before foreign-key and
    unique constraints, with the header first and the footer last), all of its
    bytes lie before the offset at which the other starts; and since the writes
    of the sequence, table, data and index steps are never empty, their start
    offsets are strictly smaller. *)
Theorem backup_phases_in_order (inspector : ISchemaInspector) (extractor : IDataExtractor)
    (config : DatabaseConfig) (now : string) (i j : nat) (wi wj : Write) :
  let w := Orchestrator.run inspector extractor config now in
  w !! i = Some wi →
  w !! j = Some wj →
  Phase_rank (phase wi) < Phase_rank (phase wj) →
  SQLWriter.offset w i + String.length (content wi) ≤ SQLWriter.offset w j
  ∧ (phase wi ∈ [SequenceDDL; TableDDL; DataRows; IndexDDL] →
     SQLWriter.offset w i < SQLWriter.offset w j).
Proof.
  intros w Hi Hj Hrank.
  assert (i < j) as Hlt.
  { destruct (decide (i < j)) as [|Hge]; [done|]. exfalso.
    destruct (decide (i = j)) as [->|Hne]; [simplify_eq; lia|].
    assert (byPhase wj wi) as Hle.
    { eapply (sorted_lookup_lt byPhase w j i); eauto using run_sorted. lia. }
    unfold byPhase in Hle. lia. }
  pose proof (offset_later w i j wi Hi Hlt) as Hoff.
  split; [done|]. intros Hphase.
  assert (content wi ≠ "") as Hne.
  { eapply run_write_nonempty; [|done]. by eapply list_elem_of_lookup_2. }
  destruct (content wi); [done|]. simpl in Hoff. lia.
Qed.

(** In the backup of [orders] the sequence block (write 6) lies wholly before
    the [CREATE TABLE] block (write 7). *)
Lemma backup_phases_in_order_witness :
  SQLWriter.offset
    (Orchestrator.run orders_inspector (PostgresExtractor.extractor orders_rows)
       orders_config "2026-01-01 00:00:00") 6
  < SQLWriter.offset
      (Orchestrator.run orders_inspector (PostgresExtractor.extractor orders_rows)
         orders_config "2026-01-01 00:00:00") 7.
Proof.
  refine (proj2 (backup_phases_in_order orders_inspector
                   (PostgresExtractor.extractor orders_rows) orders_config
                   "2026-01-01 00:00:00" 6 7 _ _ eq_refl eq_refl _) _).
  - vm_compute. lia.
  - vm_compute. apply list_elem_of_here.
Defined.

(** * Streaming a table in pages *)

Lemma batchSizes_0 (pageSize : nat) : batchSizes 0 pageSize = [].
Proof.
  unfold batchSizes. destruct pageSize; [done|].
  by rewrite Nat.Div0.div_0_l, Nat.Div0.mod_0_l.
Qed.

Lemma batchSizes_small (n pageSize : nat) :
  0 < n → n < pageSize → batchSizes n pageSize = [n].
Proof.
  intros Hn Hlt. unfold batchSizes.
  rewrite Nat.div_small, Nat.mod_small by done.
  destruct (Nat.eqb_spec n 0); [lia|done].
Qed.

Lemma batchSizes_page (n pageSize : nat) :
  1 ≤ pageSize → pageSize ≤ n →
  batchSizes n pageSize = pageSize :: batchSizes (n - pageSize) pageSize.
Proof.
  intros Hp Hle. unfold batchSizes.
  assert (n / pageSize = S ((n - pageSize) / pageSize)) as ->.
  { replace n with (1 * pageSize + (n - pageSize)) at 1 by lia.
    rewrite Nat.div_add_l by lia. done. }
  assert (n mod pageSize = (n - pageSize) mod pageSize) as ->.
  { replace n with ((n - pageSize) + 1 * pageSize) at 1 by lia.
    apply Nat.Div0.mod_add. }
  done.
Qed.

Lemma loop_yields (meta : TableMetadata) (pageSize : nat) (cursor : PostgresExtractor.Cursor) :
  let batches := PostgresExtractor.yielded (PostgresExtractor.loop meta pageSize cursor) in
  Forall (λ b, b ≠ []) batches
  ∧ PostgresExtractor.loop meta pageSize cursor = fetchesOf batches
  ∧ (1 ≤ pageSize →
     concat batches = map (PostgresExtractor.formatInsert meta) cursor
     ∧ map length batches = batchSizes (length cursor) pageSize).
Proof.
  induction cursor as [cursor IH] using cursor_ind. cbv zeta.
  rewrite loop_unfold.
  destruct (take pageSize cursor) as [|r rows] eqn:Htake.
  - split; [constructor|]. split; [done|]. intros Hp.
    apply take_nil_inv in Htake as [->| ->]; [lia|]. by rewrite batchSizes_0.
  - assert (length (drop pageSize cursor) < length cursor) as Hshorter.
    { rewrite length_drop. destruct pageSize; [done|]. destruct cursor; [done|]. simpl. lia. }
    destruct (IH _ Hshorter) as (Hne & Hloop & Hrest).
    change (PostgresExtractor.yielded (_ :: _ :: ?l))
      with (map (PostgresExtractor.formatInsert meta) (r :: rows) :: PostgresExtractor.yielded l).
    split; [by constructor|]. split.
    { rewrite Hloop at 1. unfold fetchesOf. simpl. by rewrite List.length_map. }
    intros Hp. destruct (Hrest Hp) as (Hconcat & Hsizes).
    split.
    + cbn [concat]. rewrite Hconcat, <- map_app, <- Htake. by rewrite take_drop.
    + rewrite List.map_cons, Hsizes, List.length_map, <- Htake, length_take, length_drop.
      destruct (decide (pageSize ≤ length cursor)) as [Hle|Hgt].
      * rewrite Nat.min_l by done. by rewrite <- batchSizes_page.
      * rewrite Nat.min_r by lia.
        replace (length cursor - pageSize) with 0 by lia.
        rewrite batchSizes_0, batchSizes_small; [done| |lia].
        destruct cursor; [by rewrite take_nil in Htake|simpl; lia].
Qed.

(** C3.  For every table and every page size of at least one row,
    [streamTableData] yields finitely many batches, each non-empty, which
    taken together are the INSERT statements of the table's rows in cursor
    order; a batch per full page and one more for the remainder.  The run
    fetches once per batch, stops at the first fetch that returns no row and
    then releases the cursor.  A table of 10,050 rows read 1000 at a time
    gives 11 batches: ten of 1000 statements and one of 50. *)
Theorem streamTableData_batches (db : PostgresExtractor.PostgresConnection)
    (meta : TableMetadata) (pageSize : nat) :
  1 ≤ pageSize →
  let rows := db (TableMetadata.schema meta) (TableMetadata.name meta) in
  let batches := PostgresExtractor.streamTableData db meta (Some pageSize) in
  Forall (λ b, b ≠ []) batches
  ∧ concat batches = map (PostgresExtractor.formatInsert meta) rows
  ∧ map length batches = batchSizes (length rows) pageSize
  ∧ PostgresExtractor.streamEvents db meta (Some pageSize)
    = fetchesOf batches ++ [PostgresExtractor.Closed]
  ∧ (length rows = 10 * 1000 + 50 → pageSize = 1000 →
     map length batches = replicate 10 1000 ++ [50]).
Proof.
  intros Hp rows batches.
  assert (batches = PostgresExtractor.yielded (PostgresExtractor.loop meta pageSize rows))
    as Hbatches.
  { unfold batches, PostgresExtractor.streamTableData, PostgresExtractor.streamEvents,
      PostgresExtractor.yielded. simpl. rewrite omap_app. simpl. by rewrite app_nil_r. }
  destruct (loop_yields meta pageSize rows) as (Hne & Hloop & Hrest).
  destruct (Hrest Hp) as (Hconcat & Hsizes).
  rewrite <- Hbatches in Hne, Hloop, Hconcat, Hsizes.
  repeat split; try done.
  - unfold PostgresExtractor.streamEvents. simpl. fold rows. by rewrite Hloop.
  - intros Hlen ->. by rewrite Hsizes, Hlen.
Qed.

(** The 10,050-row table read with the default page size of 1000. *)
Lemma streamTableData_batches_witness :
  map length (PostgresExtractor.streamTableData big_table orders_full (Some 1000))
  = replicate 10 1000 ++ [50].
Proof.
  refine (proj2 (proj2 (proj2 (proj2
            (streamTableData_batches big_table orders_full 1000 _)))) _ eq_refl).
  - lia.
  - apply length_replicate.
Defined.

(** * First-seen deduplication *)

Lemma elem_of_firstSeenFrom (seen l : list string) (x : string) :
  x ∈ firstSeenFrom seen l ↔ x ∈ l ∧ x ∉ seen.
Proof.
  revert seen. induction l as [|y l IH]; intros seen; simpl.
  - rewrite elem_of_nil. tauto.
  - destruct (decide (y ∈ seen)) as [Hy|Hy].
    + rewrite IH, elem_of_cons. split; [tauto|]. intros [[->|?] ?]; tauto.
    + rewrite !elem_of_cons, IH, not_elem_of_cons.
      destruct (decide (x = y)) as [->|Hne]; tauto.
Qed.

Lemma NoDup_firstSeenFrom (seen l : list string) : NoDup (firstSeenFrom seen l).
Proof.
  revert seen. induction l as [|y l IH]; intros seen; simpl; [constructor|].
  destruct (decide (y ∈ seen)); [apply IH|].
  constructor; [|apply IH].
  rewrite elem_of_firstSeenFrom, not_elem_of_cons. tauto.
Qed.

Lemma firstSeenFrom_sublist (seen l : list string) : firstSeenFrom seen l `sublist_of` l.
Proof.
  revert seen. induction l as [|y l IH]; intros seen; simpl; [done|].
  destruct (decide (y ∈ seen)); [apply sublist_cons | apply sublist_skip]; apply IH.
Qed.

Lemma firstSeenFrom_snoc (seen l : list string) (x : string) :
  firstSeenFrom seen (l ++ [x])
  = firstSeenFrom seen l ++ (if decide (x ∈ seen ∨ x ∈ l) then [] else [x]).
Proof.
  revert seen. induction l as [|y l IH]; intros seen; simpl.
  - destruct (decide (x ∈ seen)), (decide (x ∈ seen ∨ x ∈ [])) as [[?|?%elem_of_nil]|?];
      try done; tauto.
  - destruct (decide (y ∈ seen)) as [Hy|Hy]; rewrite IH.
    + destruct (decide (x ∈ seen ∨ x ∈ l)) as [?|Hn], (decide (x ∈ seen ∨ x ∈ y :: l)) as [H'|Hn'];
        try done.
      * exfalso. apply Hn'. rewrite elem_of_cons. tauto.
      * exfalso. apply Hn. rewrite elem_of_cons in H'. destruct H' as [?|[->|?]]; tauto.
    + simpl.
      destruct (decide (x ∈ y :: seen ∨ x ∈ l)) as [H'|Hn],
               (decide (x ∈ seen ∨ x ∈ y :: l)) as [H''|Hn'']; try done.
      * exfalso. apply Hn''. rewrite !elem_of_cons in *. tauto.
      * exfalso. apply Hn. rewrite !elem_of_cons in *. tauto.
Qed.

(** Pushing an element unless it is there already keeps the first-seen order. *)
Lemma pushNew_firstSeen (l : list string) (x : string) :
  PostgresInspector.pushNew x (firstSeen l) = firstSeen (l ++ [x]).
Proof.
  unfold PostgresInspector.pushNew, firstSeen. rewrite firstSeenFrom_snoc.
  destruct (decide (x ∈ l)) as [Hx|Hx].
  - rewrite bool_decide_eq_true_2 by (rewrite elem_of_firstSeenFrom, elem_of_nil; tauto).
    rewrite decide_True by tauto. by rewrite app_nil_r.
  - rewrite bool_decide_eq_false_2 by (rewrite elem_of_firstSeenFrom; tauto).
    rewrite decide_False; [done|]. rewrite elem_of_nil. tauto.
Qed.

Lemma firstSeen_snoc_old (l : list string) (x : string) :
  x ∈ l → firstSeen (l ++ [x]) = firstSeen l.
Proof.
  intros Hx. unfold firstSeen. rewrite firstSeenFrom_snoc, decide_True by tauto.
  apply app_nil_r.
Qed.

Lemma firstSeen_snoc_new (l : list string) (x : string) :
  x ∉ l → firstSeen (l ++ [x]) = firstSeen l ++ [x].
Proof.
  intros Hx. unfold firstSeen. rewrite firstSeenFrom_snoc, decide_False; [done|].
  rewrite elem_of_nil. tauto.
Qed.

(** * Aggregation of the constraint rows *)

Lemma update_keys f k (m : PostgresInspector.ConstraintsMap) :
  (PostgresInspector.update f k m).*1 = m.*1.
Proof.
  induction m as [|[k' c] m IH]; simpl; [done|].
  destruct (String.eqb k' k); simpl; [done | by f_equal].
Qed.

Lemma update_absent f k c (m : PostgresInspector.ConstraintsMap) :
  k ∉ m.*1 → PostgresInspector.update f k (m ++ [(k, c)]) = m ++ [(k, f c)].
Proof.
  induction m as [|[k' c'] m IH]; simpl; intros Hk.
  - by rewrite String.eqb_refl.
  - apply not_elem_of_cons in Hk as [Hne Hk].
    rewrite (proj2 (String.eqb_neq k' k)) by done. by rewrite IH.
Qed.

Lemma update_Forall (P Q : string * TableConstraint → Prop) f k
    (m : PostgresInspector.ConstraintsMap) :
  NoDup m.*1 →
  (∀ c, P (k, c) → Q (k, f c)) →
  (∀ k' c, k' ≠ k → P (k', c) → Q (k', c)) →
  Forall P m → Forall Q (PostgresInspector.update f k m).
Proof.
  intros Hnodup Hsame Hother. induction m as [|[k' c] m IH]; simpl; intros Hm; [constructor|].
  apply Forall_cons in Hm as [Hc Hm]. apply NoDup_cons in Hnodup as [Hk' Hnodup].
  destruct (String.eqb_spec k' k) as [->|Hne].
  - constructor; [by apply Hsame|].
    rewrite Forall_forall in Hm. apply Forall_forall. intros [k'' c''] Hin.
    apply Hother; [|by apply Hm]. intros ->. apply Hk'.
    apply list_elem_of_fmap. by exists (k, c'').
  - constructor; [by apply Hother|]. by apply IH.
Qed.

Lemma rowsOf_snoc k rows r :
  rowsOf k (rows ++ [r])
  = rowsOf k rows ++ (if decide (PostgresInspector.name r = k) then [r] else []).
Proof.
  unfold rowsOf. by rewrite filter_app.
Qed.

Lemma rowsOf_unseen k rows :
  k ∉ map PostgresInspector.name rows → rowsOf k rows = [].
Proof.
  intros Hk. unfold rowsOf. induction rows as [|r rows IH]; [done|].
  simpl in Hk. apply not_elem_of_cons in Hk as [Hne Hk].
  rewrite filter_cons_False by done. by apply IH.
Qed.

Lemma aggregated_other rows r k c :
  PostgresInspector.name r ≠ k → aggregated rows k c → aggregated (rows ++ [r]) k c.
Proof.
  intros Hne Hc. unfold aggregated. rewrite rowsOf_snoc, decide_False, app_nil_r by done.
  exact Hc.
Qed.

Lemma referenced_snoc rows r (l : list string) :
  l = firstSeen (omap referencedColumn rows) →
  match PostgresInspector.foreign_column r, Some l with
  | Some fc, Some l => if Js.truthy_str (Some fc) then Some (PostgresInspector.pushNew fc l)
                       else Some l
  | _, o => o
  end = Some (firstSeen (omap referencedColumn (rows ++ [r]))).
Proof.
  intros ->. rewrite omap_app.
  change (omap referencedColumn [r]) with (option_list (referencedColumn r)).
  unfold referencedColumn.
  destruct (PostgresInspector.foreign_column r) as [fc|]; simpl.
  - destruct (decide (fc = "")) as [->|Hfc]; simpl.
    + by rewrite app_nil_r.
    + rewrite (proj2 (String.eqb_neq _ _) Hfc). simpl. by rewrite pushNew_firstSeen.
  - by rewrite app_nil_r.
Qed.

Lemma aggregated_same rows r c :
  aggregated rows (PostgresInspector.name r) c →
  aggregated (rows ++ [r]) (PostgresInspector.name r) (PostgresInspector.addColumns r c).
Proof.
  intros (Hname & Hcols & Hfcols & Hdef & r0 & rest & Hrows & Htype & Htable).
  unfold aggregated. rewrite rowsOf_snoc, decide_True by done.
  unfold PostgresInspector.addColumns. simpl. repeat split; try done.
  - by rewrite Hcols, pushNew_firstSeen, List.map_app.
  - rewrite Hfcols. by apply referenced_snoc.
  - exists r0, (rest ++ [r]). by rewrite Hrows.
Qed.

Lemma aggregated_fresh rows r :
  rowsOf (PostgresInspector.name r) rows = [] →
  aggregated (rows ++ [r]) (PostgresInspector.name r)
    (PostgresInspector.addColumns r (PostgresInspector.fresh r)).
Proof.
  intros Hrows. unfold aggregated. rewrite rowsOf_snoc, decide_True, Hrows by done.
  unfold PostgresInspector.addColumns, PostgresInspector.fresh. simpl. repeat split.
  - apply (referenced_snoc [] r []). done.
  - by exists r, [].
Qed.

Lemma step_invariant rows (m : PostgresInspector.ConstraintsMap) r :
  m.*1 = firstSeen (map PostgresInspector.name rows) →
  Forall (λ kc, aggregated rows kc.1 kc.2) m →
  (PostgresInspector.step m r).*1 = firstSeen (map PostgresInspector.name (rows ++ [r]))
  ∧ Forall (λ kc, aggregated (rows ++ [r]) kc.1 kc.2) (PostgresInspector.step m r).
Proof.
  intros Hkeys Hm. unfold PostgresInspector.step, PostgresInspector.has.
  rewrite update_keys, List.map_app. simpl.
  destruct (decide (PostgresInspector.name r ∈ m.*1)) as [Hin|Hnew].
  - rewrite bool_decide_eq_true_2 by done. split.
    + rewrite Hkeys, firstSeen_snoc_old; [done|].
      rewrite Hkeys in Hin. by apply elem_of_firstSeenFrom in Hin as [? _].
    + eapply update_Forall; [| | |exact Hm].
      * rewrite Hkeys. apply NoDup_firstSeenFrom.
      * intros c. apply aggregated_same.
      * intros k' c Hne. apply aggregated_other. done.
  - rewrite bool_decide_eq_false_2 by done.
    assert (PostgresInspector.name r ∉ map PostgresInspector.name rows) as Hunseen.
    { intros Hx. apply Hnew. rewrite Hkeys. apply elem_of_firstSeenFrom.
      split; [done|]. apply not_elem_of_nil. }
    split.
    + rewrite fmap_app, Hkeys, firstSeen_snoc_new; done.
    + rewrite update_absent by done. apply Forall_app. split.
      * eapply Forall_impl; [exact Hm|]. intros [k c] Hc. simpl in *.
        apply aggregated_other; [|done]. intros Heq. apply Hnew.
        destruct Hc as (_ & _ & _ & _ & r0 & rest & Hrows & _).
        rewrite <- Heq, rowsOf_unseen in Hrows; done.
      * apply Forall_singleton. simpl. by apply aggregated_fresh, rowsOf_unseen.
Qed.

Lemma aggregate_invariant rows :
  (fold_left PostgresInspector.step rows []).*1 = firstSeen (map PostgresInspector.name rows)
  ∧ Forall (λ kc, aggregated rows kc.1 kc.2) (fold_left PostgresInspector.step rows []).
Proof.
  induction rows as [|r rows IH] using rev_ind; [by split|].
  rewrite fold_left_app. simpl. destruct IH as [Hkeys Hm]. by apply step_invariant.
Qed.

Lemma keyed_names (m : PostgresInspector.ConstraintsMap) :
  Forall (λ kc, TableConstraint.name kc.2 = kc.1) m →
  map TableConstraint.name m.*2 = m.*1.
Proof.
  induction 1 as [|[k c] m Hc _ IH]; [done|].
  simpl in *. f_equal; [done | exact IH].
Qed.

(** C7.  From the flattened (constraint, column) rows of the catalog join,
    [getConstraints] returns exactly one [TableConstraint] per distinct
    constraint name, in the order in which the names first appear; the columns
    of each are the column names of its rows, and its referenced columns the
    referenced columns of its rows, both deduplicated and kept in first-seen
    order; its kind and referenced table are those of its first row. *)
Theorem getConstraints_one_per_name (db : PostgresInspector.Catalog)
    (schema tableName : string) :
  let rows := PostgresInspector.constraint_rows db schema tableName in
  let cs := PostgresInspector.getConstraints db schema tableName in
  map TableConstraint.name cs = firstSeen (map PostgresInspector.name rows)
  ∧ NoDup (map TableConstraint.name cs)
  ∧ (∀ k, k ∈ map TableConstraint.name cs ↔ k ∈ map PostgresInspector.name rows)
  ∧ (∀ c, c ∈ cs →
       TableConstraint.columns c
       = firstSeen (map PostgresInspector.column_name (rowsOf (TableConstraint.name c) rows))
       ∧ TableConstraint.foreignColumns c
         = Some (firstSeen (omap referencedColumn (rowsOf (TableConstraint.name c) rows)))
       ∧ NoDup (TableConstraint.columns c)
       ∧ TableConstraint.columns c
           `sublist_of` map PostgresInspector.column_name (rowsOf (TableConstraint.name c) rows)
       ∧ ∃ r0 rest,
           rowsOf (TableConstraint.name c) rows = r0 :: rest
           ∧ TableConstraint.type c = PostgresInspector.type r0
           ∧ TableConstraint.foreignTable c
             = Js.or_str (PostgresInspector.foreign_table r0) None).
Proof.
  intros rows cs.
  destruct (aggregate_invariant rows) as [Hkeys Hm].
  assert (map TableConstraint.name cs = firstSeen (map PostgresInspector.name rows)) as Hnames.
  { unfold cs, PostgresInspector.getConstraints, PostgresInspector.aggregate. fold rows.
    rewrite keyed_names; [done|]. eapply Forall_impl; [exact Hm|]. by intros [k c] (? & _). }
  split; [done|]. rewrite Hnames. split; [apply NoDup_firstSeenFrom|]. split.
  { intros k. unfold firstSeen. rewrite elem_of_firstSeenFrom, elem_of_nil. tauto. }
  intros c Hc.
  unfold cs, PostgresInspector.getConstraints, PostgresInspector.aggregate in Hc. fold rows in Hc.
  apply list_elem_of_fmap in Hc as ([k c'] & -> & Hin).
  rewrite Forall_forall in Hm. specialize (Hm _ Hin). simpl in *.
  destruct Hm as (Hname & Hcols & Hfcols & _ & Hfirst). rewrite Hname.
  repeat split; try done.
  - rewrite Hcols. apply NoDup_firstSeenFrom.
  - rewrite Hcols. apply firstSeenFrom_sublist.
Qed.

Example aggregate_sample :
  PostgresInspector.aggregate sample_rows
  = [TableConstraint.mk "orders_items_fkey" FOREIGN_KEY ["item_id"; "item_rev"]
       (Some "items") (Some ["id"; "rev"]) None;
     TableConstraint.mk "orders_pkey" PRIMARY_KEY ["id"] (Some "orders") (Some ["id"]) None].
Proof. reflexivity. Qed.

(** * Layout of a comparison *)

Section ComparatorLayout.
Variable generator : IDDLGenerator.
Variable sourceInspector targetInspector : ISchemaInspector.

Lemma compareColumn_push source targetCols diffs sCol :
  SchemaComparator.compareColumn generator source targetCols diffs sCol
  = diffs ++ SchemaComparator.compareColumn generator source targetCols [] sCol.
Proof.
  unfold SchemaComparator.compareColumn.
  destruct (targetCols !! TableColumn.name sCol) as [tCol|]; [|done].
  repeat destruct (bool_decide _); simpl; by rewrite <- ?app_assoc, ?app_nil_r.
Qed.

Lemma compareConstraint_push source targetConstraints diffs sConstraint :
  SchemaComparator.compareConstraint generator source targetConstraints diffs sConstraint
  = diffs ++ SchemaComparator.compareConstraint generator source targetConstraints [] sConstraint.
Proof.
  unfold SchemaComparator.compareConstraint.
  destruct (bool_decide _); simpl; by rewrite ?app_nil_r.
Qed.

Lemma compareIndex_push source targetIndexes diffs sIndex :
  SchemaComparator.compareIndex source targetIndexes diffs sIndex
  = diffs ++ SchemaComparator.compareIndex source targetIndexes [] sIndex.
Proof.
  unfold SchemaComparator.compareIndex.
  destruct (bool_decide _); simpl; by rewrite ?app_nil_r.
Qed.

Lemma compareFunction_push targetFuncMap diffs sFunc :
  SchemaComparator.compareFunction targetFuncMap diffs sFunc
  = diffs ++ SchemaComparator.compareFunction targetFuncMap [] sFunc.
Proof.
  unfold SchemaComparator.compareFunction.
  destruct (targetFuncMap !! _); [|done].
  destruct (bool_decide _); simpl; by rewrite ?app_nil_r.
Qed.

Lemma compareTrigger_push targetTrigMap diffs sTrig :
  SchemaComparator.compareTrigger generator targetTrigMap diffs sTrig
  = diffs ++ SchemaComparator.compareTrigger generator targetTrigMap [] sTrig.
Proof.
  unfold SchemaComparator.compareTrigger.
  destruct (targetTrigMap !! _); [|done].
  destruct (bool_decide _); simpl; by rewrite ?app_nil_r.
Qed.

Lemma compareColumns_layout source target diffs :
  SchemaComparator.compareColumns generator source target diffs
  = diffs ++ flat_map (SchemaComparator.compareColumn generator source
                         (SchemaComparator.targetColumns target) [])
               (TableMetadata.columns source).
Proof. apply fold_left_push. intros. apply compareColumn_push. Qed.

Lemma compareConstraints_layout source target diffs :
  SchemaComparator.compareConstraints generator source target diffs
  = diffs ++ flat_map (SchemaComparator.compareConstraint generator source
                         (SchemaComparator.targetConstraintNames target) [])
               (TableMetadata.constraints source).
Proof. apply fold_left_push. intros. apply compareConstraint_push. Qed.

Lemma compareIndexes_layout source target diffs :
  SchemaComparator.compareIndexes source target diffs
  = diffs ++ flat_map (SchemaComparator.compareIndex source
                         (SchemaComparator.newSet
                            (map TableIndex.name (TableMetadata.indexes target))) [])
               (TableMetadata.indexes source).
Proof. apply fold_left_push. intros. apply compareIndex_push. Qed.

Lemma compareFunctions_layout sourceSchema targetSchema diffs :
  SchemaComparator.compareFunctions sourceInspector targetInspector sourceSchema targetSchema diffs
  = diffs ++ flat_map (SchemaComparator.compareFunction
                         (SchemaComparator.newMap
                            (map (λ f, (DatabaseObject.name f, f))
                               (listFunctions targetInspector targetSchema))) [])
               (listFunctions sourceInspector sourceSchema).
Proof. apply fold_left_push. intros. apply compareFunction_push. Qed.

Lemma compareTriggers_layout sourceSchema targetSchema diffs :
  SchemaComparator.compareTriggers generator sourceInspector targetInspector
    sourceSchema targetSchema diffs
  = diffs ++ flat_map (SchemaComparator.compareTrigger generator
                         (SchemaComparator.newMap
                            (map (λ t, (SchemaComparator.triggerKey t, t))
                               (listTriggers targetInspector targetSchema))) [])
               (listTriggers sourceInspector sourceSchema).
Proof. apply fold_left_push. intros. apply compareTrigger_push. Qed.

Lemma compareTable_push sourceSchema targetSchema targetTables diffs tableName :
  SchemaComparator.compareTable generator sourceInspector targetInspector
    sourceSchema targetSchema targetTables diffs tableName
  = diffs ++ SchemaComparator.compareTable generator sourceInspector targetInspector
               sourceSchema targetSchema targetTables [] tableName.
Proof.
  unfold SchemaComparator.compareTable. destruct (bool_decide _); [done|].
  rewrite compareIndexes_layout, compareConstraints_layout, compareColumns_layout.
  rewrite (compareIndexes_layout _ _ (SchemaComparator.compareConstraints _ _ _ _)).
  rewrite (compareConstraints_layout _ _ (SchemaComparator.compareColumns _ _ _ _)).
  rewrite (compareColumns_layout _ _ []).
  by rewrite !app_nil_l, <- !app_assoc.
Qed.

Lemma compare_layout sourceSchema targetSchema :
  ComparisonResult.diffs
    (SchemaComparator.compare generator sourceInspector targetInspector sourceSchema targetSchema)
  = flat_map (SchemaComparator.compareTable generator sourceInspector targetInspector
                sourceSchema targetSchema (listTables targetInspector targetSchema None) [])
      (listTables sourceInspector sourceSchema None)
    ++ SchemaComparator.compareFunctions sourceInspector targetInspector
         sourceSchema targetSchema []
    ++ SchemaComparator.compareTriggers generator sourceInspector targetInspector
         sourceSchema targetSchema [].
Proof.
  unfold SchemaComparator.compare. simpl.
  rewrite compareTriggers_layout, compareFunctions_layout.
  rewrite (fold_left_push (SchemaComparator.compareTable _ _ _ _ _ _))
    by (intros; apply compareTable_push).
  rewrite (compareTriggers_layout _ _ []), (compareFunctions_layout _ _ []).
  by rewrite !app_nil_l, <- !app_assoc.
Qed.

Lemma compareTable_present sourceSchema targetSchema targetTables tableName :
  tableName ∈ targetTables →
  SchemaComparator.compareTable generator sourceInspector targetInspector
    sourceSchema targetSchema targetTables [] tableName
  = SchemaComparator.compareColumns generator
      (getTableMetadata sourceInspector sourceSchema tableName)
      (getTableMetadata targetInspector targetSchema tableName) []
    ++ SchemaComparator.compareConstraints generator
         (getTableMetadata sourceInspector sourceSchema tableName)
         (getTableMetadata targetInspector targetSchema tableName) []
    ++ SchemaComparator.compareIndexes
         (getTableMetadata sourceInspector sourceSchema tableName)
         (getTableMetadata targetInspector targetSchema tableName) [].
Proof.
  intros Hin. unfold SchemaComparator.compareTable.
  rewrite bool_decide_eq_false_2 by tauto.
  rewrite compareIndexes_layout, compareConstraints_layout.
  rewrite (compareIndexes_layout _ _ []), (compareConstraints_layout _ _ []).
  by rewrite !app_nil_l, <- !app_assoc.
Qed.

End ComparatorLayout.

(** * The lookup maps built from the target side *)

Lemma newMap_snoc {V} (l : list (string * V)) (k : string) (v : V) :
  SchemaComparator.newMap (l ++ [(k, v)]) = <[k := v]> (SchemaComparator.newMap l).
Proof. unfold SchemaComparator.newMap. by rewrite fold_left_app. Qed.

Lemma newMap_lookup_Some {V} (l : list (string * V)) (k : string) (v : V) :
  SchemaComparator.newMap l !! k = Some v → (k, v) ∈ l.
Proof.
  induction l as [|[k' v'] l IH] using rev_ind.
  - unfold SchemaComparator.newMap. simpl. by rewrite lookup_empty.
  - rewrite newMap_snoc, elem_of_app, list_elem_of_singleton.
    destruct (decide (k' = k)) as [->|Hne].
    + rewrite lookup_insert_eq. intros [= ->]. by right.
    + rewrite lookup_insert_ne by done. intros ?%IH. by left.
Qed.

Lemma newMap_lookup_None {V} (l : list (string * V)) (k : string) :
  SchemaComparator.newMap l !! k = None ↔ k ∉ l.*1.
Proof.
  induction l as [|[k' v'] l IH] using rev_ind.
  - unfold SchemaComparator.newMap. simpl. rewrite lookup_empty, elem_of_nil. tauto.
  - rewrite newMap_snoc, fmap_app, not_elem_of_app. simpl.
    rewrite list_elem_of_singleton.
    destruct (decide (k' = k)) as [->|Hne].
    + rewrite lookup_insert_eq. split; [done|tauto].
    + rewrite lookup_insert_ne, IH by done. split; [|tauto]. intros ?. split; [done|congruence].
Qed.

Lemma NoDup_keys_agree {V} (l : list (string * V)) (k : string) (v1 v2 : V) :
  NoDup l.*1 → (k, v1) ∈ l → (k, v2) ∈ l → v1 = v2.
Proof.
  induction l as [|[k' v'] l IH]; simpl; intros Hnodup H1 H2.
  - by apply elem_of_nil in H1.
  - apply NoDup_cons in Hnodup as [Hk' Hnodup].
    apply elem_of_cons in H1 as [H1|H1]; apply elem_of_cons in H2 as [H2|H2];
      simplify_eq; try done; try (by apply IH);
      exfalso; apply Hk'; apply list_elem_of_fmap; eexists (_, _); (split; [|eauto]); done.
Qed.

(** With distinct keys the map returns the very entry that was listed. *)
Lemma newMap_lookup_NoDup {V} (l : list (string * V)) (k : string) (v : V) :
  NoDup l.*1 → (k, v) ∈ l → SchemaComparator.newMap l !! k = Some v.
Proof.
  intros Hnodup Hin.
  destruct (SchemaComparator.newMap l !! k) as [v'|] eqn:Hlook.
  - apply newMap_lookup_Some in Hlook. f_equal.
    by eapply NoDup_keys_agree.
  - apply newMap_lookup_None in Hlook. exfalso. apply Hlook.
    apply list_elem_of_fmap. by exists (k, v).
Qed.

Lemma newMap_lookup_keyed {V} (key : V → string) (l : list V) (x : V) :
  NoDup (map key l) → x ∈ l →
  SchemaComparator.newMap (map (λ v, (key v, v)) l) !! key x = Some x.
Proof.
  intros Hnodup Hx. apply newMap_lookup_NoDup.
  - replace ((map (λ v, (key v, v)) l).*1) with (map key l); [done|].
    clear. induction l as [|v l IH]; simpl; [done|]. by rewrite IH.
  - apply list_elem_of_fmap. by exists x.
Qed.

(** Among entries that share a key the last one listed is the one kept. *)
Lemma newMap_lookup_last {V} (key : V → string) (l : list V) (k : string) :
  SchemaComparator.newMap (map (λ v, (key v, v)) l) !! k
  = last (filter (λ v, key v = k) l).
Proof.
  induction l as [|v l IH] using rev_ind.
  - unfold SchemaComparator.newMap. simpl. by rewrite lookup_empty.
  - rewrite map_app. simpl map. rewrite newMap_snoc, filter_app, filter_cons, filter_nil.
    destruct (decide (key v = k)) as [Hk|Hk].
    + rewrite Hk, lookup_insert_eq. by rewrite last_snoc.
    + rewrite lookup_insert_ne by done. by rewrite app_nil_r.
Qed.

Lemma flat_map_nil {A B} (f : A → list B) (l : list A) :
  (∀ x, x ∈ l → f x = []) → flat_map f l = [].
Proof.
  induction l as [|x l IH]; simpl; intros H; [done|].
  rewrite H, IH; [done| |apply list_elem_of_here].
  intros y Hy. apply H. by apply list_elem_of_further.
Qed.

Lemma filter_none {A} (P : A → Prop) `{!∀ x, Decision (P x)} (l : list A) :
  Forall (λ x, ¬ P x) l → filter P l = [].
Proof.
  induction 1 as [|x l Hx _ IH]; [done|].
  by rewrite filter_cons, decide_False, IH.
Qed.

Lemma filter_ext_elem {A} (P Q : A → Prop) `{!∀ x, Decision (P x), !∀ x, Decision (Q x)}
    (l : list A) :
  Forall (λ x, P x ↔ Q x) l → filter P l = filter Q l.
Proof.
  induction 1 as [|x l Hx _ IH]; [done|].
  rewrite !filter_cons, IH.
  destruct (decide (P x)), (decide (Q x)); tauto.
Qed.

Lemma NoDup_key_inj {V} (key : V → string) (l : list V) (x y : V) :
  NoDup (map key l) → x ∈ l → y ∈ l → key x = key y → x = y.
Proof.
  induction l as [|v l IH]; simpl; intros Hnodup Hx Hy Hkey.
  - by apply elem_of_nil in Hx.
  - apply NoDup_cons in Hnodup as [Hv Hnodup].
    apply elem_of_cons in Hx as [->|Hx]; apply elem_of_cons in Hy as [->|Hy].
    + done.
    + exfalso. apply Hv. rewrite Hkey. apply list_elem_of_fmap. by exists y.
    + exfalso. apply Hv. rewrite <- Hkey. apply list_elem_of_fmap. by exists x.
    + by apply IH.
Qed.

(** * Type mismatches *)

Lemma filter_flat_map {A B} (P : B → Prop) `{!∀ x, Decision (P x)} (f : A → list B) (l : list A) :
  filter P (flat_map f l) = flat_map (λ x, filter P (f x)) l.
Proof. induction l as [|x l IH]; simpl; [done|]. by rewrite filter_app, IH. Qed.

Lemma map_flat_map {A B C} (g : B → C) (f : A → list B) (l : list A) :
  map g (flat_map f l) = flat_map (λ x, map g (f x)) l.
Proof. induction l as [|x l IH]; simpl; [done|]. by rewrite List.map_app, IH. Qed.

Lemma flat_map_if {A B} (P : A → bool) (g : A → B) (l : list A) :
  flat_map (λ x, if P x then [g x] else []) l = map g (filter (λ x, P x) l).
Proof.
  induction l as [|x l IH]; simpl; [done|].
  rewrite filter_cons, IH. destruct (P x); simpl; by rewrite ?decide_True, ?decide_False.
Qed.

(** What [compareColumn] reports about one source column, read off the
    target's column list. *)
Lemma compareColumn_type_mismatch generator source target sCol :
  filter (λ d, SchemaDiff.type d = TYPE_MISMATCH)
    (SchemaComparator.compareColumn generator source (SchemaComparator.targetColumns target)
       [] sCol)
  = match sameNamed target sCol with
    | Some tCol =>
        if decide (TableColumn.udtName sCol ≠ TableColumn.udtName tCol)
        then [typeMismatch generator source sCol tCol] else []
    | None => []
    end.
Proof.
  unfold SchemaComparator.compareColumn, SchemaComparator.targetColumns, sameNamed.
  rewrite (newMap_lookup_last TableColumn.name).
  destruct (last _) as [tCol|]; [|done].
  unfold typeMismatch, quoted, expectedQuote, DQ.
  repeat case_bool_decide; case_decide; try done;
    cbn [app]; rewrite ?filter_cons, ?filter_nil; repeat case_decide; try done.
  all: by rewrite ?app_assoc_str.
Qed.

Lemma compareColumn_names generator source targetCols sCol :
  Forall (λ d, SchemaDiff.column d = Some (TableColumn.name sCol))
    (SchemaComparator.compareColumn generator source targetCols [] sCol).
Proof.
  unfold SchemaComparator.compareColumn.
  destruct (targetCols !! _); repeat case_bool_decide; repeat constructor.
Qed.

Lemma compareColumn_found generator source targetCols sCol tCol :
  targetCols !! TableColumn.name sCol = Some tCol →
  Forall (λ d, SchemaDiff.type d ≠ MISSING_COLUMN)
    (SchemaComparator.compareColumn generator source targetCols [] sCol).
Proof.
  intros Hfound. unfold SchemaComparator.compareColumn. rewrite Hfound.
  repeat case_bool_decide; repeat constructor; done.
Qed.

(** C6.  The TYPE_MISMATCH diffs [compareColumns] appends are, in column
    order, one for each source column whose same-named target column has
    another underlying catalog type name ([udtName]), each with the two
    display types as expected and actual value.  So for a source column and
    the target column of its name (column names being distinct within a
    table) a TYPE_MISMATCH naming the column is appended if and only if the
    two [udtName]s differ, it is then exactly one, and no MISSING_COLUMN is
    reported for the pair; display type, character length and numeric
    precision play no part. *)
Theorem compareColumns_type_mismatch_iff_udtName (generator : IDDLGenerator)
    (source target : TableMetadata) :
  (∀ diffs,
     SchemaComparator.compareColumns generator source target diffs
     = diffs ++ SchemaComparator.compareColumns generator source target [])
  ∧ filter (λ d, SchemaDiff.type d = TYPE_MISMATCH)
      (SchemaComparator.compareColumns generator source target [])
    = flat_map
        (λ sCol, match sameNamed target sCol with
                 | Some tCol =>
                     if decide (TableColumn.udtName sCol ≠ TableColumn.udtName tCol)
                     then [typeMismatch generator source sCol tCol] else []
                 | None => []
                 end)
        (TableMetadata.columns source)
  ∧ (∀ sCol tCol,
       NoDup (map TableColumn.name (TableMetadata.columns source)) →
       NoDup (map TableColumn.name (TableMetadata.columns target)) →
       sCol ∈ TableMetadata.columns source →
       tCol ∈ TableMetadata.columns target →
       TableColumn.name sCol = TableColumn.name tCol →
       let diffs := SchemaComparator.compareColumns generator source target [] in
       ((∃ d, d ∈ diffs ∧ mismatchOf (TableColumn.name sCol) d)
        ↔ TableColumn.udtName sCol ≠ TableColumn.udtName tCol)
       ∧ filter (mismatchOf (TableColumn.name sCol)) diffs
         = (if decide (TableColumn.udtName sCol ≠ TableColumn.udtName tCol)
            then [typeMismatch generator source sCol tCol] else [])
       ∧ (∀ d, d ∈ diffs → SchemaDiff.column d = Some (TableColumn.name sCol) →
               SchemaDiff.type d ≠ MISSING_COLUMN)).
Proof.
  split; [|split].
  - intros diffs. by rewrite compareColumns_layout, (compareColumns_layout _ _ _ []).
  - rewrite compareColumns_layout, app_nil_l, filter_flat_map.
    apply flat_map_ext. intros sCol. apply compareColumn_type_mismatch.
  - intros sCol tCol Hsource Htarget HsCol HtCol Hname diffs.
    assert (SchemaComparator.targetColumns target !! TableColumn.name sCol = Some tCol)
      as Hfound.
    { rewrite Hname. by apply (newMap_lookup_keyed TableColumn.name). }
    assert (sameNamed target sCol = Some tCol) as Hpair.
    { unfold sameNamed. rewrite <- (newMap_lookup_last TableColumn.name). exact Hfound. }
    assert (∀ c d, c ∈ TableMetadata.columns source →
                   d ∈ SchemaComparator.compareColumn generator source
                         (SchemaComparator.targetColumns target) [] c →
                   SchemaDiff.column d = Some (TableColumn.name sCol) → c = sCol) as Hown.
    { intros c d Hc Hd Hcolumn.
      pose proof (compareColumn_names generator source
                    (SchemaComparator.targetColumns target) c) as Hnames.
      rewrite Forall_forall in Hnames. rewrite (Hnames d Hd) in Hcolumn.
      injection Hcolumn as Hcolumn.
      by apply (NoDup_key_inj TableColumn.name (TableMetadata.columns source)). }
    assert (filter (mismatchOf (TableColumn.name sCol)) diffs
            = (if decide (TableColumn.udtName sCol ≠ TableColumn.udtName tCol)
               then [typeMismatch generator source sCol tCol] else [])) as Hfilter.
    { unfold diffs. rewrite compareColumns_layout, app_nil_l, filter_flat_map.
      apply list_elem_of_split in HsCol as (l1 & l2 & Hsplit).
      assert (∀ c, c ∈ l1 ++ l2 → c ≠ sCol) as Hother.
      { intros c Hc ->. rewrite Hsplit in Hsource.
        rewrite map_app in Hsource. simpl in Hsource.
        apply NoDup_app in Hsource as (_ & Hapart & Hrest).
        apply NoDup_cons in Hrest as [Hrest _].
        apply elem_of_app in Hc as [Hc|Hc].
        - apply (Hapart (TableColumn.name sCol)); [|apply list_elem_of_here].
          apply list_elem_of_fmap. by exists sCol.
        - apply Hrest. apply list_elem_of_fmap. by exists sCol. }
      assert (∀ l, (∀ c, c ∈ l → c ∈ TableMetadata.columns source ∧ c ≠ sCol) →
                   flat_map (λ x, filter (mismatchOf (TableColumn.name sCol))
                                    (SchemaComparator.compareColumn generator source
                                       (SchemaComparator.targetColumns target) [] x)) l
                   = []) as Hnone.
      { intros l Hl. apply flat_map_nil. intros c Hc. destruct (Hl c Hc) as [Hin Hne].
        apply filter_none. apply Forall_forall. intros d Hd [_ Hcolumn].
        by apply Hne, (Hown c d). }
      rewrite Hsplit, flat_map_app. cbn [flat_map].
      rewrite !Hnone.
      2:{ intros c Hc. split; [|apply Hother; apply elem_of_app; by right].
          rewrite Hsplit. apply elem_of_app. right. by apply list_elem_of_further. }
      2:{ intros c Hc. split; [|apply Hother; apply elem_of_app; by left].
          rewrite Hsplit. apply elem_of_app. by left. }
      rewrite app_nil_l, app_nil_r.
      rewrite (filter_ext_elem (mismatchOf (TableColumn.name sCol))
                 (λ d, SchemaDiff.type d = TYPE_MISMATCH)).
      2:{ eapply Forall_impl; [apply compareColumn_names|].
          simpl. intros d Hd. unfold mismatchOf. rewrite Hd. tauto. }
      by rewrite compareColumn_type_mismatch, Hpair. }
    split; [|split].
    + split.
      * intros (d & Hd & Hmismatch).
        assert (d ∈ filter (mismatchOf (TableColumn.name sCol)) diffs) as Hin
          by by apply list_elem_of_filter.
        rewrite Hfilter in Hin. case_decide; [done|by apply elem_of_nil in Hin].
      * intros Hdiffer. exists (typeMismatch generator source sCol tCol).
        assert (typeMismatch generator source sCol tCol
                  ∈ filter (mismatchOf (TableColumn.name sCol)) diffs) as Hin.
        { rewrite Hfilter, decide_True by done. apply list_elem_of_here. }
        by apply list_elem_of_filter in Hin as [? ?].
    + exact Hfilter.
    + intros d Hd Hcolumn. unfold diffs in Hd.
      rewrite compareColumns_layout, app_nil_l in Hd.
      apply list_elem_of_In, in_flat_map in Hd as (c & Hc & Hd).
      apply list_elem_of_In in Hc. apply list_elem_of_In in Hd.
      assert (c = sCol) as -> by by apply (Hown c d).
      pose proof (compareColumn_found generator source _ sCol tCol Hfound) as Hnot.
      rewrite Forall_forall in Hnot. by apply Hnot.
Qed.

(** A [varchar] column against a [text] column of its name is reported; the
    same column against one that differs in display type, length and
    precision only is not. *)
Lemma compareColumns_type_mismatch_iff_udtName_witness :
  filter (mismatchOf "title")
    (SchemaComparator.compareColumns PostgresDDLGenerator.generator
       (books varchar_col) (books text_col) [])
  = [typeMismatch PostgresDDLGenerator.generator (books varchar_col) varchar_col text_col]
  ∧ filter (mismatchOf "title")
      (SchemaComparator.compareColumns PostgresDDLGenerator.generator
         (books varchar_col) (books varchar_col_wide) [])
    = [].
Proof.
  split.
  - apply (proj2 (proj2 (compareColumns_type_mismatch_iff_udtName
                           PostgresDDLGenerator.generator (books varchar_col) (books text_col)))
             varchar_col text_col).
    + apply (bool_decide_unpack _). vm_compute. exact I.
    + apply (bool_decide_unpack _). vm_compute. exact I.
    + apply list_elem_of_here.
    + apply list_elem_of_here.
    + reflexivity.
  - apply (proj2 (proj2 (compareColumns_type_mismatch_iff_udtName
                           PostgresDDLGenerator.generator (books varchar_col)
                           (books varchar_col_wide)))
             varchar_col varchar_col_wide).
    + apply (bool_decide_unpack _). vm_compute. exact I.
    + apply (bool_decide_unpack _). vm_compute. exact I.
    + apply list_elem_of_here.
    + apply list_elem_of_here.
    + reflexivity.
Defined.

Example varchar_against_text :
  map SchemaDiff.type
    (SchemaComparator.compareColumns PostgresDDLGenerator.generator
       (books varchar_col) (books text_col) [])
  = [TYPE_MISMATCH].
Proof. vm_compute. reflexivity. Qed.

Example same_udtName_other_display :
  SchemaComparator.compareColumns PostgresDDLGenerator.generator
    (books varchar_col) (books varchar_col_wide) []
  = [].
Proof. vm_compute. reflexivity. Qed.

(** * Every diff comes from the source side *)

Lemma elem_of_newSet (names : list string) (k : string) :
  k ∈ SchemaComparator.newSet names ↔ k ∈ names.
Proof. unfold SchemaComparator.newSet. apply elem_of_list_to_set. Qed.

Section OneDirectional.
Variable generator : IDDLGenerator.
Variable sourceInspector targetInspector : ISchemaInspector.
Variable sourceSchema targetSchema : string.

Lemma compareColumn_fromSource t targetCols sCol :
  t ∈ listTables sourceInspector sourceSchema None →
  sCol ∈ TableMetadata.columns (getTableMetadata sourceInspector sourceSchema t) →
  Forall (fromSource sourceInspector sourceSchema)
    (SchemaComparator.compareColumn generator (getTableMetadata sourceInspector sourceSchema t) targetCols [] sCol).
Proof.
  intros Ht Hc. unfold SchemaComparator.compareColumn.
  destruct (targetCols !! _) as [tCol|].
  - repeat destruct (bool_decide _); simpl; repeat constructor; by exists t, sCol.
  - repeat constructor. by exists t, sCol.
Qed.

Lemma compareConstraint_fromSource t targetConstraints c :
  t ∈ listTables sourceInspector sourceSchema None →
  c ∈ TableMetadata.constraints (getTableMetadata sourceInspector sourceSchema t) →
  Forall (fromSource sourceInspector sourceSchema)
    (SchemaComparator.compareConstraint generator (getTableMetadata sourceInspector sourceSchema t) targetConstraints [] c).
Proof.
  intros Ht Hc. unfold SchemaComparator.compareConstraint.
  destruct (bool_decide _); repeat constructor. by exists t, c.
Qed.

Lemma compareIndex_fromSource t targetIndexes i :
  t ∈ listTables sourceInspector sourceSchema None →
  i ∈ TableMetadata.indexes (getTableMetadata sourceInspector sourceSchema t) →
  Forall (fromSource sourceInspector sourceSchema)
    (SchemaComparator.compareIndex (getTableMetadata sourceInspector sourceSchema t) targetIndexes [] i).
Proof.
  intros Ht Hi. unfold SchemaComparator.compareIndex.
  destruct (bool_decide _); repeat constructor. by exists t, i.
Qed.

Lemma compareFunction_fromSource targetFuncMap f :
  f ∈ listFunctions sourceInspector sourceSchema →
  Forall (fromSource sourceInspector sourceSchema)
    (SchemaComparator.compareFunction targetFuncMap [] f).
Proof.
  intros Hf. unfold SchemaComparator.compareFunction.
  destruct (targetFuncMap !! _); [destruct (bool_decide _)|]; repeat constructor; by exists f.
Qed.

Lemma compareTrigger_fromSource targetTrigMap t :
  t ∈ listTriggers sourceInspector sourceSchema →
  Forall (fromSource sourceInspector sourceSchema)
    (SchemaComparator.compareTrigger generator targetTrigMap [] t).
Proof.
  intros Ht. unfold SchemaComparator.compareTrigger.
  destruct (targetTrigMap !! _); [destruct (bool_decide _)|]; repeat constructor; by exists t.
Qed.

Lemma Forall_flat_map_elem {A B} (P : B → Prop) (f : A → list B) (l : list A) :
  (∀ x, x ∈ l → Forall P (f x)) → Forall P (flat_map f l).
Proof.
  intros H. apply Forall_flat_map, Forall_forall. intros x Hx. by apply H.
Qed.

Lemma compareTable_fromSource targetTables t :
  t ∈ listTables sourceInspector sourceSchema None →
  Forall (fromSource sourceInspector sourceSchema)
    (SchemaComparator.compareTable generator sourceInspector targetInspector
       sourceSchema targetSchema targetTables [] t).
Proof.
  intros Ht. destruct (decide (t ∈ targetTables)) as [Hin|Hout].
  - rewrite compareTable_present by done.
    rewrite compareColumns_layout, compareConstraints_layout, compareIndexes_layout.
    rewrite !app_nil_l.
    apply Forall_app_2; [|apply Forall_app_2]; apply Forall_flat_map_elem; intros x Hx.
    + by apply compareColumn_fromSource.
    + by apply compareConstraint_fromSource.
    + by apply compareIndex_fromSource.
  - unfold SchemaComparator.compareTable. rewrite bool_decide_eq_true_2 by done.
    repeat constructor. by exists t.
Qed.

Lemma flat_map_ext_elem {A B} (f g : A → list B) (l : list A) :
  (∀ x, x ∈ l → f x = g x) → flat_map f l = flat_map g l.
Proof.
  induction l as [|x l IH]; simpl; intros H; [done|].
  rewrite H, IH; [done| |apply list_elem_of_here].
  intros y Hy. apply H. by apply list_elem_of_further.
Qed.

Lemma bool_decide_not_iff (P Q : Prop) `{!Decision P, !Decision Q} :
  (P ↔ Q) → bool_decide (¬ P) = bool_decide (¬ Q).
Proof. intros H. apply bool_decide_ext. tauto. Qed.

(** The comparison consults a target only under the names of source objects. *)
Lemma compare_agreeOnSource (target' : ISchemaInspector) :
  agreeOnSource sourceInspector sourceSchema targetInspector target' targetSchema →
  SchemaComparator.compare generator sourceInspector target' sourceSchema targetSchema
  = SchemaComparator.compare generator sourceInspector targetInspector sourceSchema targetSchema.
Proof.
  intros (Htables & Hfuncs & Htrigs).
  assert (∀ r1 r2 : ComparisonResult,
            ComparisonResult.sourceDb r1 = ComparisonResult.sourceDb r2 →
            ComparisonResult.targetDb r1 = ComparisonResult.targetDb r2 →
            ComparisonResult.diffs r1 = ComparisonResult.diffs r2 → r1 = r2) as Hrec.
  { intros [] []; simpl; by intros -> -> ->. }
  apply Hrec; [done..|].
  rewrite !compare_layout, !compareFunctions_layout, !compareTriggers_layout.
  f_equal; [|f_equal; f_equal].
  - apply flat_map_ext_elem. intros t Ht.
    destruct (Htables t Ht) as [Hlisted Hmeta].
    destruct (decide (t ∈ listTables targetInspector targetSchema None)) as [Hin|Hout].
    + rewrite !compareTable_present by tauto.
      destruct (Hmeta Hin) as (Hcols & Hcons & Hidx).
      rewrite !compareColumns_layout, !compareConstraints_layout, !compareIndexes_layout.
      f_equal; [|f_equal]; f_equal; apply flat_map_ext_elem; intros x Hx.
      * unfold SchemaComparator.compareColumn. by rewrite Hcols.
      * unfold SchemaComparator.compareConstraint.
        rewrite (bool_decide_not_iff
                   (TableConstraint.name x ∈ SchemaComparator.targetConstraintNames
                      (getTableMetadata target' targetSchema t))
                   (TableConstraint.name x ∈ SchemaComparator.targetConstraintNames
                      (getTableMetadata targetInspector targetSchema t))); [done|].
        unfold SchemaComparator.targetConstraintNames. rewrite !elem_of_newSet. by apply Hcons.
      * unfold SchemaComparator.compareIndex.
        rewrite (bool_decide_not_iff
                   (TableIndex.name x ∈ SchemaComparator.newSet
                      (map TableIndex.name
                         (TableMetadata.indexes (getTableMetadata target' targetSchema t))))
                   (TableIndex.name x ∈ SchemaComparator.newSet
                      (map TableIndex.name
                         (TableMetadata.indexes (getTableMetadata targetInspector targetSchema t)))));
          [done|].
        rewrite !elem_of_newSet. by apply Hidx.
    + unfold SchemaComparator.compareTable.
      rewrite !bool_decide_eq_true_2 by tauto. done.
  - apply flat_map_ext_elem. intros f Hf.
    unfold SchemaComparator.compareFunction. by rewrite Hfuncs.
  - apply flat_map_ext_elem. intros t Ht.
    unfold SchemaComparator.compareTrigger. by rewrite Htrigs.
Qed.

(** Every diff of a comparison names an object of the source side. *)
Lemma compare_diffs_from_source :
  Forall (fromSource sourceInspector sourceSchema)
    (ComparisonResult.diffs
       (SchemaComparator.compare generator sourceInspector targetInspector
          sourceSchema targetSchema)).
Proof.
  rewrite compare_layout, compareFunctions_layout, compareTriggers_layout.
  rewrite !app_nil_l.
  apply Forall_app_2; [|apply Forall_app_2]; apply Forall_flat_map_elem; intros x Hx.
  - by apply compareTable_fromSource.
  - by apply compareFunction_fromSource.
  - by apply compareTrigger_fromSource.
Qed.

End OneDirectional.

(** A table, a function and a trigger that only the target holds, under names
    the source does not use, leave the comparison of [books] as it is. *)
Example target_only_objects_under_other_names :
  SchemaComparator.compare PostgresDDLGenerator.generator library_source library_target_plus
    "public" "public"
  = SchemaComparator.compare PostgresDDLGenerator.generator library_source library_target
      "public" "public".
Proof.
  apply compare_agreeOnSource.
  split; [|split].
  - intros t Ht. apply list_elem_of_singleton in Ht as ->. split.
    + split; intros _; [apply list_elem_of_here | apply list_elem_of_here].
    + intros _. split; [|split]; intros x Hx; reflexivity.
  - intros f Hf. by apply elem_of_nil in Hf.
  - intros t Ht. by apply elem_of_nil in Ht.
Qed.

(** C9 fails on the code.  Every diff names an object of the source, but an
    object present only in the target can produce one.  The source holds the
    function [area(side)]; the target holds the same function and, besides,
    the overload [area(w, h)], which the source does not have.  Against a
    target without the overload the comparison is empty; the overload, being
    listed last under the name [area], takes the place of the target's
    [area(side)] in the lookup map, and the comparison reports a
    FUNCTION_MISMATCH. *)
Theorem target_only_overload_produces_diff :
  listFunctions square_schema "public" = [area_of_square]
  ∧ listFunctions overloaded_schema "public" = [area_of_square; area_of_rectangle]
  ∧ ComparisonResult.diffs
      (SchemaComparator.compare PostgresDDLGenerator.generator
         square_schema square_schema "public" "public")
    = []
  ∧ ComparisonResult.diffs
      (SchemaComparator.compare PostgresDDLGenerator.generator
         square_schema overloaded_schema "public" "public")
    = [SchemaDiff.mk FUNCTION_MISMATCH (Some "-") (Some "area") None None
         (Some ("Function " +:+ expectedQuote +:+ "area" +:+ expectedQuote
            +:+ " definition mismatch."))
         (Some (DatabaseObject.definition area_of_square +:+ ";"))].
Proof. repeat split; vm_compute; reflexivity. Qed.

(** * Missing constraints *)

Lemma generateConstraintFix_kinds (type : DbType) (table schema : string) (c : TableConstraint) :
  (TableConstraint.type c ≠ CHECK →
   addConstraintFix (TableConstraint.type c)
     (generateConstraintFix (EngineFactory.createGenerator type) table schema c))
  ∧ (TableConstraint.type c = CHECK →
     generateConstraintFix (EngineFactory.createGenerator type) table schema c = "").
Proof.
  unfold addConstraintFix.
  destruct type; simpl;
    unfold PostgresDDLGenerator.generateConstraintFix, OracleDDLGenerator.generateConstraintFix,
      OracleDDLGenerator.primaryKeyStatement, OracleDDLGenerator.foreignKeyStatement,
      OracleDDLGenerator.uniqueStatement;
    destruct (TableConstraint.type c); (split; [intros Hk|done]); try done;
    eexists _, _, _; reflexivity.
Qed.

Lemma not_addConstraintFix_empty (k : ConstraintType) : ¬ addConstraintFix k "".
Proof. intros (target & ident & tail & Heq). discriminate. Qed.

Lemma compareConstraint_columns generator source targetConstraints c :
  map SchemaDiff.column
    (SchemaComparator.compareConstraint generator source targetConstraints [] c)
  = if decide (TableConstraint.name c ∉ targetConstraints)
    then [Some (TableConstraint.name c)] else [].
Proof.
  unfold SchemaComparator.compareConstraint.
  destruct (decide _) as [H|H];
    [rewrite (bool_decide_eq_true_2 _ H) | rewrite (bool_decide_eq_false_2 _ H)]; done.
Qed.

Lemma flat_map_decide {A B} (P : A → Prop) `{!∀ x, Decision (P x)} (g : A → B) (l : list A) :
  flat_map (λ x, if decide (P x) then [g x] else []) l = map g (filter P l).
Proof.
  induction l as [|x l IH]; simpl; [done|].
  rewrite filter_cons, IH. by destruct (decide (P x)).
Qed.

(** C4 (amended).  For every source constraint whose name is absent from the
    same-named target table's constraints, the comparison appends one
    MISSING_CONSTRAINT diff naming it (the diffs of [compareConstraints] are,
    in order, one per absent source constraint), and the diff is among those
    [compare] returns when both sides list the table.  For a PRIMARY KEY,
    FOREIGN KEY or UNIQUE constraint the diff's fix is the
    [ALTER TABLE ... ADD CONSTRAINT] statement of that kind; for a CHECK
    constraint the fix is the empty text. *)
Theorem missing_constraint_diff (type : DbType) (sourceInspector targetInspector : ISchemaInspector)
    (sourceSchema targetSchema tableName : string) (c : TableConstraint) :
  let generator := EngineFactory.createGenerator type in
  let source := getTableMetadata sourceInspector sourceSchema tableName in
  let target := getTableMetadata targetInspector targetSchema tableName in
  tableName ∈ listTables sourceInspector sourceSchema None →
  tableName ∈ listTables targetInspector targetSchema None →
  c ∈ TableMetadata.constraints source →
  absentIn target c →
  map SchemaDiff.column (SchemaComparator.compareConstraints generator source target [])
  = map (λ c, Some (TableConstraint.name c)) (filter (absentIn target) (TableMetadata.constraints source))
  ∧ ∃ d,
      d ∈ SchemaComparator.compareConstraints generator source target []
      ∧ d ∈ ComparisonResult.diffs
              (SchemaComparator.compare generator sourceInspector targetInspector
                 sourceSchema targetSchema)
      ∧ SchemaDiff.type d = MISSING_CONSTRAINT
      ∧ SchemaDiff.table d = Some (TableMetadata.name source)
      ∧ SchemaDiff.column d = Some (TableConstraint.name c)
      ∧ SchemaDiff.fix_ d
        = Some (generateConstraintFix generator (TableMetadata.name source)
                  (TableMetadata.schema source) c)
      ∧ (TableConstraint.type c ≠ CHECK →
         addConstraintFix (TableConstraint.type c)
           (generateConstraintFix generator (TableMetadata.name source)
              (TableMetadata.schema source) c))
      ∧ (TableConstraint.type c = CHECK → SchemaDiff.fix_ d = Some "").
Proof.
  intros generator source target Hsrc Htgt Hc Habsent. split.
  - rewrite compareConstraints_layout, app_nil_l, map_flat_map.
    rewrite <- (flat_map_decide (absentIn target)).
    apply flat_map_ext. intros c'. apply compareConstraint_columns.
  - destruct (generateConstraintFix_kinds type (TableMetadata.name source)
                (TableMetadata.schema source) c) as [Hfix Hcheck].
    eexists (SchemaDiff.mk MISSING_CONSTRAINT _ _ None None _ _).
    assert (∀ d, d ∈ SchemaComparator.compareConstraint generator source
                       (SchemaComparator.targetConstraintNames target) [] c →
                 d ∈ SchemaComparator.compareConstraints generator source target []) as Hsub.
    { intros d Hd. rewrite compareConstraints_layout, app_nil_l.
      apply list_elem_of_In, in_flat_map. exists c. by rewrite <- !list_elem_of_In. }
    assert (∀ d, d ∈ SchemaComparator.compareConstraints generator source target [] →
                 d ∈ ComparisonResult.diffs
                       (SchemaComparator.compare generator sourceInspector targetInspector
                          sourceSchema targetSchema)) as Hsub'.
    { intros d Hd. rewrite compare_layout. apply elem_of_app. left.
      apply list_elem_of_In, in_flat_map. exists tableName.
      rewrite <- !list_elem_of_In. split; [done|].
      rewrite compareTable_present by done. rewrite !elem_of_app. auto. }
    assert (SchemaComparator.compareConstraint generator source
              (SchemaComparator.targetConstraintNames target) [] c
            = [SchemaDiff.mk MISSING_CONSTRAINT (Some (TableMetadata.name source))
                 (Some (TableConstraint.name c)) None None
                 (Some ("Constraint " +:+ quoted (TableConstraint.name c) +:+ " ("
                          +:+ ConstraintType_text (TableConstraint.type c)
                          +:+ ") is missing in target."))
                 (Some (generateConstraintFix generator (TableMetadata.name source)
                          (TableMetadata.schema source) c))]) as Hone.
    { unfold SchemaComparator.compareConstraint. by rewrite bool_decide_eq_true_2. }
    split; [apply Hsub; rewrite Hone; apply list_elem_of_here|].
    split; [apply Hsub', Hsub; rewrite Hone; apply list_elem_of_here|].
    simpl. repeat split; try done. intros Hk. f_equal. by apply Hcheck.
Qed.

(** On Oracle, the primary key missing from a bare target table is reported
    with its [ADD CONSTRAINT ... PRIMARY KEY] statement. *)
Lemma missing_constraint_diff_witness :
  ∃ d,
    d ∈ SchemaComparator.compareConstraints OracleDDLGenerator.generator
          invoices_source invoices_bare []
    ∧ SchemaDiff.column d = Some "INVOICES_PK"
    ∧ SchemaDiff.fix_ d
      = Some "ALTER TABLE INVOICES ADD CONSTRAINT INVOICES_PK PRIMARY KEY (ID);".
Proof.
  destruct (missing_constraint_diff oracle
              (Build_ISchemaInspector (λ _ _, ["INVOICES"]) (λ _ _, invoices_source)
                 (λ _, []) (λ _, []))
              (Build_ISchemaInspector (λ _ _, ["INVOICES"]) (λ _ _, invoices_bare)
                 (λ _, []) (λ _, []))
              "USER" "USER" "INVOICES" invoices_pk)
    as (_ & d & Hd & _ & _ & _ & Hcol & Hfix & _).
  - apply list_elem_of_here.
  - apply list_elem_of_here.
  - apply list_elem_of_here.
  - vm_compute. intros H. discriminate H.
  - exists d. split; [exact Hd|]. split; [exact Hcol | exact Hfix].
Defined.

(** C4, as stated, fails for a CHECK constraint: the diff reported for the
    check constraint missing from the target has the empty text as its fix,
    which is no [ADD CONSTRAINT] statement. *)
Lemma missing_check_constraint_has_empty_fix :
  invoices_amount_ck ∈ TableMetadata.constraints invoices_source
  ∧ absentIn invoices_target invoices_amount_ck
  ∧ SchemaComparator.compareConstraints OracleDDLGenerator.generator
      invoices_source invoices_target []
    = [SchemaDiff.mk MISSING_CONSTRAINT (Some "INVOICES") (Some "INVOICES_AMOUNT_CK") None None
         (Some ("Constraint " +:+ quoted "INVOICES_AMOUNT_CK" +:+ " (CHECK) is missing in target."))
         (Some "")]
  ∧ ¬ addConstraintFix CHECK "".
Proof.
  split; [apply list_elem_of_further, list_elem_of_here|].
  split; [vm_compute; intros H; discriminate H|].
  split; [vm_compute; reflexivity|].
  apply not_addConstraintFix_empty.
Qed.

(** * Comparing a schema with itself *)

Lemma compareColumns_self generator (meta : TableMetadata) :
  NoDup (map TableColumn.name (TableMetadata.columns meta)) →
  SchemaComparator.compareColumns generator meta meta [] = [].
Proof.
  intros Hnodup. rewrite compareColumns_layout, app_nil_l.
  apply flat_map_nil. intros sCol Hin.
  unfold SchemaComparator.compareColumn, SchemaComparator.targetColumns.
  rewrite (newMap_lookup_keyed TableColumn.name) by done.
  by rewrite !bool_decide_eq_false_2 by (intros H; by apply H).
Qed.

Lemma compareConstraints_self generator (meta : TableMetadata) :
  SchemaComparator.compareConstraints generator meta meta [] = [].
Proof.
  rewrite compareConstraints_layout, app_nil_l.
  apply flat_map_nil. intros c Hin. unfold SchemaComparator.compareConstraint.
  rewrite bool_decide_eq_false_2; [done|]. intros Hout. apply Hout.
  apply elem_of_newSet, list_elem_of_fmap. by exists c.
Qed.

Lemma compareIndexes_self (meta : TableMetadata) :
  SchemaComparator.compareIndexes meta meta [] = [].
Proof.
  rewrite compareIndexes_layout, app_nil_l.
  apply flat_map_nil. intros i Hin. unfold SchemaComparator.compareIndex.
  rewrite bool_decide_eq_false_2; [done|]. intros Hout. apply Hout.
  apply elem_of_newSet, list_elem_of_fmap. by exists i.
Qed.

(** Away from name collisions a schema compared with itself shows no diff. *)
Lemma compare_self_distinct_names (generator : IDDLGenerator) (inspector : ISchemaInspector)
    (schema : string) :
  distinctNames inspector schema →
  ComparisonResult.diffs (SchemaComparator.compare generator inspector inspector schema schema)
  = [].
Proof.
  intros (Hcols & Hfuncs & Htrigs).
  rewrite compare_layout, compareFunctions_layout, compareTriggers_layout, !app_nil_l.
  rewrite !flat_map_nil; [done| | |].
  - intros t Ht. unfold SchemaComparator.compareTrigger.
    rewrite (newMap_lookup_keyed SchemaComparator.triggerKey) by done.
    by rewrite bool_decide_eq_false_2 by (intros H; by apply H).
  - intros f Hf. unfold SchemaComparator.compareFunction.
    rewrite (newMap_lookup_keyed DatabaseObject.name) by done.
    by rewrite bool_decide_eq_false_2 by (intros H; by apply H).
  - intros t Ht. rewrite compareTable_present by done.
    by rewrite compareColumns_self, compareConstraints_self, compareIndexes_self by auto.
Qed.

(** C5 fails on the code.  A schema that holds two overloads of a function
    is structurally identical to itself, yet comparing it with itself reports
    a FUNCTION_MISMATCH: the target functions are keyed by name alone, the
    second overload replaces the first in the lookup map, and the first source
    overload is then compared with the second one's definition. *)
Theorem self_comparison_reports_overloaded_function :
  ComparisonResult.diffs
    (SchemaComparator.compare PostgresDDLGenerator.generator
       overloaded_schema overloaded_schema "public" "public")
  = [SchemaDiff.mk FUNCTION_MISMATCH (Some "-") (Some "area") None None
       (Some ("Function " +:+ quoted "area" +:+ " definition mismatch."))
       (Some (DatabaseObject.definition area_of_square +:+ ";"))].
Proof. vm_compute. reflexivity. Qed.

(** * Formatting of values *)

Lemma formatValue_unfold (val : JsValue) (type : string) :
  PostgresExtractor.formatValue val type
  = if JsValue.isNullish val then "NULL"
    else
      let t := Js.toLowerCase type in
      if String.eqb t "boolean" then (if JsValue.truthy val then "TRUE" else "FALSE")
      else if PostgresExtractor.numericLike t then JsValue.toString val
      else if Js.includes t "json" then
        "'" +:+ Js.doubleQuotes (JsValue.stringify val) +:+ "'::" +:+ t
      else if String.eqb t "bytea" then
        match val with
        | JsBuffer bytes => "'\x" +:+ JsValue.hex bytes +:+ "'"
        | _ => PostgresExtractor.quotedText val
        end
      else
        match val with
        | JsArray l =>
            "ARRAY[" +:+ Js.join "," (map (λ v, PostgresExtractor.formatValue v "text") l) +:+ "]"
        | _ => PostgresExtractor.quotedText val
        end.
Proof. by destruct val. Qed.

Lemma doubleQuotes_count (s : string) :
  Js.count_char "'" (Js.doubleQuotes s) = 2 * Js.count_char "'" s.
Proof.
  induction s as [|c s IH]; [done|]. simpl.
  destruct (Ascii.eqb c "'") eqn:Hc; simpl; rewrite ?Hc, IH; lia.
Qed.

Lemma undoubleQuotes_other (c : ascii) (s : string) :
  c ≠ "'"%char → Js.undoubleQuotes (String c s) = String c (Js.undoubleQuotes s).
Proof.
  intros Hc. destruct s as [|c' r]; [done|].
  change (Js.undoubleQuotes (String c (String c' r)))
    with (if Ascii.eqb c "'" && Ascii.eqb c' "'" then String "'" (Js.undoubleQuotes r)
          else String c (Js.undoubleQuotes (String c' r))).
  by rewrite (proj2 (Ascii.eqb_neq _ _) Hc).
Qed.

Lemma doubleQuotes_undo (s : string) : Js.undoubleQuotes (Js.doubleQuotes s) = s.
Proof.
  induction s as [|c s IH]; [done|]. simpl.
  destruct (Ascii.eqb_spec c "'") as [->|Hc].
  - simpl. by rewrite IH.
  - by rewrite undoubleQuotes_other, IH.
Qed.

(** The formatter's cascade, branch by branch, with the tests as the code
    writes them. *)
Lemma formatValue_cases (val : JsValue) (type : string) :
  let t := Js.toLowerCase type in
  (JsValue.isNullish val = true → PostgresExtractor.formatValue val type = "NULL")
  ∧ (JsValue.isNullish val = false → t = "boolean" →
     PostgresExtractor.formatValue val type = if JsValue.truthy val then "TRUE" else "FALSE")
  ∧ (JsValue.isNullish val = false → t ≠ "boolean" → PostgresExtractor.numericLike t = true →
     PostgresExtractor.formatValue val type = JsValue.toString val)
  ∧ (JsValue.isNullish val = false → t ≠ "boolean" → PostgresExtractor.numericLike t = false →
     Js.includes t "json" = true →
     PostgresExtractor.formatValue val type
     = "'" +:+ Js.doubleQuotes (JsValue.stringify val) +:+ "'::" +:+ t)
  ∧ (∀ bytes, val = JsBuffer bytes → t = "bytea" →
     PostgresExtractor.formatValue val type = "'\x" +:+ JsValue.hex bytes +:+ "'")
  ∧ (∀ l, val = JsArray l → t ≠ "boolean" → PostgresExtractor.numericLike t = false →
     Js.includes t "json" = false → t ≠ "bytea" →
     PostgresExtractor.formatValue val type
     = "ARRAY[" +:+ Js.join "," (map (λ v, PostgresExtractor.formatValue v "text") l) +:+ "]")
  ∧ (JsValue.isNullish val = false → t ≠ "boolean" → PostgresExtractor.numericLike t = false →
     Js.includes t "json" = false →
     (∀ bytes, val = JsBuffer bytes → t ≠ "bytea") → (∀ l, val = JsArray l → t = "bytea") →
     PostgresExtractor.formatValue val type
     = "'" +:+ Js.doubleQuotes (JsValue.toString val) +:+ "'").
Proof.
  intros t. rewrite formatValue_unfold. cbv zeta. fold t. clearbody t.
  repeat split.
  - by intros ->.
  - intros -> ->. done.
  - intros -> Hb ->. by rewrite (proj2 (String.eqb_neq _ _) Hb).
  - intros -> Hb -> ->. by rewrite (proj2 (String.eqb_neq _ _) Hb).
  - intros bytes -> ->. done.
  - intros l -> Hb -> -> Hy.
    by rewrite (proj2 (String.eqb_neq _ _) Hb), (proj2 (String.eqb_neq _ _) Hy).
  - intros -> Hb -> -> Hbuf Harr. rewrite (proj2 (String.eqb_neq _ _) Hb).
    destruct (String.eqb_spec t "bytea") as [Hy|Hy].
    + destruct val; try done. by destruct (Hbuf bytes eq_refl).
    + destruct val; try done. by destruct Hy, (Harr elements eq_refl).
Qed.

(** C8 fails on the code.  A value of a column declared [interval] is neither
    null, nor of a boolean, integer, decimal, numeric, real or double type,
    nor JSON, nor binary, nor an array; the claim has it single-quoted.  The
    formatter tests the type name for the substring [int], which [interval]
    contains, and emits the value's text without quotes. *)
Theorem formatValue_interval_unquoted :
  PostgresExtractor.formatValue (JsString "1 day") "interval" = "1 day"
  ∧ PostgresExtractor.formatValue interval_object "interval" = "[object Object]"
  ∧ PostgresExtractor.formatValue (JsString "1 day") "text" = "'1 day'"
  ∧ PostgresExtractor.formatInsert shifts shift_row
    = "INSERT INTO public.shifts (" +:+ quoted "id" +:+ ", " +:+ quoted "duration"
        +:+ ") VALUES (7, [object Object]);".
Proof. repeat split; vm_compute; reflexivity. Qed.

Example formatValue_samples :
  PostgresExtractor.formatValue JsNull "text" = "NULL"
  ∧ PostgresExtractor.formatValue (JsBool false) "BOOLEAN" = "FALSE"
  ∧ PostgresExtractor.formatValue (JsNumber (-12)) "bigint" = "-12"
  ∧ PostgresExtractor.formatValue (JsString "10.50") "numeric" = "10.50"
  ∧ PostgresExtractor.formatValue (JsString "it's") "character varying" = "'it''s'"
  ∧ PostgresExtractor.formatValue (JsBuffer ["a"%char; "255"%char]) "bytea" = "'\x61ff'"
  ∧ PostgresExtractor.formatValue (JsArray [JsString "a'b"; JsNull; JsArray [JsNumber 3]]) "ARRAY"
    = "ARRAY['a''b',NULL,ARRAY['3']]"
  ∧ PostgresExtractor.formatValue (JsArray [JsString "it's"; JsNumber 3]) "jsonb"
    = "'[" +:+ DQ +:+ "it''s" +:+ DQ +:+ ",3]'::jsonb".
Proof. repeat split; vm_compute; reflexivity. Qed.

(** * The text of a backup file *)

Lemma truthy_false_empty (s : string) : Orchestrator.truthy s = false → s = "".
Proof.
  unfold Orchestrator.truthy. rewrite negb_false_iff. apply String.eqb_eq.
Qed.

Lemma fileContent_map {A} (p : Phase) (f : A → string) (l : list A) :
  SQLWriter.fileContent (map (λ x, Build_Write p (f x)) l) = concatMap f l.
Proof. induction l as [|x l IH]; simpl; [done|]. by rewrite <- IH. Qed.

Lemma fileContent_flat_map {A} (g : A → list Write) (l : list A) :
  SQLWriter.fileContent (flat_map g l) = concatMap (λ x, SQLWriter.fileContent (g x)) l.
Proof.
  induction l as [|x l IH]; simpl; [done|]. by rewrite fileContent_app, IH.
Qed.

Lemma concatMap_ext {A} (f g : A → string) (l : list A) :
  (∀ x, x ∈ l → f x = g x) → concatMap f l = concatMap g l.
Proof.
  induction l as [|x l IH]; simpl; intros H; [done|].
  rewrite H, IH; [done| |apply list_elem_of_here].
  intros y Hy. apply H. by apply list_elem_of_further.
Qed.

(** A conditional write [if (sql) write(sql)] leaves the text [sql] in the
    file, written or not. *)
Lemma fileContent_guarded {A} (p : Phase) (f : A → string) (l : list A) :
  SQLWriter.fileContent
    (flat_map (λ x, if Orchestrator.truthy (f x) then [Build_Write p (f x)] else []) l)
  = concatMap f l.
Proof.
  rewrite fileContent_flat_map. apply concatMap_ext. intros x _.
  destruct (Orchestrator.truthy (f x)) eqn:Hx; simpl.
  - apply app_nil_r_str.
  - by rewrite (truthy_false_empty _ Hx).
Qed.

Lemma LF_expected : LF = expectedNewline.
Proof. reflexivity. Qed.

Lemma join_expected (sep : string) (l : list string) : Js.join sep l = expectedJoin sep l.
Proof.
  unfold Js.join. induction l as [|s [|s' r] IH]; [done|done|].
  change (String.concat sep (s :: s' :: r)) with (s +:+ sep +:+ String.concat sep (s' :: r)).
  by rewrite IH.
Qed.

Lemma schema_expected (config : DatabaseConfig) :
  Js.show_str (Js.or_str (schema config) (Some "public")) = effectiveSchema config.
Proof.
  unfold effectiveSchema, Js.or_str, Js.show_str, Js.truthy_str.
  destruct (schema config) as [s|]; [|done].
  destruct (decide (s = "")) as [->|Hs]; [done|].
  by rewrite (proj2 (String.eqb_neq _ _) Hs).
Qed.

(** X1.  The file a backup run leaves behind is, character for character:
    the four header lines (the second one carrying the time of the run), the
    database and schema statements of the engine's generator, then for the
    inspected tables in inspection order all sequence texts, all table texts,
    all data (each yielded chunk joined by newlines and closed by one, each
    table closed by an empty line), all index texts and all constraint texts,
    and the two footer lines.  The guards [if (sql)] of the run only skip
    empty writes: they do not change the text.  With no table to back up the
    file is the header, the database and schema statements and the footer. *)
Theorem backup_file_content (inspector : ISchemaInspector) (extractor : IDataExtractor)
    (config : DatabaseConfig) (now : string) :
  let ddlGen := EngineFactory.createGenerator (default postgres (dbType config)) in
  let schema := effectiveSchema config in
  let metas := map (getTableMetadata inspector schema)
                 (listTables inspector schema (tables config)) in
  let header :=
    "-- PERSISTOR PostgreSQL Backup" +:+ expectedNewline
      +:+ "-- Date: " +:+ now +:+ expectedNewline
      +:+ "-- --------------------------------------------------"
      +:+ expectedNewline +:+ expectedNewline
      +:+ "SET session_replication_role = replica;" +:+ expectedNewline +:+ expectedNewline in
  let footer :=
    expectedNewline +:+ "SET session_replication_role = DEFAULT;" +:+ expectedNewline
      +:+ "-- Backup Completed." +:+ expectedNewline in
  let dataOf meta :=
    concatMap (λ chunk, expectedJoin expectedNewline chunk +:+ expectedNewline)
      (streamTableData extractor meta None)
      +:+ expectedNewline in
  SQLWriter.fileContent (Orchestrator.run inspector extractor config now)
  = header
      +:+ generateDatabaseCreate ddlGen (database config)
      +:+ generateSchemaCreate ddlGen schema
      +:+ concatMap (generateSequences ddlGen) metas
      +:+ concatMap (generateTableCreate ddlGen) metas
      +:+ concatMap dataOf metas
      +:+ concatMap (generateIndexes ddlGen) metas
      +:+ concatMap (generateConstraints ddlGen) metas
      +:+ footer
  ∧ (listTables inspector schema (tables config) = [] →
     SQLWriter.fileContent (Orchestrator.run inspector extractor config now)
     = header
         +:+ generateDatabaseCreate ddlGen (database config)
         +:+ generateSchemaCreate ddlGen schema
         +:+ footer).
Proof.
  intros ddlGen schema metas header footer dataOf.
  assert (SQLWriter.fileContent (Orchestrator.run inspector extractor config now)
          = header
              +:+ generateDatabaseCreate ddlGen (database config)
              +:+ generateSchemaCreate ddlGen schema
              +:+ concatMap (generateSequences ddlGen) metas
              +:+ concatMap (generateTableCreate ddlGen) metas
              +:+ concatMap dataOf metas
              +:+ concatMap (generateIndexes ddlGen) metas
              +:+ concatMap (generateConstraints ddlGen) metas
              +:+ footer) as Hfile.
  { unfold Orchestrator.run. fold ddlGen. rewrite run_with_layout.
    unfold allPhases, inspected. rewrite schema_expected. fold schema. fold metas.
    cbn [map concat]. rewrite app_nil_r.
    rewrite !fileContent_app.
    cbn [phaseWrites].
    rewrite !fileContent_guarded, fileContent_map, fileContent_flat_map.
    rewrite (concatMap_ext
               (λ meta, SQLWriter.fileContent
                          (map (λ chunk, Build_Write DataRows (Js.join LF chunk +:+ LF))
                             (streamTableData extractor meta None)
                           ++ [Build_Write DataRows LF]))
               dataOf).
    2:{ intros meta _. unfold dataOf.
        rewrite fileContent_app, fileContent_map. simpl.
        rewrite app_nil_r_str.
        rewrite (concatMap_ext _ (λ chunk, expectedJoin expectedNewline chunk
                                           +:+ expectedNewline)); [done|].
        intros chunk _. by rewrite join_expected. }
    rewrite schema_expected. fold schema.
    unfold header, footer, SQLWriter.open, SQLWriter.close, SQLWriter.write. simpl.
    rewrite !app_nil_r_str, !app_assoc_str, !LF_expected. reflexivity. }
  split; [exact Hfile|].
  intros Hnone. rewrite Hfile. unfold metas. rewrite Hnone. simpl.
  reflexivity.
Qed.

Lemma backup_file_content_witness :
  SQLWriter.fileContent
    (Orchestrator.run empty_inspector (PostgresExtractor.extractor orders_rows) orders_config
       "2024-05-01 10:00:00")
  = "-- PERSISTOR PostgreSQL Backup" +:+ expectedNewline
      +:+ "-- Date: 2024-05-01 10:00:00" +:+ expectedNewline
      +:+ "-- --------------------------------------------------"
      +:+ expectedNewline +:+ expectedNewline
      +:+ "SET session_replication_role = replica;" +:+ expectedNewline +:+ expectedNewline
      +:+ "-- Database Creation" +:+ expectedNewline
      +:+ "CREATE DATABASE " +:+ expectedInQuotes "shop" +:+ ";"
      +:+ expectedNewline +:+ expectedNewline
      +:+ expectedNewline +:+ "SET session_replication_role = DEFAULT;" +:+ expectedNewline
      +:+ "-- Backup Completed." +:+ expectedNewline.
Proof.
  apply (proj2 (backup_file_content empty_inspector (PostgresExtractor.extractor orders_rows)
                  orders_config "2024-05-01 10:00:00")).
  reflexivity.
Defined.

(** * The data section does not depend on the page size *)

Lemma join_lines (chunk : list string) :
  chunk ≠ [] → Js.join LF chunk +:+ LF = concatMap (λ s, s +:+ LF) chunk.
Proof.
  intros Hne. destruct chunk as [|s chunk]; [done|]. clear Hne.
  revert s. induction chunk as [|s' chunk IH]; intros s.
  - simpl. by rewrite app_nil_r_str.
  - change (Js.join LF (s :: s' :: chunk)) with (s +:+ LF +:+ Js.join LF (s' :: chunk)).
    rewrite !app_assoc_str, IH.
    change (concatMap (λ s, s +:+ LF) (s :: s' :: chunk))
      with ((s +:+ LF) +:+ concatMap (λ s, s +:+ LF) (s' :: chunk)).
    by rewrite app_assoc_str.
Qed.

Lemma concatMap_concat {A} (f : A → string) (ls : list (list A)) :
  concatMap (concatMap f) ls = concatMap f (concat ls).
Proof.
  induction ls as [|l ls IH]; simpl; [done|]. by rewrite concatMap_app, IH.
Qed.

Lemma concatMap_map {A B} (g : A → B) (f : B → string) (l : list A) :
  concatMap f (map g l) = concatMap (λ x, f (g x)) l.
Proof. induction l as [|x l IH]; simpl; [done|]. by rewrite IH. Qed.

(** X2.  With the PostgreSQL extractor, whatever the page size (the default
    of 1000 rows or any size of at least one row), the data text of a table --
    every yielded chunk joined by newlines and closed by a newline, as a
    backup run writes it -- is one INSERT statement per row of the table,
    each on its own line, in cursor order. *)
Theorem data_text_one_insert_per_row (db : PostgresExtractor.PostgresConnection)
    (meta : TableMetadata) (chunkSize : option nat) :
  chunkSize ≠ Some 0 →
  concatMap (λ chunk, expectedJoin expectedNewline chunk +:+ expectedNewline)
    (streamTableData (PostgresExtractor.extractor db) meta chunkSize)
  = concatMap (λ row, PostgresExtractor.formatInsert meta row +:+ expectedNewline)
      (db (TableMetadata.schema meta) (TableMetadata.name meta)).
Proof.
  intros Hsize. simpl.
  unfold PostgresExtractor.streamTableData, PostgresExtractor.streamEvents. cbv zeta.
  set (pageSize := default 1000 chunkSize).
  assert (1 ≤ pageSize) as Hp.
  { unfold pageSize. destruct chunkSize as [[|n]|]; simpl; [done|lia|lia]. }
  set (cursor := db _ _).
  assert (PostgresExtractor.yielded
            (PostgresExtractor.loop meta pageSize cursor ++ [PostgresExtractor.Closed])
          = PostgresExtractor.yielded (PostgresExtractor.loop meta pageSize cursor)) as ->.
  { unfold PostgresExtractor.yielded. rewrite omap_app. simpl. by rewrite app_nil_r. }
  destruct (loop_yields meta pageSize cursor) as (Hne & _ & Hrows).
  destruct (Hrows Hp) as [Hconcat _].
  rewrite (concatMap_ext _ (concatMap (λ s, s +:+ LF))).
  2:{ intros chunk Hin. rewrite <- join_expected, <- LF_expected. apply join_lines.
      rewrite Forall_forall in Hne. by apply Hne. }
  by rewrite concatMap_concat, Hconcat, concatMap_map.
Qed.

Lemma data_text_one_insert_per_row_witness :
  concatMap (λ chunk, expectedJoin expectedNewline chunk +:+ expectedNewline)
    (streamTableData (PostgresExtractor.extractor orders_rows) orders_full (Some 1))
  = concatMap (λ row, PostgresExtractor.formatInsert orders_full row +:+ expectedNewline)
      (orders_rows "public" "orders").
Proof.
  apply (data_text_one_insert_per_row orders_rows orders_full (Some 1)). discriminate.
Defined.

(** * The statements of the DDL generators *)

Lemma concatMap_nonempty {A} (f : A → string) (l : list A) :
  l ≠ [] → (∀ x, x ∈ l → f x ≠ "") → concatMap f l ≠ "".
Proof.
  destruct l as [|x l]; [done|]. intros _ Hf. simpl.
  specialize (Hf x (list_elem_of_here _ _)).
  destruct (f x); [done|]. discriminate.
Qed.

Lemma eqb_empty_app (a : string) : a ≠ "" → ∀ b, String.eqb (a +:+ b) "" = false.
Proof. intros Ha b. destruct a; [done|]. reflexivity. Qed.

(** X3.  The statement [generateAddColumn] offers for a missing column is
    [ALTER TABLE "schema"."table" ADD COLUMN] followed by exactly the column
    definition [formatColumn] writes into the table's CREATE TABLE statement
    (quoted name, upper-cased type with its length or precision suffix, NOT
    NULL and DEFAULT as applicable), and a semicolon. *)
Theorem generateAddColumn_uses_column_definition (table schema : string) (column : TableColumn) :
  PostgresDDLGenerator.generateAddColumn table schema column
  = "ALTER TABLE " +:+ expectedInQuotes schema +:+ "." +:+ expectedInQuotes table
      +:+ " ADD COLUMN " +:+ PostgresDDLGenerator.formatColumn column +:+ ";"
  ∧ PostgresDDLGenerator.generateTableCreate
      (TableMetadata.mk table schema [column] [] [] [])
    = "CREATE TABLE " +:+ expectedInQuotes schema +:+ "." +:+ expectedInQuotes table
        +:+ " (" +:+ expectedNewline +:+ "  "
        +:+ PostgresDDLGenerator.formatColumn column +:+ expectedNewline
        +:+ ");" +:+ expectedNewline +:+ expectedNewline.
Proof.
  unfold expectedInQuotes. split.
  - unfold PostgresDDLGenerator.generateAddColumn, PostgresDDLGenerator.formatColumn,
      PostgresDDLGenerator.typeStr, PostgresDDLGenerator.qualified, quoted. cbv zeta.
    destruct (TableColumn.isNullable column), (Js.truthy_str (TableColumn.columnDefault column));
      simpl; rewrite ?app_assoc_str; reflexivity.
  - unfold PostgresDDLGenerator.generateTableCreate, PostgresDDLGenerator.qualified, quoted.
    simpl. rewrite ?app_assoc_str. reflexivity.
Qed.

(** X4.  For either engine, the ADD CONSTRAINT statements of a backup are the
    fix statements of the comparison, one per line: [generateTableCreate] is
    the table's CREATE TABLE text followed by [generateConstraintFix] of each
    PRIMARY KEY constraint, and [generateConstraints] is
    [generateConstraintFix] of each FOREIGN KEY and then of each UNIQUE
    constraint, closed by an empty line, or the empty text when the table has
    neither. *)
Theorem constraint_fix_is_backup_statement (type : DbType) (meta : TableMetadata) :
  let generator := EngineFactory.createGenerator type in
  let fixLine c :=
    generateConstraintFix generator (TableMetadata.name meta) (TableMetadata.schema meta) c
      +:+ expectedNewline in
  let ofKind k := filter (λ c, TableConstraint.type c = k) (TableMetadata.constraints meta) in
  generateTableCreate generator meta
  = generateTableCreate generator (withConstraints meta [])
      +:+ concatMap fixLine (ofKind PRIMARY_KEY)
  ∧ generateConstraints generator meta
    = if decide (ofKind FOREIGN_KEY ++ ofKind UNIQUE = []) then ""
      else concatMap fixLine (ofKind FOREIGN_KEY ++ ofKind UNIQUE) +:+ expectedNewline.
Proof.
  intros generator fixLine ofKind.
  assert (∀ k c, c ∈ ofKind k → TableConstraint.type c = k) as Hkind.
  { intros k c Hc. by apply list_elem_of_filter in Hc as [? _]. }
  assert (∀ c, TableConstraint.type c ≠ CHECK → fixLine c ≠ "") as Hfix.
  { intros c Hc. unfold fixLine, generator.
    destruct type; simpl;
      unfold PostgresDDLGenerator.generateConstraintFix, OracleDDLGenerator.generateConstraintFix,
        OracleDDLGenerator.primaryKeyStatement, OracleDDLGenerator.foreignKeyStatement,
        OracleDDLGenerator.uniqueStatement;
      destruct (TableConstraint.type c); done. }
  split.
  - unfold generator, fixLine.
    destruct type; simpl;
      unfold PostgresDDLGenerator.generateTableCreate, OracleDDLGenerator.generateTableCreate;
      cbv zeta; fold (ofKind PRIMARY_KEY); simpl TableMetadata.constraints;
      rewrite filter_nil; cbn [fold_left];
      rewrite fold_left_append; f_equal;
      apply concatMap_ext; intros c Hc; apply Hkind in Hc;
      unfold PostgresDDLGenerator.generateConstraintFix, OracleDDLGenerator.generateConstraintFix,
        PostgresDDLGenerator.primaryKeyStatement;
      rewrite Hc; simpl; rewrite ?app_assoc_str; reflexivity.
  - assert (generateConstraints generator meta
            = let body := concatMap fixLine (ofKind FOREIGN_KEY)
                            +:+ concatMap fixLine (ofKind UNIQUE) in
              if String.eqb body "" then "" else body +:+ LF) as ->.
    { assert (∀ k (f : TableConstraint → string),
                (∀ c, TableConstraint.type c = k → f c = fixLine c) →
                concatMap f (ofKind k) = concatMap fixLine (ofKind k)) as Hsame.
      { intros k f Hf. apply concatMap_ext. intros c Hc. apply Hf. by apply Hkind in Hc. }
      unfold generator. destruct type; simpl.
      - unfold PostgresDDLGenerator.generateConstraints. cbv zeta.
        fold (ofKind FOREIGN_KEY). fold (ofKind UNIQUE).
        rewrite !fold_left_append. cbn [String.append].
        rewrite (Hsame FOREIGN_KEY (PostgresDDLGenerator.foreignKeyStatement meta)),
                (Hsame UNIQUE (PostgresDDLGenerator.uniqueStatement meta)); [done| |];
          intros c Hc; unfold fixLine, generator; simpl;
          unfold PostgresDDLGenerator.generateConstraintFix,
            PostgresDDLGenerator.foreignKeyStatement, PostgresDDLGenerator.uniqueStatement;
          rewrite Hc; rewrite ?app_assoc_str; reflexivity.
      - unfold OracleDDLGenerator.generateConstraints. cbv zeta.
        fold (ofKind FOREIGN_KEY). fold (ofKind UNIQUE).
        rewrite (fold_left_append
                   (λ fk, OracleDDLGenerator.foreignKeyStatement (TableMetadata.name meta) fk
                          +:+ LF)),
                (fold_left_append
                   (λ u, OracleDDLGenerator.uniqueStatement (TableMetadata.name meta) u
                         +:+ LF)).
        cbn [String.append].
        rewrite (Hsame FOREIGN_KEY), (Hsame UNIQUE); [done| |];
          intros c Hc; unfold fixLine, generator; simpl;
          unfold OracleDDLGenerator.generateConstraintFix; rewrite Hc; reflexivity. }
    cbv zeta. rewrite <- concatMap_app.
    destruct (decide (ofKind FOREIGN_KEY ++ ofKind UNIQUE = [])) as [Hnone|Hsome].
    + by rewrite Hnone.
    + rewrite (proj2 (String.eqb_neq _ _)); [done|].
      apply concatMap_nonempty; [done|].
      intros c Hc. apply Hfix.
      apply elem_of_app in Hc as [Hc|Hc]; apply Hkind in Hc; by rewrite Hc.
Qed.

(** X5.  For either engine [generateIndexes] is empty exactly for a table
    without indexes; otherwise it is each index definition in order, closed
    by [;] and a newline, and one empty line at the end.  The Oracle
    generator writes each of them behind a comment mark. *)
Theorem generateIndexes_lists_every_index (type : DbType) (meta : TableMetadata) :
  let mark := match type with postgres => "" | oracle => "-- " end in
  generateIndexes (EngineFactory.createGenerator type) meta
  = (if decide (TableMetadata.indexes meta = []) then ""
     else concatMap (λ idx, mark +:+ TableIndex.definition idx +:+ ";" +:+ expectedNewline)
            (TableMetadata.indexes meta) +:+ expectedNewline)
  ∧ (generateIndexes (EngineFactory.createGenerator type) meta = ""
     ↔ TableMetadata.indexes meta = []).
Proof.
  intros mark.
  assert (generateIndexes (EngineFactory.createGenerator type) meta
          = let body := concatMap (λ idx, mark +:+ TableIndex.definition idx +:+ ";" +:+ LF)
                          (TableMetadata.indexes meta) in
            if String.eqb body "" then "" else body +:+ LF) as Hgen.
  { unfold mark. destruct type; simpl;
      unfold PostgresDDLGenerator.generateIndexes, OracleDDLGenerator.generateIndexes;
      cbv zeta.
    - rewrite (fold_left_append (λ idx, TableIndex.definition idx +:+ ";" +:+ LF)).
      reflexivity.
    - rewrite (fold_left_append (λ idx, "-- " +:+ TableIndex.definition idx +:+ ";" +:+ LF)).
      reflexivity. }
  assert (TableMetadata.indexes meta ≠ [] →
          concatMap (λ idx, mark +:+ TableIndex.definition idx +:+ ";" +:+ LF)
            (TableMetadata.indexes meta) ≠ "") as Hbody.
  { intros Hsome. apply concatMap_nonempty; [done|]. intros idx _.
    unfold mark. destruct type; [|done]. simpl.
    destruct (TableIndex.definition idx); done. }
  rewrite Hgen. cbv zeta.
  destruct (decide (TableMetadata.indexes meta = [])) as [Hnone|Hsome].
  - rewrite Hnone. simpl. done.
  - rewrite (proj2 (String.eqb_neq _ _) (Hbody Hsome)). split; [done|].
    split; [|done]. intros Hempty. exfalso.
    destruct (concatMap _ _) eqn:Hc; [by apply (Hbody Hsome)|discriminate].
Qed.

(** * The kinds of diff each part of a comparison reports *)

Ltac kind_solver :=
  first
    [ rewrite ?not_elem_of_cons; repeat split; try discriminate; apply not_elem_of_nil
    | repeat first [apply list_elem_of_here | apply list_elem_of_further] ].

Section ComparatorKinds.
Variable generator : IDDLGenerator.
Variable sourceInspector targetInspector : ISchemaInspector.
Variable sourceSchema targetSchema : string.

Lemma compareTable_absent targetTables tableName :
  tableName ∉ targetTables →
  SchemaComparator.compareTable generator sourceInspector targetInspector
    sourceSchema targetSchema targetTables [] tableName
  = [missingTable generator sourceInspector sourceSchema tableName].
Proof.
  intros Hout. unfold SchemaComparator.compareTable.
  by rewrite bool_decide_eq_true_2 by done.
Qed.

Lemma compareTable_present_kinds targetTables tableName :
  tableName ∈ targetTables →
  Forall (λ d, SchemaDiff.type d
               ∈ [MISSING_COLUMN; TYPE_MISMATCH; NULLABILITY_MISMATCH; DEFAULT_MISMATCH;
                  MISSING_CONSTRAINT; MISSING_INDEX])
    (SchemaComparator.compareTable generator sourceInspector targetInspector
       sourceSchema targetSchema targetTables [] tableName).
Proof.
  intros Hin. rewrite compareTable_present by done.
  rewrite compareColumns_layout, compareConstraints_layout, compareIndexes_layout.
  rewrite !app_nil_l.
  apply Forall_app_2; [|apply Forall_app_2]; apply Forall_flat_map_elem; intros x _.
  - unfold SchemaComparator.compareColumn.
    destruct (_ !! _) as [tCol|];
      repeat destruct (bool_decide _); simpl; repeat constructor; kind_solver.
  - unfold SchemaComparator.compareConstraint.
    destruct (bool_decide _); repeat constructor; kind_solver.
  - unfold SchemaComparator.compareIndex.
    destruct (bool_decide _); repeat constructor; kind_solver.
Qed.

Lemma compareFunctions_kinds :
  Forall (λ d, SchemaDiff.type d ∈ [MISSING_FUNCTION; FUNCTION_MISMATCH])
    (SchemaComparator.compareFunctions sourceInspector targetInspector
       sourceSchema targetSchema []).
Proof.
  rewrite compareFunctions_layout, app_nil_l.
  apply Forall_flat_map_elem; intros f _. unfold SchemaComparator.compareFunction.
  destruct (_ !! _); [destruct (bool_decide _)|]; repeat constructor; kind_solver.
Qed.

Lemma compareTriggers_kinds :
  Forall (λ d, SchemaDiff.type d ∈ [MISSING_TRIGGER; TRIGGER_MISMATCH])
    (SchemaComparator.compareTriggers generator sourceInspector targetInspector
       sourceSchema targetSchema []).
Proof.
  rewrite compareTriggers_layout, app_nil_l.
  apply Forall_flat_map_elem; intros f _. unfold SchemaComparator.compareTrigger.
  destruct (_ !! _); [destruct (bool_decide _)|]; repeat constructor; kind_solver.
Qed.

Lemma filter_kind_none (k : DiffType) (kinds : list DiffType) (l : list SchemaDiff) :
  k ∉ kinds → Forall (λ d, SchemaDiff.type d ∈ kinds) l →
  filter (λ d, SchemaDiff.type d = k) l = [].
Proof.
  intros Hk Hl. apply filter_none. eapply Forall_impl; [exact Hl|].
  simpl. intros d Hd Heq. by rewrite Heq in Hd.
Qed.

(** X6.  The MISSING_TABLE diffs of a comparison are, in order, one per
    source table the target does not list, each carrying the table's complete
    CREATE TABLE text as fix; nothing else is reported about such a table.
    Against a target that lists no table the result is these diffs for all
    source tables, then the function and the trigger diffs. *)
Theorem missing_tables_reported :
  let diffs :=
    ComparisonResult.diffs
      (SchemaComparator.compare generator sourceInspector targetInspector
         sourceSchema targetSchema) in
  filter (λ d, SchemaDiff.type d = MISSING_TABLE) diffs
  = map (missingTable generator sourceInspector sourceSchema)
      (filter (λ t, t ∉ listTables targetInspector targetSchema None)
         (listTables sourceInspector sourceSchema None))
  ∧ (listTables targetInspector targetSchema None = [] →
     diffs
     = map (missingTable generator sourceInspector sourceSchema)
         (listTables sourceInspector sourceSchema None)
       ++ SchemaComparator.compareFunctions sourceInspector targetInspector
            sourceSchema targetSchema []
       ++ SchemaComparator.compareTriggers generator sourceInspector targetInspector
            sourceSchema targetSchema []).
Proof.
  cbv zeta. rewrite compare_layout. split.
  - rewrite !filter_app.
    rewrite (filter_kind_none MISSING_TABLE [MISSING_FUNCTION; FUNCTION_MISMATCH]
               (SchemaComparator.compareFunctions _ _ _ _ _));
      [|kind_solver|apply compareFunctions_kinds].
    rewrite (filter_kind_none MISSING_TABLE [MISSING_TRIGGER; TRIGGER_MISMATCH]
               (SchemaComparator.compareTriggers _ _ _ _ _ _));
      [|kind_solver|apply compareTriggers_kinds].
    rewrite !app_nil_r.
    induction (listTables sourceInspector sourceSchema None) as [|t l IH]; [done|].
    cbn [flat_map]. rewrite filter_app, IH, filter_cons.
    destruct (decide (t ∉ listTables targetInspector targetSchema None)) as [Hout|Hin].
    + by rewrite compareTable_absent.
    + rewrite (filter_kind_none MISSING_TABLE
                 [MISSING_COLUMN; TYPE_MISMATCH; NULLABILITY_MISMATCH; DEFAULT_MISMATCH;
                  MISSING_CONSTRAINT; MISSING_INDEX]); [done|kind_solver|].
      apply compareTable_present_kinds. by apply dec_stable.
  - intros ->.
    rewrite (flat_map_singleton _ (missingTable generator sourceInspector sourceSchema)); [done|].
    intros t. apply compareTable_absent, not_elem_of_nil.
Qed.

(** X7.  In the result of a comparison all table-level diffs (missing
    tables, columns, constraints and indexes, type, nullability and default
    mismatches) come first, then the function diffs, then the trigger
    diffs. *)
Theorem diffs_grouped_by_section :
  StronglySorted
    (λ a b, DiffType_section (SchemaDiff.type a) ≤ DiffType_section (SchemaDiff.type b))
    (ComparisonResult.diffs
       (SchemaComparator.compare generator sourceInspector targetInspector
          sourceSchema targetSchema)).
Proof.
  rewrite compare_layout.
  assert (Forall (λ d, DiffType_section (SchemaDiff.type d) = 0)
            (flat_map (SchemaComparator.compareTable generator sourceInspector targetInspector
                         sourceSchema targetSchema (listTables targetInspector targetSchema None) [])
               (listTables sourceInspector sourceSchema None))) as Htables.
  { apply Forall_flat_map_elem. intros t _.
    destruct (decide (t ∈ listTables targetInspector targetSchema None)) as [Hin|Hout].
    - eapply Forall_impl; [by apply compareTable_present_kinds|].
      simpl. intros d Hd. repeat (apply elem_of_cons in Hd as [->|Hd]; [done|]).
      by apply elem_of_nil in Hd.
    - rewrite compareTable_absent by done. by repeat constructor. }
  assert (Forall (λ d, DiffType_section (SchemaDiff.type d) = 1)
            (SchemaComparator.compareFunctions sourceInspector targetInspector
               sourceSchema targetSchema [])) as Hfunctions.
  { eapply Forall_impl; [apply compareFunctions_kinds|].
    simpl. intros d Hd. repeat (apply elem_of_cons in Hd as [->|Hd]; [done|]).
    by apply elem_of_nil in Hd. }
  assert (Forall (λ d, DiffType_section (SchemaDiff.type d) = 2)
            (SchemaComparator.compareTriggers generator sourceInspector targetInspector
               sourceSchema targetSchema [])) as Htriggers.
  { eapply Forall_impl; [apply compareTriggers_kinds|].
    simpl. intros d Hd. repeat (apply elem_of_cons in Hd as [->|Hd]; [done|]).
    by apply elem_of_nil in Hd. }
  assert (∀ n (l : list SchemaDiff),
            Forall (λ d, DiffType_section (SchemaDiff.type d) = n) l →
            StronglySorted
              (λ a b, DiffType_section (SchemaDiff.type a) ≤ DiffType_section (SchemaDiff.type b))
              l) as Hsame.
  { intros n l. induction 1 as [|d l Hd Hl IH]; constructor; [done|].
    eapply Forall_impl; [exact Hl|]. simpl. intros d' Hd'. lia. }
  rewrite Forall_forall in Htables, Hfunctions, Htriggers.
  apply StronglySorted_app_2; [|by eapply Hsame, Forall_forall|].
  - intros a b Ha Hb. rewrite (Htables a Ha). lia.
  - apply StronglySorted_app_2;
      [|by eapply Hsame, Forall_forall|by eapply Hsame, Forall_forall].
    intros a b Ha Hb. rewrite (Hfunctions a Ha), (Htriggers b Hb). lia.
Qed.

End ComparatorKinds.

Lemma missing_tables_reported_witness :
  ComparisonResult.diffs
    (SchemaComparator.compare PostgresDDLGenerator.generator shop_source empty_inspector
       "public" "public")
  = [missingTable PostgresDDLGenerator.generator shop_source "public" "orders";
     missingTable PostgresDDLGenerator.generator shop_source "public" "books"].
Proof.
  apply (proj2 (missing_tables_reported PostgresDDLGenerator.generator
                  shop_source empty_inspector "public" "public")).
  reflexivity.
Defined.

(** * Columns without a diff, and the fix every diff carries *)

Lemma flat_map_nil_inv {A B} (f : A → list B) (l : list A) :
  flat_map f l = [] → ∀ x, x ∈ l → f x = [].
Proof.
  induction l as [|y l IH]; simpl; intros Hnil x Hx; [by apply elem_of_nil in Hx|].
  apply app_eq_nil in Hnil as [Hy Hl].
  apply elem_of_cons in Hx as [->|Hx]; [done|by apply IH].
Qed.

Lemma compareColumn_nil_iff generator source (target : TableMetadata) sCol :
  SchemaComparator.compareColumn generator source (SchemaComparator.targetColumns target) [] sCol
  = []
  ↔ columnAgrees target sCol.
Proof.
  unfold SchemaComparator.compareColumn, SchemaComparator.targetColumns, columnAgrees, sameNamed.
  rewrite (newMap_lookup_last TableColumn.name).
  destruct (last _) as [tCol|].
  - repeat case_bool_decide; simpl; (split; [try discriminate|]);
      try (intros (tCol' & [= <-] & ? & ? & ?); done).
    intros _. exists tCol. repeat split; try done; by apply dec_stable.
  - split; [discriminate|]. by intros (tCol & [=] & _).
Qed.

(** X8.  [compareColumns] reports nothing for a pair of tables exactly when
    every source column has a target column of its name (the last one listed
    under it) with the same [udtName], the same nullability and the same
    default.  The display type, the character length and the numeric
    precision and scale are not looked at. *)
Theorem columns_without_diff_iff (generator : IDDLGenerator) (source target : TableMetadata) :
  SchemaComparator.compareColumns generator source target [] = []
  ↔ ∀ sCol, sCol ∈ TableMetadata.columns source → columnAgrees target sCol.
Proof.
  rewrite compareColumns_layout, app_nil_l. split.
  - intros Hnil sCol HsCol. apply (compareColumn_nil_iff generator source).
    by eapply flat_map_nil_inv.
  - intros Hall. apply flat_map_nil. intros sCol HsCol.
    apply compareColumn_nil_iff. by apply Hall.
Qed.

Example varchar_80_against_varchar_255 :
  SchemaComparator.compareColumns PostgresDDLGenerator.generator
    (books varchar_col) (books varchar_col_wide) [] = [].
Proof. reflexivity. Qed.

Lemma app_semicolon_nonempty (s : string) : s +:+ ";" ≠ "".
Proof. by destruct s. Qed.

Lemma column_fixes_nonempty (type : DbType) (table schema : string) (column : TableColumn) :
  let generator := EngineFactory.createGenerator type in
  generateAddColumn generator table schema column ≠ ""
  ∧ generateAlterColumnType generator table schema column ≠ ""
  ∧ generateAlterColumnNullability generator table schema column ≠ ""
  ∧ generateAlterColumnDefault generator table schema column ≠ "".
Proof.
  destruct type; simpl; repeat split; try discriminate.
  - apply app_semicolon_nonempty.
  - unfold PostgresDDLGenerator.generateAlterColumnDefault.
    destruct (Js.truthy_str _); discriminate.
Qed.

Section Fixes.
Variable type : DbType.
Variable sourceInspector targetInspector : ISchemaInspector.
Variable sourceSchema targetSchema : string.

Lemma carriesFix_nonempty d statement :
  SchemaDiff.fix_ d = Some statement → statement ≠ "" →
  carriesFix sourceInspector sourceSchema d.
Proof. intros Hfix Hne. exists statement. split; [done|]. intros ->. done. Qed.

Lemma compareTable_carriesFix t :
  t ∈ listTables sourceInspector sourceSchema None →
  Forall (carriesFix sourceInspector sourceSchema)
    (SchemaComparator.compareTable (EngineFactory.createGenerator type)
       sourceInspector targetInspector
       sourceSchema targetSchema (listTables targetInspector targetSchema None) [] t).
Proof.
  intros Ht.
  destruct (decide (t ∈ listTables targetInspector targetSchema None)) as [Hin|Hout].
  - rewrite compareTable_present by done.
    rewrite compareColumns_layout, compareConstraints_layout, compareIndexes_layout.
    rewrite !app_nil_l.
    apply Forall_app_2; [|apply Forall_app_2]; apply Forall_flat_map_elem; intros x Hx.
    + destruct (column_fixes_nonempty type
                  (TableMetadata.name (getTableMetadata sourceInspector sourceSchema t))
                  (TableMetadata.schema (getTableMetadata sourceInspector sourceSchema t)) x)
        as (Hadd & Htype & Hnull & Hdefault).
      unfold SchemaComparator.compareColumn.
      destruct (_ !! _) as [tCol|];
        repeat destruct (bool_decide _); simpl; repeat constructor;
        by eapply carriesFix_nonempty.
    + unfold SchemaComparator.compareConstraint.
      destruct (bool_decide _); repeat constructor.
      eexists. split; [done|]. intros Hempty. split; [done|].
      exists t, x. repeat split; try done.
      destruct (decide (TableConstraint.type x = CHECK)) as [|Hkind]; [done|].
      destruct (generateConstraintFix_kinds type
                  (TableMetadata.name (getTableMetadata sourceInspector sourceSchema t))
                  (TableMetadata.schema (getTableMetadata sourceInspector sourceSchema t)) x)
        as [Hadd _].
      specialize (Hadd Hkind). rewrite Hempty in Hadd.
      by apply not_addConstraintFix_empty in Hadd.
    + unfold SchemaComparator.compareIndex.
      destruct (bool_decide _); repeat constructor.
      eapply carriesFix_nonempty; [done|]. apply app_semicolon_nonempty.
  - rewrite compareTable_absent by done. repeat constructor.
    eapply carriesFix_nonempty; [done|]. apply generateTableCreate_nonempty.
Qed.

(** X9.  Every diff a comparison reports carries a fix statement, and the
    statement is never empty, with one exception: the MISSING_CONSTRAINT diff
    of a CHECK constraint, for which neither engine writes a statement. *)
Theorem every_diff_carries_a_fix :
  Forall (carriesFix sourceInspector sourceSchema)
    (ComparisonResult.diffs
       (SchemaComparator.compare (EngineFactory.createGenerator type)
          sourceInspector targetInspector sourceSchema targetSchema)).
Proof.
  rewrite compare_layout, compareFunctions_layout, compareTriggers_layout, !app_nil_l.
  apply Forall_app_2; [|apply Forall_app_2]; apply Forall_flat_map_elem; intros x Hx.
  - by apply compareTable_carriesFix.
  - unfold SchemaComparator.compareFunction.
    destruct (_ !! _); [destruct (bool_decide _)|]; repeat constructor;
      (eapply carriesFix_nonempty; [done|]); apply app_semicolon_nonempty.
  - unfold SchemaComparator.compareTrigger.
    destruct (_ !! _); [destruct (bool_decide _)|]; repeat constructor;
      (eapply carriesFix_nonempty; [done|]).
    + destruct type; discriminate.
    + apply app_semicolon_nonempty.
Qed.

End Fixes.

(** * A schema against itself; functions and triggers *)

(** X10.  A schema compared with itself shows no diff, provided no table
    lists a column name twice, no two functions share a name and no two
    triggers share their table and name. *)
Theorem compare_self_is_empty (generator : IDDLGenerator) (inspector : ISchemaInspector)
    (schema : string) :
  distinctKeys inspector schema →
  ComparisonResult.diffs (SchemaComparator.compare generator inspector inspector schema schema)
  = [].
Proof.
  intros (Hcolumns & Hfunctions & Htriggers).
  apply compare_self_distinct_names. repeat split; [exact Hcolumns|exact Hfunctions|].
  exact Htriggers.
Qed.

Lemma compare_self_is_empty_witness :
  ComparisonResult.diffs
    (SchemaComparator.compare PostgresDDLGenerator.generator orders_inspector orders_inspector
       "public" "public")
  = [].
Proof.
  apply (compare_self_is_empty PostgresDDLGenerator.generator orders_inspector "public").
  repeat split.
  - intros t _. apply (bool_decide_unpack _). vm_compute. exact I.
  - apply NoDup_nil_2.
  - apply NoDup_nil_2.
Defined.

Lemma filter_all {A} (P : A → Prop) `{!∀ x, Decision (P x)} (l : list A) :
  Forall P l → filter P l = l.
Proof.
  induction 1 as [|x l Hx _ IH]; [done|].
  by rewrite filter_cons, decide_True, IH.
Qed.

Lemma filter_kinds_none (kinds kinds' : list DiffType) (l : list SchemaDiff) :
  (∀ k, k ∈ kinds' → k ∉ kinds) → Forall (λ d, SchemaDiff.type d ∈ kinds') l →
  filter (λ d, SchemaDiff.type d ∈ kinds) l = [].
Proof.
  intros Hk Hl. apply filter_none. eapply Forall_impl; [exact Hl|].
  simpl. intros d Hd. by apply Hk.
Qed.

Ltac kinds_apart :=
  rewrite !elem_of_cons, !elem_of_nil;
  intros Hk; repeat (destruct Hk as [->|Hk]; [intros Hk'; intuition discriminate|]);
  destruct Hk.

Section ObjectDiffs.
Variable generator : IDDLGenerator.
Variable sourceInspector targetInspector : ISchemaInspector.
Variable sourceSchema targetSchema : string.

Lemma tables_kinds :
  Forall (λ d, SchemaDiff.type d
               ∈ [MISSING_TABLE; MISSING_COLUMN; TYPE_MISMATCH; NULLABILITY_MISMATCH;
                  DEFAULT_MISMATCH; MISSING_CONSTRAINT; MISSING_INDEX])
    (flat_map (SchemaComparator.compareTable generator sourceInspector targetInspector
                 sourceSchema targetSchema (listTables targetInspector targetSchema None) [])
       (listTables sourceInspector sourceSchema None)).
Proof.
  apply Forall_flat_map_elem. intros t _.
  destruct (decide (t ∈ listTables targetInspector targetSchema None)) as [Hin|Hout].
  - eapply Forall_impl; [by apply compareTable_present_kinds|].
    simpl. intros d Hd. by apply list_elem_of_further.
  - rewrite compareTable_absent by done. repeat constructor.
Qed.

(** X11.  Functions are held against the target by name, triggers by the
    pair of table and name; when the target lists several objects under one
    key it is the last of them that counts.  The function diffs of a
    comparison are, for each source function in order: MISSING_FUNCTION when
    the target has no function of its name, FUNCTION_MISMATCH when the
    definition of its counterpart differs, nothing otherwise.  The trigger
    diffs are built the same way, a mismatch carrying as fix the generator's
    DROP TRIGGER statement, a newline and the source definition. *)
Theorem function_and_trigger_diffs :
  let diffs :=
    ComparisonResult.diffs
      (SchemaComparator.compare generator sourceInspector targetInspector
         sourceSchema targetSchema) in
  filter (λ d, SchemaDiff.type d ∈ [MISSING_FUNCTION; FUNCTION_MISMATCH]) diffs
  = flat_map (objectDiffs DatabaseObject.name (listFunctions targetInspector targetSchema)
                missingFunction functionMismatch)
      (listFunctions sourceInspector sourceSchema)
  ∧ filter (λ d, SchemaDiff.type d ∈ [MISSING_TRIGGER; TRIGGER_MISMATCH]) diffs
    = flat_map (objectDiffs expectedTriggerKey (listTriggers targetInspector targetSchema)
                  missingTrigger (triggerMismatch generator))
        (listTriggers sourceInspector sourceSchema).
Proof.
  cbv zeta. rewrite compare_layout, !filter_app.
  assert (SchemaComparator.compareFunctions sourceInspector targetInspector sourceSchema
            targetSchema []
          = flat_map (objectDiffs DatabaseObject.name (listFunctions targetInspector targetSchema)
                        missingFunction functionMismatch)
              (listFunctions sourceInspector sourceSchema)) as Hfunctions.
  { rewrite compareFunctions_layout, app_nil_l. apply flat_map_ext. intros f.
    unfold SchemaComparator.compareFunction, objectDiffs, counterpart.
    rewrite (newMap_lookup_last DatabaseObject.name).
    destruct (last _) as [g|]; [|done].
    case_bool_decide; by case_decide. }
  assert (SchemaComparator.compareTriggers generator sourceInspector targetInspector sourceSchema
            targetSchema []
          = flat_map (objectDiffs expectedTriggerKey
                        (listTriggers targetInspector targetSchema)
                        missingTrigger (triggerMismatch generator))
              (listTriggers sourceInspector sourceSchema)) as Htriggers.
  { rewrite compareTriggers_layout, app_nil_l. apply flat_map_ext. intros t.
    unfold SchemaComparator.compareTrigger, objectDiffs, counterpart.
    rewrite (newMap_lookup_last SchemaComparator.triggerKey).
    change SchemaComparator.triggerKey with expectedTriggerKey.
    destruct (last _) as [g|]; [|done].
    case_bool_decide; by case_decide. }
  split.
  - rewrite (filter_kinds_none [MISSING_FUNCTION; FUNCTION_MISMATCH]
               [MISSING_TABLE; MISSING_COLUMN; TYPE_MISMATCH; NULLABILITY_MISMATCH;
                DEFAULT_MISMATCH; MISSING_CONSTRAINT; MISSING_INDEX]
               (flat_map _ _)); [|intros k; kinds_apart|apply tables_kinds].
    rewrite (filter_kinds_none [MISSING_FUNCTION; FUNCTION_MISMATCH]
               [MISSING_TRIGGER; TRIGGER_MISMATCH]
               (SchemaComparator.compareTriggers _ _ _ _ _ _));
      [|intros k; kinds_apart|apply compareTriggers_kinds].
    rewrite filter_all by apply compareFunctions_kinds.
    by rewrite app_nil_l, app_nil_r.
  - rewrite (filter_kinds_none [MISSING_TRIGGER; TRIGGER_MISMATCH]
               [MISSING_TABLE; MISSING_COLUMN; TYPE_MISMATCH; NULLABILITY_MISMATCH;
                DEFAULT_MISMATCH; MISSING_CONSTRAINT; MISSING_INDEX]
               (flat_map _ _)); [|intros k; kinds_apart|apply tables_kinds].
    rewrite (filter_kinds_none [MISSING_TRIGGER; TRIGGER_MISMATCH]
               [MISSING_FUNCTION; FUNCTION_MISMATCH]
               (SchemaComparator.compareFunctions _ _ _ _ _));
      [|intros k; kinds_apart|apply compareFunctions_kinds].
    rewrite filter_all by apply compareTriggers_kinds.
    by rewrite !app_nil_l.
Qed.

End ObjectDiffs.

(** * The [--tables] option *)

Lemma split_nonempty (sep : ascii) (s : string) : JsText.split sep s ≠ [].
Proof.
  destruct s as [|c r]; simpl; [done|].
  destruct (Ascii.eqb c sep); [done|]. by destruct (JsText.split sep r).
Qed.

Lemma join_split (sep : ascii) (s : string) :
  expectedJoin (String sep EmptyString) (JsText.split sep s) = s.
Proof.
  induction s as [|c r IH]; [done|].
  cbn [JsText.split].
  destruct (Ascii.eqb_spec c sep) as [->|Hc].
  - pose proof (split_nonempty sep r) as Hne.
    destruct (JsText.split sep r) as [|piece pieces] eqn:Hsplit; [done|].
    cbn [expectedJoin]. cbn [expectedJoin] in IH. by rewrite IH.
  - pose proof (split_nonempty sep r) as Hne.
    destruct (JsText.split sep r) as [|piece pieces] eqn:Hsplit; [done|].
    cbn [expectedJoin] in *.
    destruct pieces as [|piece' pieces]; simpl; by rewrite <- IH.
Qed.

Lemma split_pieces (sep : ascii) (s : string) :
  Forall (λ piece, ¬ occursIn sep piece) (JsText.split sep s).
Proof.
  unfold occursIn. induction s as [|c r IH]; simpl.
  - repeat constructor. simpl. apply not_elem_of_nil.
  - destruct (Ascii.eqb_spec c sep) as [->|Hc].
    + constructor; [apply not_elem_of_nil|done].
    + destruct (JsText.split sep r) as [|piece pieces]; simpl.
      * repeat constructor. simpl. rewrite not_elem_of_cons. split; [done|apply not_elem_of_nil].
      * apply Forall_cons in IH as [Hpiece Hpieces]. constructor; [|done].
        simpl. rewrite not_elem_of_cons. split; [done|exact Hpiece].
Qed.

(** X12.  A non-empty [--tables] value is cut at its commas into at least one
    name, nothing trimmed and nothing dropped (joining the names with commas
    gives the value back), and the PostgreSQL inspector then lists exactly
    the catalog's tables that are among these names, in catalog order.
    Without the option, or with an empty value, every table of the schema is
    listed. *)
Theorem tables_option_restricts (db : PostgresInspector.Catalog) (schema : string) :
  (∀ value, value ≠ "" →
     ∃ names,
       Cli.parseTables (Some value) = Some names
       ∧ names ≠ []
       ∧ expectedJoin "," names = value
       ∧ Forall (λ name, ¬ occursIn "," name) names
       ∧ PostgresInspector.listTables db schema (Cli.parseTables (Some value))
         = filter (λ name, name ∈ names) (PostgresInspector.tables db schema))
  ∧ Cli.parseTables None = None
  ∧ Cli.parseTables (Some "") = None
  ∧ PostgresInspector.listTables db schema None = PostgresInspector.tables db schema
  ∧ PostgresInspector.listTables db schema (Some []) = PostgresInspector.tables db schema.
Proof.
  split; [|done].
  intros value Hvalue. exists (JsText.split "," value).
  assert (Cli.parseTables (Some value) = Some (JsText.split "," value)) as Hparse.
  { unfold Cli.parseTables. by rewrite (proj2 (truthy_str_Some _) Hvalue). }
  split; [exact Hparse|]. split; [apply split_nonempty|].
  split; [apply join_split|]. split; [apply split_pieces|].
  rewrite Hparse. unfold PostgresInspector.listTables.
  pose proof (split_nonempty "," value) as Hne.
  by destruct (JsText.split "," value).
Qed.

Lemma tables_option_restricts_witness :
  ∃ names,
    Cli.parseTables (Some "orders,order items") = Some names
    ∧ names ≠ []
    ∧ expectedJoin "," names = "orders,order items"
    ∧ Forall (λ name, ¬ occursIn "," name) names
    ∧ PostgresInspector.listTables
        (PostgresInspector.Build_Catalog (λ _, ["customers"; "orders"]) (λ _ _, [])
           (λ _ _, []) (λ _ _, []) (λ _ _, []) (λ _ _, []) (λ _, []) (λ _, []))
        "public" (Cli.parseTables (Some "orders,order items"))
      = filter (λ name, name ∈ names) ["customers"; "orders"].
Proof.
  apply (proj1 (tables_option_restricts
                  (PostgresInspector.Build_Catalog (λ _, ["customers"; "orders"]) (λ _ _, [])
                     (λ _ _, []) (λ _ _, []) (λ _ _, []) (λ _ _, []) (λ _, []) (λ _, []))
                  "public") "orders,order items").
  discriminate.
Defined.

(** * The exported sheet *)

Lemma orDash_shown (o : option string) : Js.show_str (Js.or_str o (Some "-")) = orDash o.
Proof.
  unfold orDash, Js.or_str, Js.show_str, Js.truthy_str.
  destruct o as [s|]; [|done].
  destruct (decide (s = "")) as [->|Hs]; [done|].
  by rewrite (proj2 (String.eqb_neq _ _) Hs).
Qed.

(** X13.  The Excel export and the CSV export add the same rows, one per diff
    in the order of the result: the diff's table, the kind of diff with a
    space in place of the underscore, and the column, expected and actual
    values, each shown as a dash when absent or empty.  No label keeps an
    underscore and no value cell is empty. *)
Theorem exported_rows (result : ComparisonResult) :
  SchemaExporter.exportToExcel result = map expectedRow (ComparisonResult.diffs result)
  ∧ SchemaExporter.exportToCSV result = map expectedRow (ComparisonResult.diffs result)
  ∧ Forall (λ row, ¬ occursIn "_" (SchemaExporter.SheetRow.type row)
                   ∧ SchemaExporter.SheetRow.column row ≠ ""
                   ∧ SchemaExporter.SheetRow.expected row ≠ ""
                   ∧ SchemaExporter.SheetRow.actual row ≠ "")
      (SchemaExporter.exportToExcel result).
Proof.
  assert (∀ d, SchemaExporter.toRow d = expectedRow d) as Hrow.
  { intros d. unfold SchemaExporter.toRow, expectedRow. rewrite !orDash_shown.
    by destruct (SchemaDiff.type d). }
  assert (SchemaExporter.exportToExcel result = map expectedRow (ComparisonResult.diffs result))
    as Hexcel.
  { unfold SchemaExporter.exportToExcel. rewrite fold_left_snoc_map. simpl.
    apply map_ext. exact Hrow. }
  split; [exact Hexcel|]. split.
  - unfold SchemaExporter.exportToCSV. rewrite fold_left_snoc_map. simpl.
    apply map_ext. exact Hrow.
  - rewrite Hexcel. apply Forall_fmap, Forall_forall. intros d _. simpl.
    assert (∀ o, orDash o ≠ "") as Hdash.
    { intros [s|]; simpl; [|done]. by destruct (decide (s = "")). }
    repeat split; try apply Hdash.
    unfold occursIn. destruct (SchemaDiff.type d); simpl;
      rewrite !not_elem_of_cons; repeat split; try discriminate; apply not_elem_of_nil.
Qed.

(** * Text values *)

Lemma doubleQuotes_expected (s : string) : Js.doubleQuotes s = expectedEscape s.
Proof.
  induction s as [|c r IH]; [done|]. simpl. rewrite IH.
  destruct (Ascii.eqb_spec c "'") as [->|Hc].
  - by rewrite decide_True.
  - by rewrite decide_False.
Qed.

Ltac evaluate_type_tests :=
  repeat match goal with
    | |- context [Js.toLowerCase ?t] =>
        let v := eval vm_compute in (Js.toLowerCase t) in
        change (Js.toLowerCase t) with v
    | |- context [String.eqb ?a ?b] =>
        let v := eval vm_compute in (String.eqb a b) in
        change (String.eqb a b) with v
    | |- context [PostgresExtractor.numericLike ?t] =>
        let v := eval vm_compute in (PostgresExtractor.numericLike t) in
        change (PostgresExtractor.numericLike t) with v
    | |- context [Js.includes ?a ?b] =>
        let v := eval vm_compute in (Js.includes a b) in
        change (Js.includes a b) with v
    end.

(** X14.  In a column of a text, date, time, identifier or binary type a
    string value is written as a literal between single quotes with every
    single quote of the value written twice: undoing the doubling gives the
    value back, and the number of quotes between the delimiters is even, so
    no character of the value ends the literal. *)
Theorem formatValue_text_literal (type : string) (s : string) :
  type ∈ textTypes →
  PostgresExtractor.formatValue (JsString s) type = "'" +:+ expectedEscape s +:+ "'"
  ∧ Js.undoubleQuotes (expectedEscape s) = s
  ∧ Nat.Even (Js.count_char "'" (expectedEscape s)).
Proof.
  intros Htype. split; [|split].
  - rewrite formatValue_unfold. cbn [JsValue.isNullish]. cbv zeta.
    unfold textTypes in Htype.
    repeat (apply elem_of_cons in Htype as [->|Htype]);
      [..|by apply elem_of_nil in Htype];
      evaluate_type_tests; cbv iota;
      unfold PostgresExtractor.quotedText; simpl JsValue.toString;
      by rewrite doubleQuotes_expected.
  - rewrite <- doubleQuotes_expected. apply doubleQuotes_undo.
  - rewrite <- doubleQuotes_expected, doubleQuotes_count. by eexists.
Qed.

Lemma formatValue_text_literal_witness :
  PostgresExtractor.formatValue (JsString "it's") "character varying" = "'it''s'"
  ∧ Js.undoubleQuotes (expectedEscape "it's") = "it's"
  ∧ Nat.Even (Js.count_char "'" (expectedEscape "it's")).
Proof.
  apply (formatValue_text_literal "character varying" "it's").
  unfold textTypes. apply list_elem_of_further, list_elem_of_here.
Defined.

(** * The comparator before and after the engines were split off *)

Lemma fold_left_ext_all {A B} (f g : B → A → B) (l : list A) (init : B) :
  (∀ acc x, f acc x = g acc x) → fold_left f l init = fold_left g l init.
Proof.
  intros Hfg. revert init. induction l as [|x l IH]; intros init; simpl; [done|].
  by rewrite Hfg, IH.
Qed.

Lemma legacy_formatColumn (col : TableColumn) :
  DDLGenerator.formatColumn col = PostgresDDLGenerator.formatColumn col.
Proof.
  unfold DDLGenerator.formatColumn, PostgresDDLGenerator.formatColumn,
    PostgresDDLGenerator.typeSuffix. cbv zeta.
  destruct (Js.truthy_num (TableColumn.characterMaximumLength col)); [done|].
  destruct (TableColumn.numericPrecision col) as [p|],
           (TableColumn.numericScale col) as [s|]; simpl; by rewrite ?app_nil_r_str.
Qed.

Lemma legacy_generateTableCreate (meta : TableMetadata) :
  DDLGenerator.generateTableCreate meta = PostgresDDLGenerator.generateTableCreate meta.
Proof.
  unfold DDLGenerator.generateTableCreate, PostgresDDLGenerator.generateTableCreate.
  cbv zeta. rewrite (map_ext _ _ legacy_formatColumn).
  unfold PostgresDDLGenerator.qualified. rewrite !app_assoc_str.
  apply fold_left_ext_all. intros sql pk.
  unfold PostgresDDLGenerator.primaryKeyStatement, PostgresDDLGenerator.qualified,
    PostgresDDLGenerator.columnList.
  by rewrite !app_assoc_str.
Qed.

Lemma legacy_typeSuffix (text : string) (sCol : TableColumn) :
  LegacyComparator.withTypeSuffix text sCol = text +:+ PostgresDDLGenerator.typeSuffix sCol.
Proof.
  unfold LegacyComparator.withTypeSuffix, PostgresDDLGenerator.typeSuffix.
  destruct (Js.truthy_num _); [done|].
  destruct (TableColumn.numericPrecision sCol), (TableColumn.numericScale sCol);
    by rewrite ?app_nil_r_str.
Qed.

Section Legacy.
Variable sourceInspector targetInspector : ISchemaInspector.

Lemma legacy_compareColumn source targetCols diffs sCol :
  LegacyComparator.compareColumn source targetCols diffs sCol
  = SchemaComparator.compareColumn PostgresDDLGenerator.generator source targetCols diffs sCol.
Proof.
  unfold LegacyComparator.compareColumn, SchemaComparator.compareColumn,
    LegacyComparator.alterTable. simpl.
  unfold PostgresDDLGenerator.generateAddColumn, PostgresDDLGenerator.generateAlterColumnType,
    PostgresDDLGenerator.generateAlterColumnNullability,
    PostgresDDLGenerator.generateAlterColumnDefault,
    PostgresDDLGenerator.typeStr, PostgresDDLGenerator.qualified.
  cbv zeta. rewrite !legacy_typeSuffix.
  destruct (targetCols !! TableColumn.name sCol) as [tCol|].
  - repeat case_bool_decide;
      destruct (Js.truthy_str (TableColumn.columnDefault sCol));
      rewrite ?app_assoc_str; reflexivity.
  - destruct (TableColumn.isNullable sCol), (Js.truthy_str (TableColumn.columnDefault sCol));
      simpl; rewrite ?app_assoc_str; reflexivity.
Qed.

Lemma legacy_compareConstraint source targetConstraints diffs c :
  LegacyComparator.compareConstraint source targetConstraints diffs c
  = SchemaComparator.compareConstraint PostgresDDLGenerator.generator source
      targetConstraints diffs c.
Proof.
  unfold LegacyComparator.compareConstraint, SchemaComparator.compareConstraint,
    LegacyComparator.alterTable, LegacyComparator.quotedColumns. simpl.
  unfold PostgresDDLGenerator.generateConstraintFix, PostgresDDLGenerator.qualified,
    PostgresDDLGenerator.columnList, PostgresDDLGenerator.foreignColumnList,
    PostgresDDLGenerator.columnList.
  case_bool_decide; [|done].
  destruct (TableConstraint.type c); rewrite ?app_assoc_str; reflexivity.
Qed.

Lemma legacy_compareTrigger targetTrigMap diffs sTrig :
  LegacyComparator.compareTrigger targetTrigMap diffs sTrig
  = SchemaComparator.compareTrigger PostgresDDLGenerator.generator targetTrigMap diffs sTrig.
Proof.
  unfold LegacyComparator.compareTrigger, SchemaComparator.compareTrigger. simpl.
  unfold PostgresDDLGenerator.generateDropTrigger, PostgresDDLGenerator.qualified.
  change LegacyComparator.triggerKey with SchemaComparator.triggerKey.
  destruct (targetTrigMap !! _); [|done].
  case_bool_decide; [|done]. rewrite ?app_assoc_str. reflexivity.
Qed.

(** X15.  Moving the fix statements out of the comparator into the engines'
    generators changed nothing for PostgreSQL: for every pair of inspectors
    and schemas, the comparator that builds every fix inline and the present
    comparator with the PostgreSQL generator (its default) return the same
    result, diff for diff and character for character. *)
Theorem compare_as_before_the_split (sourceSchema targetSchema : string) :
  LegacyComparator.compare sourceInspector targetInspector sourceSchema targetSchema
  = SchemaComparator.compare (EngineFactory.createGenerator postgres)
      sourceInspector targetInspector sourceSchema targetSchema.
Proof.
  unfold LegacyComparator.compare, SchemaComparator.compare. cbv zeta. f_equal.
  unfold LegacyComparator.compareTriggers, SchemaComparator.compareTriggers,
    LegacyComparator.compareFunctions, SchemaComparator.compareFunctions. cbv zeta.
  change LegacyComparator.triggerKey with SchemaComparator.triggerKey.
  rewrite (fold_left_ext_all _ _ _ _ (legacy_compareTrigger _)).
  f_equal. f_equal.
  apply fold_left_ext_all. intros diffs tableName.
  unfold LegacyComparator.compareTable, SchemaComparator.compareTable. cbv zeta.
  case_bool_decide.
  - simpl. by rewrite legacy_generateTableCreate.
  - unfold LegacyComparator.compareIndexes, SchemaComparator.compareIndexes,
      LegacyComparator.compareConstraints, SchemaComparator.compareConstraints,
      LegacyComparator.compareColumns, SchemaComparator.compareColumns. cbv zeta.
    f_equal.
    rewrite (fold_left_ext_all _ _ _ _ (legacy_compareConstraint _ _)).
    f_equal.
    apply fold_left_ext_all. intros acc sCol. apply legacy_compareColumn.
Qed.

End Legacy.
